(** * hypernet: dataset splitting, overlap metrics and patch reassembly

    A shallow embedding of the array bookkeeping of the repository:
    - [ml_intuition/data/utils.py]: [shuffle_arrays_together],
      [_get_set_indices] and [train_val_test_split];
    - [cloud_detection/evaluate_L8CCA.py]: the reassembly loop of
      [get_img_pred] and the dictionary of [evaluate_model];
    - the overlap metrics exercised by
      [beetles/cloud_detection/tests/test_losses.py].

    NumPy arrays are lists along their first axis; the arrays a caller
    passes live in a store and are shuffled in place.  The generator of
    [np.random.RandomState] is an interface, with MT19937 as its instance.
    Python floats are binary64 numbers, held as the rationals they denote
    ([Q]): the product [len * size] is rounded to the nearest binary64
    number, ties to even, before [int] truncates it.  Exceptions are values
    of [outcome]; Python dicts are finite maps ([gmap]) with string keys.
    [cloud_detection/losses.py] is not among the sources: the metrics are
    modelled from the specification and run on the fixtures of its tests. *)

From Stdlib Require Import ZArith QArith Qround Qabs Qpower Lia Lqa.
From stdpp Require Import numbers functions option sets list sorting.
From stdpp Require Import strings gmap.

Set Default Proof Using "Type".

(** ** NumPy and Python primitives used by the sources *)

Module NumPy.

Inductive exn : Type :=
| AssertionError
| ValueError
| TypeError
| IndexError
| ZeroDivisionError
| UnboundLocalError
| EinopsError.

Inductive outcome (A : Type) : Type :=
| Returns (a : A)
| Raises (e : exn).
Arguments Returns {A} a.
Arguments Raises {A} e.

(** Sequencing stops at the first exception; [x ← m; k] is stdpp's
    notation for it. *)
#[export] Instance outcome_ret : MRet outcome := λ A a, Returns a.
#[export] Instance outcome_bind : MBind outcome := λ A B k m,
  match m with
  | Returns a => k a
  | Raises e => Raises e
  end.

(** The generator behind [np.random.RandomState]: seeding, and the bounded
    draw [random_interval state max], a number of [0..max] together with the
    advanced state.  The theorems hold for every such generator; [mt19937]
    below is the one NumPy uses. *)
Class BitGenerator : Type := {
  rng_state : Type;
  RandomState : Z → rng_state;
  random_interval : rng_state → nat → nat * rng_state;
  random_interval_le : ∀ st max, (random_interval st max).1 ≤ max
}.

Section Shuffle.
Context `{BitGenerator} {A : Type}.

(** [x[i], x[j] = x[j], x[i]]; in the shuffle both indices are in range,
    since [j <= i < len(x)]. *)
Definition swap (i j : nat) (x : list A) : list A :=
  match x !! i, x !! j with
  | Some xi, Some xj => <[j := xi]> (<[i := xj]> x)
  | _, _ => x
  end.

(** [for i in reversed(range(1, n)): j = random_interval(i); swap];
    the loop counter [S i'] is the index [i] of the source. *)
Fixpoint shuffle_loop (i : nat) (st : rng_state) (x : list A) : list A :=
  match i with
  | 0 => x
  | S i' =>
      let '(j, st') := random_interval st i in
      shuffle_loop i' st' (swap i j x)
  end.

(** [random_state.shuffle(x)], along the first axis: entries (rows, for an
    array of more dimensions) are swapped whole. *)
Definition shuffle (st : rng_state) (x : list A) : list A :=
  shuffle_loop (length x - 1) st x.
End Shuffle.

(** The inverse of [shuffle_loop]: the same swaps, undone last to first. *)
Fixpoint unshuffle_loop `{BitGenerator} {A} (i : nat) (st : rng_state)
    (x : list A) : list A :=
  match i with
  | 0 => x
  | S i' =>
      let '(j, st') := random_interval st i in
      swap i j (unshuffle_loop i' st' x)
  end.

(** *** The generator of [RandomState]: MT19937

    NumPy's legacy generator, as in its C sources ([mt19937_seed],
    [mt19937_gen], [mt19937_next], [random_interval]).  Words are 32-bit
    integers in [Z]. *)

Definition u32 (z : Z) : Z := Z.land z 4294967295.

(** [key[pos] = seed; seed = 1812433253 * (seed ^ (seed >> 30)) + pos + 1] *)
Fixpoint mt19937_init (n : nat) (pos seed : Z) : list Z :=
  match n with
  | 0 => []
  | S n' =>
      seed :: mt19937_init n' (pos + 1)
                (u32 (1812433253 * Z.lxor seed (Z.shiftr seed 30) + pos + 1))
  end.

(** The state: the 624 words of the key and the position of the next one. *)
Definition mt19937_state : Type := list Z * nat.

(** The C function [mt19937_seed(state, seed)], whose argument is a 32-bit
    word.  The range of an integer seed is checked before it is called, in
    [legacy_seeding] below. *)
Definition mt19937_seed (seed : Z) : mt19937_state :=
  (mt19937_init 624 0 (u32 seed), 624).

Definition word (key : list Z) (i : nat) : Z := default 0%Z (key !! i).

(** One word of the next key: [y = (hi & UPPER) | (lo & LOWER)] and
    [src ^ (y >> 1) ^ (y odd ? 0x9908b0df : 0)]. *)
Definition mt19937_twist (hi lo src : Z) : Z :=
  let y := Z.lor (Z.land hi 2147483648) (Z.land lo 2147483647) in
  Z.lxor (Z.lxor src (Z.shiftr y 1)) (if Z.odd y then 2567483615 else 0)%Z.

(** [mt19937_gen]: the key is regenerated word by word, in place; word [kk]
    reads the old words [kk] and [kk + 1] (the new word 0 for [kk = 623]) and
    word [kk + 397], which is already a new one from [kk = 227] on. *)
Definition mt19937_gen (old : list Z) : list Z :=
  foldl (λ new kk,
      let lo := if decide (kk = 623) then word new 0 else word old (kk + 1) in
      let src :=
        if decide (kk < 227) then word old (kk + 397) else word new (kk - 227) in
      new ++ [mt19937_twist (word old kk) lo src])
    [] (seq 0 624).

(** The tempering of an output word. *)
Definition mt19937_temper (y : Z) : Z :=
  let y := Z.lxor y (Z.shiftr y 11) in
  let y := Z.lxor y (Z.land (Z.shiftl y 7) 2636928640) in
  let y := Z.lxor y (Z.land (Z.shiftl y 15) 4022730752) in
  Z.lxor y (Z.shiftr y 18).

Definition next_uint32 (st : mt19937_state) : Z * mt19937_state :=
  let '(key, pos) := st in
  let '(key, pos) :=
    if decide (624 ≤ pos) then (mt19937_gen key, 0) else (key, pos) in
  (mt19937_temper (word key pos), (key, S pos)).

Definition next_uint64 (st : mt19937_state) : Z * mt19937_state :=
  let '(hi, st) := next_uint32 st in
  let '(lo, st) := next_uint32 st in
  (Z.lor (Z.shiftl hi 32) lo, st).

(** [while ((value = next() & mask) > max);] The loop of the C code has no
    bound; every try succeeds with probability above one half, and the model
    gives up (with 0) after [fuel] tries. *)
Fixpoint interval_loop (fuel : nat) (st : mt19937_state) (mask max : Z)
    : Z * mt19937_state :=
  match fuel with
  | 0 => (0%Z, st)
  | S fuel' =>
      let '(v, st') :=
        if decide (max ≤ 4294967295)%Z then next_uint32 st else next_uint64 st in
      let value := Z.land v mask in
      if decide (value ≤ max)%Z then (value, st')
      else interval_loop fuel' st' mask max
  end.

(** [random_interval(state, max)]: a draw from [0 .. max], by rejection
    under the smallest bit mask that covers [max]. *)
Definition mt19937_interval (st : mt19937_state) (max : nat)
    : nat * mt19937_state :=
  if decide (max = 0) then (0, st)
  else
    let mask := Z.ones (Z.log2 (Z.of_nat max) + 1) in
    let '(value, st') := interval_loop 4096 st mask (Z.of_nat max) in
    (Z.to_nat value, st').

Lemma interval_loop_le fuel st mask max :
  (0 ≤ max)%Z → ((interval_loop fuel st mask max).1 ≤ max)%Z.
Proof.
  intros Hmax. revert st. induction fuel as [|fuel IH]; intros st; simpl; [done|].
  destruct (if decide (max ≤ 4294967295)%Z then next_uint32 st else next_uint64 st)
    as [v st'].
  case_decide; [done | apply IH].
Qed.

Definition mt19937 : BitGenerator.
Proof.
  refine {| rng_state := mt19937_state; RandomState := mt19937_seed;
            random_interval := mt19937_interval |}.
  intros st max. unfold mt19937_interval. case_decide; [simpl; lia|].
  pose proof (interval_loop_le 4096 st (Z.ones (Z.log2 (Z.of_nat max) + 1))
                (Z.of_nat max) (Nat2Z.is_nonneg max)) as Hle.
  destruct (interval_loop _ _ _ _) as [value st']. simpl in *. lia.
Defined.

(** [np.random.RandomState(seed)] for an integer seed ([_legacy_seeding]):
    [ValueError] ("Seed must be between 0 and 2**32 - 1") for a seed out of
    range, before any state is built. *)
Definition legal_seed (seed : Z) : bool := bool_decide (0 ≤ seed < 2 ^ 32)%Z.

Definition legacy_seeding `{BitGenerator} (seed : Z) : outcome rng_state :=
  if legal_seed seed then Returns (RandomState seed) else Raises ValueError.

(** [x[p]] for an index list [p] with every index in range. *)
Definition permute {A} (p : list nat) (x : list A) : list A :=
  omap (λ k, x !! k) p.

(** The permutation [RandomState(seed).shuffle] performs on arrays of
    length [n]. *)
Definition shuffle_permutation `{BitGenerator} (seed : Z) (n : nat) : list nat :=
  shuffle (RandomState seed) (seq 0 n).

(** [np.unique]: the sorted distinct values. *)
Definition unique_Z (l : list Z) : list Z := merge_sort Z.le (remove_dups l).
Definition unique_nat (l : list nat) : list nat := merge_sort Nat.le (remove_dups l).

(** [np.where(labels == label)[0]] *)
Definition where_eq (labels : list Z) (label : Z) : list nat :=
  filter (λ i, labels !! i = Some label) (seq 0 (length labels)).

Definition arange (n : nat) : list nat := seq 0 n.

(** [np.setdiff1d(a, b)]: the sorted distinct values of [a] not in [b]. *)
Definition setdiff1d (a b : list nat) : list nat :=
  filter (λ i, i ∉ b) (unique_nat a).

(** Index arrays carry their dtype: [np.arange] of a float is a float
    array, which NumPy refuses as an index. *)
Inductive indices : Type :=
| IntIndices (l : list nat)
| FloatIndices (l : list nat).

(** [x[idx]] for an integer index list: [IndexError] out of bounds. *)
Definition take_int {A} (x : list A) (idx : list nat) : outcome (list A) :=
  match mapM (λ i, x !! i) idx with
  | Some r => Returns r
  | None => Raises IndexError
  end.

(** [x[idx]] for an index array. *)
Definition take_indices {A} (x : list A) (idx : indices) : outcome (list A) :=
  match idx with
  | IntIndices l => take_int x l
  | FloatIndices _ => Raises IndexError
  end.

(** [np.concatenate(arrays, axis=0)]: refuses an empty sequence. *)
Definition concatenate {A} (arrays : list (list A)) : outcome (list A) :=
  match arrays with
  | [] => Raises ValueError
  | _ => Returns (concat arrays)
  end.

(** *** Python floats

    A float is a binary64 number: 53 significant bits, exponents from
    -1022 (below which the spacing stays [2^-1074]) to 1023.  The operands
    met here are array lengths and fractions below one, far from the
    overflow threshold [2^1024], which is left out. *)

(** The exponent [e] with [2^e <= x < 2^(e+1)], for a positive [x]. *)
Definition binade (x : Q) : Z :=
  let e := (Z.log2 (Qnum x) - Z.log2 (Zpos (Qden x)))%Z in
  if Qle_bool (2 ^ e) x then e else (e - 1)%Z.

(** The nearest integer, the even one of two that are equally near. *)
Definition round_half_even (x : Q) : Z :=
  let f := Qfloor x in
  match (x - inject_Z f ?= 1 # 2)%Q with
  | Lt => f
  | Gt => (f + 1)%Z
  | Eq => if Z.even f then f else (f + 1)%Z
  end.

(** The spacing of the binary64 numbers around [x]. *)
Definition ulp (x : Q) : Q := (2 ^ (Z.max (binade (Qabs x)) (-1022) - 52))%Q.

(** The binary64 number nearest to [x], ties to even: the result of every
    float operation whose exact result is [x]. *)
Definition binary64 (x : Q) : Q :=
  (inject_Z (round_half_even (x / ulp x)) * ulp x)%Q.

(** [int(x)] for a float: truncation towards zero. *)
Definition int (x : Q) : Z := if Qle_bool 0 x then Qfloor x else Qceiling x.

(** Rounding is reasoned about through its lemmas: it is unfolded last. *)
Arguments binary64 : simpl never.
Arguments int : simpl never.
Strategy 100 [binary64 int].

End NumPy.

(** ** ml_intuition/data/utils.py *)

Module Utils.
Import NumPy.

(** A [size] argument is a Python int or a Python float. *)
Inductive size_t : Type :=
| SizeInt (n : Z)
| SizeFloat (q : Q).

Definition Qltb (a b : Q) : bool := negb (Qle_bool b a).

(** [size > 0] *)
Definition size_positive (size : size_t) : bool :=
  match size with
  | SizeInt n => bool_decide (0 < n)%Z
  | SizeFloat q => Qltb 0 q
  end.

(** [0.0 < size < 1.0] *)
Definition size_fraction (size : size_t) : bool :=
  match size with
  | SizeInt n => bool_decide (0 < n)%Z && bool_decide (n < 1)%Z
  | SizeFloat q => Qltb 0 q && Qltb q 1
  end.

(** [size >= 1] *)
Definition size_ge_1 (size : size_t) : bool :=
  match size with
  | SizeInt n => bool_decide (1 ≤ n)%Z
  | SizeFloat q => Qle_bool 1 q
  end.

(** [int(n * size)] for a length [n].  With a float [size] the length is
    converted to a float and the product is a float product, rounded before
    it is truncated: [int(10 * 0.7)] is 7 although the float [0.7] is below
    7/10, and [int(50 * 0.58)] is 28. *)
Definition int_mul (n : nat) (size : size_t) : nat :=
  match size with
  | SizeInt k => Z.to_nat (Z.of_nat n * k)
  | SizeFloat q =>
      Z.to_nat (int (binary64 (binary64 (inject_Z (Z.of_nat n)) * q)))
  end.

Arguments int_mul : simpl never.
Strategy 100 [int_mul].

(** [x[:size]]: a slice bound must be an integer. *)
Definition slice_to {A} (size : size_t) (x : list A) : outcome (list A) :=
  match size with
  | SizeInt n => Returns (take (Z.to_nat n) x)
  | SizeFloat _ => Raises TypeError
  end.

(** [np.arange(size)]: a float bound gives a float array of
    [ceil(size)] values. *)
Definition arange_size (size : size_t) : indices :=
  match size with
  | SizeInt n => IntIndices (arange (Z.to_nat n))
  | SizeFloat q => FloatIndices (arange (Z.to_nat (Qceiling q)))
  end.

(** Indices of the subset to extract.  The four branches are those of the
    source; the last [else] is the [return] of an unbound [train_indices],
    which no number reaches after the assertion. *)
Definition _get_set_indices (labels : list Z) (size : size_t)
    (stratified : bool) : outcome indices :=
  let unique_labels := unique_Z labels in
  let label_indices := (λ label, where_eq labels label) <$> unique_labels in
  if negb (size_positive size) then Raises AssertionError
  else if size_fraction size && stratified then
    let label_indices :=
      (λ li, take (int_mul (length li) size) li) <$> label_indices in
    train_indices ← concatenate label_indices;
    Returns (IntIndices train_indices)
  else if size_fraction size && negb stratified then
    Returns (IntIndices (arange (int_mul (length labels) size)))
  else if size_ge_1 size && stratified then
    label_indices ← mapM (slice_to size) label_indices;
    train_indices ← concatenate label_indices;
    Returns (IntIndices train_indices)
  else if size_ge_1 size && negb stratified then
    Returns (arange_size size)
  else Raises UnboundLocalError.

(** The first indices of one class, [label_indices[idx][:k]], the bound [k]
    being computed from the index list of the class. *)
Definition class_prefix (labels : list Z) (k : list nat → nat) (label : Z)
    : list nat :=
  take (k (where_eq labels label)) (where_eq labels label).

(** *** Arrays in memory

    The arrays a caller holds live in a store; a Python list of arrays is a
    list of references into it, so the same array may be listed twice.  A
    reference is to an array of samples (entries of an arbitrary type) or
    to a vector of integer labels. *)
Inductive ref : Type :=
| SamplesRef (l : nat)
| VectorRef (l : nat).

#[export] Instance ref_eq_dec : EqDecision ref.
Proof. solve_decision. Defined.

Section Store.
Context `{BitGenerator} {sample : Type}.

(** The store: the sample arrays and the label vectors, by address. *)
Record heap : Type := Heap {
  samples_at : nat → list sample;
  vector_at : nat → list Z
}.

(** The content of an array of either kind, along its first axis. *)
Inductive ndarray : Type :=
| Samples (x : list sample)
| Vector (v : list Z).

Definition read (h : heap) (array : ref) : ndarray :=
  match array with
  | SamplesRef l => Samples (samples_at h l)
  | VectorRef l => Vector (vector_at h l)
  end.

Definition write (array : ref) (a : ndarray) (h : heap) : heap :=
  match array, a with
  | SamplesRef l, Samples x => Heap (<[l := x]> (samples_at h)) (vector_at h)
  | VectorRef l, Vector v => Heap (samples_at h) (<[l := v]> (vector_at h))
  | _, _ => h
  end.

(** [len(array)] *)
Definition len (a : ndarray) : nat :=
  match a with
  | Samples x => length x
  | Vector v => length v
  end.

Definition map_ndarray (f : ∀ A, list A → list A) (a : ndarray) : ndarray :=
  match a with
  | Samples x => Samples (f _ x)
  | Vector v => Vector (f _ v)
  end.

(** [random_state = np.random.RandomState(seed); random_state.shuffle(array)]
    for a seed [RandomState] accepts. *)
Definition shuffle_in_place (seed : Z) (array : ref) (h : heap) : heap :=
  write array (map_ndarray (λ A, shuffle (RandomState seed)) (read h array)) h.

(** [all(len(array) == len(arrays[0]) for array in arrays)] *)
Definition same_lengths (arrays : list ref) (h : heap) : bool :=
  match arrays with
  | [] => true
  | first :: _ =>
      forallb (λ array, len (read h array) =? len (read h first)) arrays
  end.

(** [for array in arrays: random_state = np.random.RandomState(seed);
    random_state.shuffle(array)]: the loop ends at the first exception,
    with the store as it then is. *)
Fixpoint shuffle_each (seed : Z) (arrays : list ref) (h : heap)
    : outcome unit * heap :=
  match arrays with
  | [] => (Returns (), h)
  | array :: arrays =>
      match legacy_seeding seed with
      | Returns random_state =>
          shuffle_each seed arrays
            (write array
               (map_ndarray (λ A, shuffle random_state) (read h array)) h)
      | Raises e => (Raises e, h)
      end
  end.

(** Returns nothing; the second component is the store afterwards. *)
Definition shuffle_arrays_together (arrays : list ref) (seed : Z)
    (h : heap) : outcome unit * heap :=
  if same_lengths arrays h then shuffle_each seed arrays h
  else (Raises AssertionError, h).

(** All listed arrays have the same first-dimension length. *)
Definition SameLengths (arrays : list ref) (h : heap) : Prop :=
  ∀ a b, a ∈ arrays → b ∈ arrays → len (read h a) = len (read h b).

(** Two stores hold the same contents in all listed arrays. *)
Definition agree_on (arrays : list ref) (h1 h2 : heap) : Prop :=
  ∀ a, a ∈ arrays → read h1 a = read h2 a.

(** [x[p]] on an array of either kind, and in the store. *)
Definition permute_array (p : list nat) : ndarray → ndarray :=
  map_ndarray (λ A, permute p).

Definition permute_in_place (p : list nat) (array : ref) (h : heap) : heap :=
  write array (permute_array p (read h array)) h.

Definition index_values (idx : indices) : list nat :=
  match idx with
  | IntIndices l => l
  | FloatIndices l => l
  end.

(** The index arrays of [train_val_test_split] at its [return]. *)
Record split_indices_t : Type := SplitIndices {
  train_superset : list nat;
  train_indices : list nat;
  val_indices : list nat;
  test_indices : list nat
}.

(** Lines 84 to 87 of [train_val_test_split], on the shuffled labels;
    [train_superset] is [train_indices] before the validation indices are
    taken out of it. *)
Definition split_indices (n_data : nat) (labels : list Z)
    (train_size val_size : size_t) (stratified : bool)
    : outcome split_indices_t :=
  train_indices ← _get_set_indices labels train_size stratified;
  train_labels ← take_indices labels train_indices;
  val_indices ← _get_set_indices train_labels val_size true;
  let test_indices := setdiff1d (arange n_data) (index_values train_indices) in
  let train_indices' :=
    setdiff1d (index_values train_indices) (index_values val_indices) in
  Returns (SplitIndices (index_values train_indices) train_indices'
             (index_values val_indices) test_indices).

Record split_t : Type := Split {
  train_x : list sample; train_y : list Z;
  val_x : list sample; val_y : list Z;
  test_x : list sample; test_y : list Z
}.

(** [data] and [labels] are the addresses of the caller's arrays, which the
    joint shuffle (seed 0, the default) reorders in place; the six returned
    arrays are copies. *)
Definition train_val_test_split (data labels : nat)
    (train_size val_size : size_t) (stratified : bool) (h : heap)
    : outcome split_t * heap :=
  let '(shuffled, h) :=
    shuffle_arrays_together [SamplesRef data; VectorRef labels] 0 h in
  let data := samples_at h data in
  let labels := vector_at h labels in
  (_ ← shuffled;
   ix ← split_indices (length data) labels train_size val_size stratified;
   train_x ← take_int data (train_indices ix);
   train_y ← take_int labels (train_indices ix);
   val_x ← take_int data (val_indices ix);
   val_y ← take_int labels (val_indices ix);
   test_x ← take_int data (test_indices ix);
   test_y ← take_int labels (test_indices ix);
   Returns (Split train_x train_y val_x val_y test_x test_y),
   h).
(** Two arrays of the same kind hold the same entries, each as often, in
    some order. *)
Definition same_entries (a b : ndarray) : Prop :=
  match a, b with
  | Samples x, Samples y => x ≡ₚ y
  | Vector v, Vector w => v ≡ₚ w
  | _, _ => False
  end.
End Store.

End Utils.

(** ** cloud_detection/evaluate_L8CCA.py *)

Module EvaluateL8CCA.
Import NumPy.

(** A two-dimensional array of pixels, as its list of rows. *)
Abbreviation image A := (list (list A)).

Section Image.
(** A pixel is the vector along the last axis (one channel); [inf] is
    the pixel [np.full] writes. *)
Context {A : Type} (inf : A).

(** NumPy broadcasting of one axis to length [n]: the axis has length
    [n] already, or length one and is repeated. *)
Definition broadcast_to {X} (n : nat) (l : list X) : option (list X) :=
  if decide (length l = n) then Some l
  else match l with
       | [x] => Some (replicate n x)
       | _ => None
       end.

(** [img[r*ps:(r+1)*ps, c*ps:(c+1)*ps] = patch]: the slice is clipped to
    the image, the patch is broadcast to the shape of the slice
    ([ValueError] when it cannot be), and the slice is overwritten. *)
Definition assign_block (patch_size r c : nat) (patch img : image A)
    : outcome (image A) :=
  let rows := take patch_size (drop (r * patch_size) img) in
  let width (row : list A) := length (take patch_size (drop (c * patch_size) row)) in
  match
    patch_rows ← broadcast_to (length rows) patch;
    mapM (λ '(row, patch_row), broadcast_to (width row) patch_row)
      (zip rows patch_rows)
  with
  | Some patch_rows =>
      Returns
        (list_inserts (r * patch_size)
           (zip_with (λ row patch_row,
                list_inserts (c * patch_size) patch_row row)
              rows patch_rows)
           img)
  | None => Raises ValueError
  end.

(** [for x in range(n): state = body(x, state)], stopping at the first
    exception. *)
Definition for_range {St} (n : nat) (body : nat → St → outcome St) (s : St)
    : outcome St :=
  foldl (λ acc x, s ← acc; body x s) (Returns s) (seq 0 n).

(** The reassembly of [get_img_pred], from [preds], the output of
    [model.predict_generator(testgen)] (one patch per tile), and
    [img_shape = testgen.img_shape].  [int(h / patch_size)] is the integer
    quotient; the timing of the prediction is not part of the model. *)
Definition get_img_pred (preds : list (image A)) (img_shape : nat * nat)
    (patch_size : nat) : outcome (image A) :=
  if decide (patch_size = 0) then Raises ZeroDivisionError
  else
    let n_rows := img_shape.1 `div` patch_size in
    let n_cols := img_shape.2 `div` patch_size in
    (* rearrange(preds, '(r c) dr dc b -> r c dr dc b', r=n_rows, c=n_cols):
       preds[r, c] is the patch number r * n_cols + c *)
    if decide (length preds = n_rows * n_cols) then
      let img := replicate img_shape.1 (replicate img_shape.2 inf) in
      for_range n_rows (λ r img,
        for_range n_cols (λ c img,
          match preds !! (r * n_cols + c) with
          | Some patch => assign_block patch_size r c patch img
          | None => Raises IndexError
          end) img) img
    else Raises EinopsError.

(** Modelled from the spec: the patch of [DG_L8CCA] (not among the
    sources) at grid coordinate [(r, c)], rows [r * patch_size ..] and
    columns [c * patch_size ..] of the image. *)
Definition tile_at (patch_size r c : nat) (img : image A) : image A :=
  (λ row, take patch_size (drop (c * patch_size) row))
    <$> take patch_size (drop (r * patch_size) img).

(** Modelled from the spec: the generator [DG_L8CCA] that cuts the image
    into patches is not among the sources; following the spec (4.2), the
    image is tiled into a regular grid of non-overlapping
    [patch_size × patch_size] patches, listed in row-major order. *)
Definition tile (patch_size : nat) (img_shape : nat * nat) (img : image A)
    : list (image A) :=
  r ← seq 0 (img_shape.1 `div` patch_size);
  c ← seq 0 (img_shape.2 `div` patch_size);
  [ tile_at patch_size r c img ].

(** The pixel at row [y], column [x]. *)
Definition pixel (img : image A) (y x : nat) : option A :=
  row ← img !! y; row !! x.

(** [img] has shape [(h, w)]. *)
Definition has_shape (h w : nat) (img : image A) : Prop :=
  length img = h ∧ Forall (λ row, length row = w) img.
End Image.

(** *** The dictionary of [evaluate_model] *)

Section Metrics.
(** [V] is the type of a metric value.  [get_metrics tname img_id] is the
    dict [get_metrics(img_gt, img_pred, model.metrics)] computed for the
    image [img_id] of the directory [tname]: the prediction of the model,
    the ground truth on disk, [unpad] and [get_metrics] are calls into
    Keras, the file system and modules that are not among the sources, and
    are taken to return. *)
Context {V : Type} (get_metrics : string → string → gmap string V).

(** [f"L8CCA_{metric_name}"] and [f"test_{metric_name}"] *)
Definition metric_key (metric_name : string) : string :=
  "L8CCA_" +:+ metric_name.
Definition test_key (metric_name : string) : string :=
  "test_" +:+ metric_name.

(** [for metric_fn in model.metrics: metrics[f"L8CCA_{metric_name}"] = {}],
    [metric_names] being the names of [model.metrics] in order. *)
Definition init_metrics (metric_names : list string)
    : gmap string (gmap string V) :=
  foldl (λ metrics metric_name, <[metric_key metric_name := ∅]> metrics)
    ∅ metric_names.

(** The loop over [model.metrics] for one image:
    [metrics[f"L8CCA_{metric_name}"][img_id] =
       img_metrics[f"test_{metric_name}"]];
    [None] is the [KeyError] of a missing key. *)
Definition record_metrics (metric_names : list string) (img_id : string)
    (img_metrics : gmap string V) (metrics : gmap string (gmap string V))
    : option (gmap string (gmap string V)) :=
  foldl (λ acc metric_name,
      metrics ← acc;
      value ← img_metrics !! test_key metric_name;
      per_image ← metrics !! metric_key metric_name;
      Some (<[metric_key metric_name := <[img_id := value]> per_image]>
              metrics))
    (Some metrics) metric_names.

(** [evaluate_model]: [listdir] is the directory tree, the names of
    [os.listdir(dpath)] each with the names of [os.listdir(dpath / tname)],
    in the order the two calls list them.  The scene times are only
    printed. *)
Definition evaluate_model (metric_names : list string)
    (listdir : list (string * list string))
    : option (gmap string (gmap string V)) :=
  foldl (λ acc '(tname, img_ids),
      foldl (λ acc img_id,
          metrics ← acc;
          record_metrics metric_names img_id (get_metrics tname img_id)
            metrics)
        acc img_ids)
    (Some (init_metrics metric_names)) listdir.

(** The images in the order they are processed. *)
Definition images (listdir : list (string * list string))
    : list (string * string) :=
  '(tname, img_ids) ← listdir; (λ img_id, (tname, img_id)) <$> img_ids.
End Metrics.

End EvaluateL8CCA.

(** ** cloud_detection/losses.py, as exercised by tests/test_losses.py *)

Module Losses.
Open Scope Q_scope.

(** A tensor of the tests, [K.constant([[[a, b], [c, d]]])]: samples, rows,
    columns. *)
Abbreviation tensor := (list (list (list Q))).

Definition flatten (t : tensor) : list Q := concat (concat t).

(** [K.sum] over all axes. *)
Definition K_sum (l : list Q) : Q := foldr Qplus 0 l.

(** [K.round]: to the nearest integer, halves to the even one. *)
Definition K_round (q : Q) : Q :=
  let f := Qfloor q in
  match (q - inject_Z f) ?= (1 # 2) with
  | Lt => inject_Z f
  | Gt => inject_Z (f + 1)
  | Eq => inject_Z (if Z.even f then f else f + 1)
  end.

Definition threshold (t : tensor) : tensor := map (map (map K_round)) t.

(** [tf.debugging.assert_near(x, y)] with its default tolerances for
    float32, [rtol = atol = 10 * 2^-23]. *)
Definition assert_near (x y : Q) : bool :=
  Qle_bool (Qabs (x - y)) ((10 # 8388608) + (10 # 8388608) * Qabs y).

(** Modelled from the spec: [cloud_detection/losses.py] is not among the
    sources, only its tests are.  Section 4.1: true positives =
    sum(pred·truth), false positives = sum(pred·(1-truth)), false negatives
    = sum((1-pred)·truth), true negatives = sum((1-pred)·(1-truth)). *)
Definition true_positives (y_true y_pred : tensor) : Q :=
  K_sum (zip_with (λ t p, p * t) (flatten y_true) (flatten y_pred)).
(** Modelled from the spec: false positives = sum(pred·(1-truth)). *)
Definition false_positives (y_true y_pred : tensor) : Q :=
  K_sum (zip_with (λ t p, p * (1 - t)) (flatten y_true) (flatten y_pred)).
(** Modelled from the spec: false negatives = sum((1-pred)·truth). *)
Definition false_negatives (y_true y_pred : tensor) : Q :=
  K_sum (zip_with (λ t p, (1 - p) * t) (flatten y_true) (flatten y_pred)).
(** Modelled from the spec: true negatives = sum((1-pred)·(1-truth)). *)
Definition true_negatives (y_true y_pred : tensor) : Q :=
  K_sum (zip_with (λ t p, (1 - p) * (1 - t)) (flatten y_true) (flatten y_pred)).

(** Modelled from the spec: the zero-division policy of section 4.1, a
    quotient with denominator zero is the defined value 0. *)
Definition ratio (n d : Q) : Q := if Qeq_bool d 0 then 0 else n / d.

(** Modelled from the spec: Jaccard index = TP / (TP+FP+FN), on the
    predictions as they are given (no thresholding). *)
Definition jaccard_index (y_true y_pred : tensor) : Q :=
  let tp := true_positives y_true y_pred in
  ratio tp (tp + false_positives y_true y_pred + false_negatives y_true y_pred).

(** Modelled from the spec: Dice coefficient = 2·TP / (2·TP+FP+FN). *)
Definition dice_coefficient (y_true y_pred : tensor) : Q :=
  let tp := true_positives y_true y_pred in
  ratio (2 * tp)
    (2 * tp + false_positives y_true y_pred + false_negatives y_true y_pred).

(** Modelled from the spec: [JaccardIndexLoss] of losses.py, Jaccard loss =
    1 − Jaccard index. *)
Definition JaccardIndexLoss (y_true y_pred : tensor) : Q :=
  1 - jaccard_index y_true y_pred.

(** Modelled from the spec: [JaccardIndexMetric] of losses.py, the Jaccard
    index of section 4.1; the fixtures of [TestJaccardIndexMetric] ask for
    it on the rounded prediction. *)
Definition JaccardIndexMetric (y_true y_pred : tensor) : Q :=
  jaccard_index y_true (threshold y_pred).

(** Modelled from the spec: [DiceCoefMetric] of losses.py, the Dice
    coefficient of section 4.1 on the rounded prediction. *)
Definition DiceCoefMetric (y_true y_pred : tensor) : Q :=
  dice_coefficient y_true (threshold y_pred).

(** Modelled from the spec: [recall] of losses.py, TP/(TP+FN) on the
    rounded prediction. *)
Definition recall (y_true y_pred : tensor) : Q :=
  let tp := true_positives y_true (threshold y_pred) in
  ratio tp (tp + false_negatives y_true (threshold y_pred)).

(** Modelled from the spec: [precision] of losses.py, TP/(TP+FP) on the
    rounded prediction. *)
Definition precision (y_true y_pred : tensor) : Q :=
  let tp := true_positives y_true (threshold y_pred) in
  ratio tp (tp + false_positives y_true (threshold y_pred)).

(** Modelled from the spec: [specificity] of losses.py, TN/(TN+FP) on the
    rounded prediction. *)
Definition specificity (y_true y_pred : tensor) : Q :=
  let tn := true_negatives y_true (threshold y_pred) in
  ratio tn (tn + false_positives y_true (threshold y_pred)).

(** Modelled from the spec: [f1_score] of losses.py, the harmonic mean of
    precision and recall. *)
Definition f1_score (y_true y_pred : tensor) : Q :=
  let p := precision y_true y_pred in
  let r := recall y_true y_pred in
  ratio (2 * (p * r)) (p + r).

(** *** The parametrized fixtures of tests/test_losses.py:
    [(y_true, y_pred, expected)]. *)
Definition fixture : Type := tensor * tensor * Q.

Definition ones : tensor := [[[1; 1]; [1; 1]]].

Definition test_jaccard_index_loss : list fixture :=
  [ ([[[1; 1]; [1; 1]]], ones, 0);
    ([[[0; 1]; [1; 1]]], ones, 25 # 100);
    ([[[0; 1]; [0; 1]]], ones, 5 # 10);
    ([[[0; 0]; [0; 1]]], ones, 75 # 100);
    ([[[0; 0]; [0; 0]]], ones, 1);
    ([[[1; 1]; [0; 0]]], [[[25 # 100; 25 # 100]; [0; 0]]], 75 # 100);
    ([[[1; 1]; [0; 0]]], [[[75 # 100; 75 # 100]; [0; 0]]], 25 # 100) ].

Definition test_jaccard_index_metric : list fixture :=
  [ ([[[1; 1]; [1; 1]]], ones, 1);
    ([[[0; 1]; [1; 1]]], ones, 75 # 100);
    ([[[0; 1]; [0; 1]]], ones, 5 # 10);
    ([[[0; 0]; [0; 1]]], ones, 25 # 100);
    ([[[0; 0]; [0; 0]]], ones, 0);
    ([[[1; 1]; [0; 0]]], [[[25 # 100; 25 # 100]; [0; 0]]], 0);
    ([[[1; 1]; [0; 0]]], [[[75 # 100; 75 # 100]; [0; 0]]], 1) ].

Definition test_dice_coef_metric : list fixture :=
  [ ([[[1; 1]; [1; 1]]], ones, 1);
    ([[[0; 1]; [1; 1]]], ones, 85714286 # 100000000);
    ([[[0; 1]; [0; 1]]], ones, 66666666 # 100000000);
    ([[[0; 0]; [0; 1]]], ones, 4 # 10);
    ([[[0; 0]; [0; 0]]], ones, 0);
    ([[[1; 1]; [0; 0]]], [[[25 # 100; 25 # 100]; [0; 0]]], 0);
    ([[[1; 1]; [0; 0]]], [[[75 # 100; 75 # 100]; [0; 0]]], 1) ].

Definition test_recall : list fixture :=
  [ ([[[1; 1]; [1; 1]]], ones, 1);
    ([[[0; 1]; [1; 1]]], ones, 1);
    ([[[0; 1]; [0; 1]]], ones, 1);
    ([[[0; 0]; [0; 1]]], ones, 1);
    ([[[0; 0]; [0; 0]]], ones, 0);
    ([[[1; 1]; [0; 0]]], [[[25 # 100; 25 # 100]; [0; 0]]], 0);
    ([[[1; 1]; [0; 0]]], [[[75 # 100; 75 # 100]; [0; 0]]], 1) ].

Definition test_precision : list fixture :=
  [ ([[[1; 1]; [1; 1]]], ones, 1);
    ([[[0; 1]; [1; 1]]], ones, 75 # 100);
    ([[[0; 1]; [0; 1]]], ones, 5 # 10);
    ([[[0; 0]; [0; 1]]], ones, 25 # 100);
    ([[[0; 0]; [0; 0]]], ones, 0);
    ([[[1; 1]; [0; 0]]], [[[25 # 100; 25 # 100]; [0; 0]]], 0);
    ([[[1; 1]; [0; 0]]], [[[75 # 100; 75 # 100]; [0; 0]]], 1) ].

Definition test_specificity : list fixture :=
  [ ([[[1; 1]; [1; 1]]], ones, 0);
    ([[[0; 1]; [1; 1]]], ones, 0);
    ([[[0; 1]; [0; 1]]], ones, 0);
    ([[[0; 0]; [0; 1]]], ones, 0);
    ([[[0; 0]; [0; 0]]], ones, 0);
    ([[[1; 1]; [0; 0]]], [[[25 # 100; 25 # 100]; [0; 0]]], 1);
    ([[[1; 1]; [0; 0]]], [[[75 # 100; 75 # 100]; [0; 0]]], 1) ].

Definition test_f1_score : list fixture :=
  [ ([[[1; 1]; [1; 1]]], ones, 1);
    ([[[0; 1]; [1; 1]]], ones, 85714286 # 100000000);
    ([[[0; 1]; [0; 1]]], ones, 66666666 # 100000000);
    ([[[0; 0]; [0; 1]]], ones, 4 # 10);
    ([[[0; 0]; [0; 0]]], ones, 0);
    ([[[1; 1]; [0; 0]]], [[[25 # 100; 25 # 100]; [0; 0]]], 0);
    ([[[1; 1]; [0; 0]]], [[[75 # 100; 75 # 100]; [0; 0]]], 1) ].

(** The body of each test: [assert_near(metric(y_true, y_pred), expected)]
    on every fixture. *)
Definition passes (metric : tensor → tensor → Q) (fixtures : list fixture)
    : bool :=
  forallb (λ '(y_true, y_pred, expected),
             assert_near (metric y_true y_pred) expected) fixtures.

(** The number of pixels whose ground truth and prediction satisfy [P]. *)
Definition count_pixels (P : Q → Q → bool) (y_true y_pred : tensor) : Z :=
  Z.of_nat (length (filter (λ '(t, p), P t p = true)
                      (zip (flatten y_true) (flatten y_pred)))).

(** A prediction counts as positive above one half. *)
Definition positive (p : Q) : bool := negb (Qle_bool p (1 # 2)).

Definition is_tp (t p : Q) : bool := Qeq_bool t 1 && positive p.
Definition is_fp (t p : Q) : bool := Qeq_bool t 0 && positive p.
Definition is_fn (t p : Q) : bool := Qeq_bool t 1 && negb (positive p).

(** Masks: ground truth in {0, 1}, prediction in [0, 1]. *)
Definition binary_mask (t : tensor) : Prop :=
  Forall (λ x, x == 0 ∨ x == 1) (flatten t).
Definition unit_mask (t : tensor) : Prop :=
  Forall (λ x, 0 <= x ∧ x <= 1) (flatten t).
Definition zero_mask (t : tensor) : Prop :=
  Forall (λ x, x == 0) (flatten t).

End Losses.

(** ** Small inputs on which the definitions are run *)

Module Examples.
Import NumPy Utils EvaluateL8CCA.

(** A store with one array of five samples and one vector of five labels.
    With [mt19937], the seed-0 shuffle of five entries reads positions
    2, 0, 1, 3, 4 ([np.random.RandomState(0).permutation(5)]). *)
Definition five_samples : @heap nat :=
  Heap (λ _, [10; 11; 12; 13; 14]) (λ _, [0; 1; 0; 1; 1]%Z).

(** A store whose sample array and label vector both have three entries,
    and one where they differ in length. *)
Definition three_and_three : @heap nat :=
  Heap (λ _, [7; 8; 9]) (λ _, [0; 1; 0]%Z).

Definition three_and_two : @heap nat :=
  Heap (λ _, [7; 8; 9]) (λ _, [0; 1]%Z).

(** Three samples 1, 2, 3 paired with the values 10, 20, 30. *)
Definition paired : @heap nat :=
  Heap (λ _, [1; 2; 3]) (λ _, [10; 20; 30]%Z).

(** A 4 × 4 image, to be cut into 2 × 2 patches. *)
Definition four_by_four : image nat :=
  [[1; 2; 3; 4]; [5; 6; 7; 8]; [9; 10; 11; 12]; [13; 14; 15; 16]].

(** The store [paired], with other arrays at the other addresses. *)
(** The floats [0.7], [0.58], [1/3] and [0.1]: [(0.7).as_integer_ratio()]
    and so on. *)
Definition float_0_7 : Q := 3152519739159347 # 4503599627370496.
Definition float_0_58 : Q := 5224175567749775 # 9007199254740992.
Definition float_1_3 : Q := 6004799503160661 # 18014398509481984.
Definition float_0_1 : Q := 3602879701896397 # 36028797018963968.

Definition paired_elsewhere : @heap nat :=
  Heap (λ l, if decide (l = 0) then [1; 2; 3] else [4])
    (λ l, if decide (l = 0) then [10; 20; 30]%Z else []).

(** A patch that is too large for 2 × 2 tiles. *)
Definition three_by_three : image nat := [[1; 2; 3]; [4; 5; 6]; [7; 8; 9]].

(** Two directories of scenes, the scene [LC81] in both, and metrics that
    tell the directory and the scene they were computed for. *)
Definition two_biomes : list (string * list string) :=
  [("Barren", ["LC81"; "LC82"]); ("Forest", ["LC81"])].

Definition scene_metrics (tname img_id : string) : gmap string nat :=
  {[ "test_jaccard_index_metric" := String.length tname;
     "test_recall" := String.length img_id ]}.

End Examples.

(** * Properties *)

(** ** The shuffle of [RandomState] *)

Module NumPyFacts.
Import NumPy.

Section Swap.
Context {A : Type}.
Implicit Types x : list A.

Lemma length_swap i j x : length (swap i j x) = length x.
Proof.
  unfold swap. destruct (x !! i), (x !! j); trivial.
  by rewrite !length_insert.
Qed.

Lemma lookup_swap i j x k :
  i < length x → j < length x →
  swap i j x !! k =
    if decide (k = j) then x !! i
    else if decide (k = i) then x !! j else x !! k.
Proof.
  intros Hi Hj. unfold swap.
  destruct (lookup_lt_is_Some_2 x i Hi) as [xi Hxi].
  destruct (lookup_lt_is_Some_2 x j Hj) as [xj Hxj].
  rewrite Hxi, Hxj.
  destruct (decide (k = j)) as [->|Hkj].
  - rewrite list_lookup_insert_eq; [done | by rewrite length_insert].
  - rewrite list_lookup_insert_ne by done.
    destruct (decide (k = i)) as [->|Hki].
    + by rewrite list_lookup_insert_eq.
    + by rewrite list_lookup_insert_ne.
Qed.

Lemma swap_out_of_range i j x :
  length x ≤ i ∨ length x ≤ j → swap i j x = x.
Proof.
  intros Hij. unfold swap.
  destruct (x !! i) eqn:Hi; [|done].
  destruct (x !! j) eqn:Hj; [|done].
  apply lookup_lt_Some in Hi, Hj. lia.
Qed.

Lemma swap_swap i j x : swap i j (swap i j x) = x.
Proof.
  destruct (decide (i < length x ∧ j < length x)) as [[Hi Hj]|Hout].
  - apply list_eq; intros k.
    rewrite lookup_swap by (by rewrite length_swap).
    rewrite !lookup_swap by done.
    repeat case_decide; by simplify_eq.
  - assert (swap i j x = x) as Hx by (apply swap_out_of_range; lia).
    by rewrite !Hx.
Qed.

Lemma swap_Permutation i j x : swap i j x ≡ₚ x.
Proof.
  destruct (decide (i < length x ∧ j < length x)) as [[Hi Hj]|Hout].
  - apply Permutation_inj. split; [apply length_swap|].
    exists (λ k, if decide (k = j) then i else if decide (k = i) then j else k).
    split.
    + intros k1 k2 Hk. repeat case_decide; by simplify_eq.
    + intros k. rewrite lookup_swap by done. by repeat case_decide.
  - rewrite swap_out_of_range; [done | lia].
Qed.
End Swap.

Lemma swap_fmap {A B} (f : A → B) i j (x : list A) :
  swap i j (f <$> x) = f <$> swap i j x.
Proof.
  unfold swap. rewrite !list_lookup_fmap.
  destruct (x !! i), (x !! j); simpl; trivial.
  by rewrite !list_fmap_insert.
Qed.

Section ShuffleFacts.
Context `{BitGenerator}.

Lemma length_shuffle_loop {A} i st (x : list A) :
  length (shuffle_loop i st x) = length x.
Proof.
  revert st x. induction i as [|i IH]; intros st x; simpl; [done|].
  destruct (random_interval st (S i)) as [j st'].
  by rewrite IH, length_swap.
Qed.

Lemma length_shuffle {A} st (x : list A) : length (shuffle st x) = length x.
Proof. apply length_shuffle_loop. Qed.

Lemma shuffle_loop_Permutation {A} i st (x : list A) :
  shuffle_loop i st x ≡ₚ x.
Proof.
  revert st x. induction i as [|i IH]; intros st x; simpl; [done|].
  destruct (random_interval st (S i)) as [j st'].
  by rewrite IH, swap_Permutation.
Qed.

Lemma shuffle_Permutation {A} st (x : list A) : shuffle st x ≡ₚ x.
Proof. apply shuffle_loop_Permutation. Qed.

(** The swaps do not look at the entries: shuffling commutes with
    any entry-wise map. *)
Lemma shuffle_loop_fmap {A B} (f : A → B) i st (x : list A) :
  shuffle_loop i st (f <$> x) = f <$> shuffle_loop i st x.
Proof.
  revert st x. induction i as [|i IH]; intros st x; simpl; [done|].
  destruct (random_interval st (S i)) as [j st'].
  by rewrite swap_fmap, IH.
Qed.

Lemma shuffle_fmap {A B} (f : A → B) st (x : list A) :
  shuffle st (f <$> x) = f <$> shuffle st x.
Proof. unfold shuffle. by rewrite length_fmap, shuffle_loop_fmap. Qed.

Lemma fmap_lookup_seq {A} (x : list A) :
  (λ k, x !! k) <$> seq 0 (length x) = Some <$> x.
Proof.
  apply list_eq; intros i. rewrite !list_lookup_fmap.
  destruct (decide (i < length x)) as [Hi|Hi].
  - rewrite lookup_seq_lt by done. simpl.
    by destruct (lookup_lt_is_Some_2 x i Hi) as [a ->].
  - rewrite lookup_seq_ge, lookup_ge_None_2 by lia. done.
Qed.

Lemma omap_fmap_Some {A B} (g : A → option B) (p : list A) (y : list B) :
  g <$> p = Some <$> y → omap g p = y.
Proof.
  revert y. induction p as [|a p IH]; intros [|b y] Heq; try done.
  rewrite !fmap_cons in Heq. injection Heq as Ha Hp.
  simpl. rewrite Ha. f_equal. by apply IH.
Qed.

(** [shuffle] moves entry [p[i]] of the input to position [i], for
    the index list [p = shuffle_permutation] that depends on the generator
    state and the length only. *)
Lemma shuffle_permute_state {A} st (x : list A) :
  shuffle st x = permute (shuffle st (seq 0 (length x))) x.
Proof.
  symmetry. apply omap_fmap_Some.
  rewrite <-shuffle_fmap, fmap_lookup_seq, shuffle_fmap. done.
Qed.

Lemma shuffle_permute {A} seed (x : list A) :
  shuffle (RandomState seed) x = permute (shuffle_permutation seed (length x)) x.
Proof. apply shuffle_permute_state. Qed.

Lemma shuffle_permutation_Permutation seed n :
  shuffle_permutation seed n ≡ₚ seq 0 n.
Proof. apply shuffle_Permutation. Qed.

Lemma length_unshuffle_loop {A} i st (x : list A) :
  length (unshuffle_loop i st x) = length x.
Proof.
  revert st. induction i as [|i IH]; intros st; simpl; [done|].
  destruct (random_interval st (S i)) as [j st'].
  by rewrite length_swap, IH.
Qed.

Lemma shuffle_loop_unshuffle_loop {A} i st (x : list A) :
  shuffle_loop i st (unshuffle_loop i st x) = x.
Proof.
  revert st. induction i as [|i IH]; intros st; simpl; [done|].
  destruct (random_interval st (S i)) as [j st'].
  by rewrite swap_swap, IH.
Qed.

Lemma shuffle_surjective {A} st (y : list A) :
  ∃ x, x ≡ₚ y ∧ shuffle st x = y.
Proof.
  exists (unshuffle_loop (length y - 1) st y). split.
  - clear. generalize (length y - 1) as i. intros i. revert st.
    induction i as [|i IH]; intros st; simpl; [done|].
    destruct (random_interval st (S i)) as [j st'].
    by rewrite swap_Permutation.
  - unfold shuffle. rewrite length_unshuffle_loop.
    apply shuffle_loop_unshuffle_loop.
Qed.
End ShuffleFacts.

(** The model of the generator reproduces outputs of NumPy: the first word
    after [seed(0)], and [np.random.RandomState(seed).permutation(n)] for
    seeds 0 and 42. *)
Lemma mt19937_known_outputs :
  (next_uint32 (mt19937_seed 0)).1 = 2357136044%Z ∧
  @shuffle_permutation mt19937 0 5 = [2; 0; 1; 3; 4] ∧
  @shuffle_permutation mt19937 0 10 = [2; 8; 4; 9; 1; 6; 7; 3; 0; 5] ∧
  @shuffle_permutation mt19937 42 10 = [8; 1; 5; 0; 7; 2; 9; 4; 3; 6].
Proof. repeat split; by vm_compute. Qed.

End NumPyFacts.

(** ** Python floats: rounding to binary64 *)

Module FloatFacts.
Import NumPy.

Lemma pow2_pos (e : Z) : (0 < 2 ^ e)%Q.
Proof. by apply Qpower_0_lt. Qed.

Lemma pow2_inject (e : Z) : (0 ≤ e)%Z → (2 ^ e == inject_Z (2 ^ e))%Q.
Proof. intros He. by rewrite Zpower_Qpower. Qed.

Lemma pow2_le (m n : Z) : (m ≤ n)%Z → (2 ^ m <= 2 ^ n)%Q.
Proof. intros. by apply Qpower_le_compat_l. Qed.

Lemma pow2_lt_inv (m n : Z) : (2 ^ m < 2 ^ n)%Q → (m < n)%Z.
Proof. intros. by apply (Qpower_lt_compat_l_inv 2). Qed.

Lemma pow2_add (m n : Z) : (2 ^ (m + n) == 2 ^ m * 2 ^ n)%Q.
Proof. by apply Qpower_plus. Qed.

Lemma pow2_ratio (m n : Z) :
  (0 ≤ m)%Z → (0 ≤ n)%Z → (2 ^ (m - n) == 2 ^ m # Z.to_pos (2 ^ n))%Q.
Proof.
  intros Hm Hn. rewrite Qpower_minus by done.
  rewrite (pow2_inject m Hm), (pow2_inject n Hn), Qmake_Qdiv.
  rewrite Z2Pos.id; [reflexivity|]. by apply Z.pow_pos_nonneg.
Qed.

Lemma binade_spec (x : Q) :
  (0 < x)%Q → (2 ^ binade x <= x)%Q ∧ (x < 2 ^ (binade x + 1))%Q.
Proof.
  intros Hx. destruct x as [a b]. unfold binade. cbn [Qnum Qden].
  assert (0 < a)%Z as Ha by (unfold Qlt in Hx; simpl in Hx; lia).
  pose proof (Z.log2_spec a Ha) as [Ha1 Ha2].
  pose proof (Z.log2_spec (Z.pos b) ltac:(lia)) as [Hb1 Hb2].
  pose proof (Z.log2_nonneg a) as Hla.
  pose proof (Z.log2_nonneg (Z.pos b)) as Hlb.
  set (la := Z.log2 a) in *. set (lb := Z.log2 (Z.pos b)) in *.
  assert (0 < 2 ^ la)%Z as Hpa by (by apply Z.pow_pos_nonneg).
  assert (0 < 2 ^ lb)%Z as Hpb by (by apply Z.pow_pos_nonneg).
  assert (2 ^ (la - lb - 1) <= a # b)%Q as Hlow.
  { replace (la - lb - 1)%Z with (la - (lb + 1))%Z by lia.
    rewrite pow2_ratio by lia. unfold Qle. cbn [Qnum Qden].
    rewrite Z2Pos.id by (apply Z.pow_pos_nonneg; lia).
    replace (lb + 1)%Z with (Z.succ lb) in * by lia. nia. }
  assert (a # b < 2 ^ (la - lb + 1))%Q as Hhigh.
  { replace (la - lb + 1)%Z with (la + 1 - lb)%Z by lia.
    rewrite pow2_ratio by lia. unfold Qlt. cbn [Qnum Qden].
    rewrite Z2Pos.id by done.
    replace (la + 1)%Z with (Z.succ la) in * by lia. nia. }
  destruct (Qle_bool (2 ^ (la - lb)) (a # b)) eqn:Hle.
  - apply Qle_bool_iff in Hle. by split.
  - split; [done|]. replace (la - lb - 1 + 1)%Z with (la - lb)%Z by lia.
    apply Qnot_le_lt. intros Hge. apply Qle_bool_iff in Hge. congruence.
Qed.

Lemma binade_mono (x y : Q) :
  (0 < x)%Q → (x <= y)%Q → (binade x ≤ binade y)%Z.
Proof.
  intros Hx Hxy.
  destruct (binade_spec x Hx) as [Hx1 _].
  destruct (binade_spec y ltac:(lra)) as [_ Hy2].
  assert (binade x < binade y + 1)%Z; [|lia].
  apply pow2_lt_inv. lra.
Qed.

Lemma round_half_even_floor (x : Q) :
  (Qfloor x ≤ round_half_even x ≤ Qfloor x + 1)%Z.
Proof.
  unfold round_half_even.
  destruct (x - inject_Z (Qfloor x) ?= 1 # 2)%Q; [|lia..].
  destruct (Z.even (Qfloor x)); lia.
Qed.

Lemma round_half_even_mono (x y : Q) :
  (x <= y)%Q → (round_half_even x ≤ round_half_even y)%Z.
Proof.
  intros Hxy. pose proof (Qfloor_resp_le x y Hxy) as Hf.
  pose proof (round_half_even_floor x). pose proof (round_half_even_floor y).
  destruct (decide (Qfloor x = Qfloor y)) as [Heq|]; [|lia].
  unfold round_half_even. rewrite <-Heq.
  destruct (Qcompare_spec (x - inject_Z (Qfloor x)) (1 # 2)),
    (Qcompare_spec (y - inject_Z (Qfloor x)) (1 # 2));
    try destruct (Z.even (Qfloor x)); try lia; lra.
Qed.

Lemma round_half_even_Z (k : Z) : round_half_even (inject_Z k) = k.
Proof.
  unfold round_half_even. rewrite Qfloor_Z.
  destruct (Qcompare_spec (inject_Z k - inject_Z k) (1 # 2)); [lra|done|lra].
Qed.

Lemma round_half_even_ge (k : Z) (x : Q) :
  (inject_Z k <= x)%Q → (k ≤ round_half_even x)%Z.
Proof.
  intros Hx. rewrite <-(round_half_even_Z k). by apply round_half_even_mono.
Qed.

Lemma round_half_even_le (k : Z) (x : Q) :
  (x <= inject_Z k)%Q → (round_half_even x ≤ k)%Z.
Proof.
  intros Hx. rewrite <-(round_half_even_Z k). by apply round_half_even_mono.
Qed.

Lemma ulp_pos (x : Q) : (0 < ulp x)%Q.
Proof. apply pow2_pos. Qed.

(** Rounding on the grid of step [2^k] does not cross the grid point
    [2^(k+j)]. *)
Lemma round_grid_le (k j : Z) (x : Q) :
  (0 ≤ j)%Z → (x <= 2 ^ (k + j))%Q →
  (inject_Z (round_half_even (x / 2 ^ k)) * 2 ^ k <= 2 ^ (k + j))%Q.
Proof.
  intros Hj Hx. pose proof (pow2_pos k) as Hk.
  rewrite (pow2_add k j), (pow2_inject j Hj) in Hx |- *.
  rewrite (Qmult_comm (2 ^ k)). apply Qmult_le_compat_r; [|lra].
  rewrite <-Zle_Qle. apply round_half_even_le.
  apply Qle_shift_div_r; [done|]. lra.
Qed.

Lemma round_grid_ge (k j : Z) (x : Q) :
  (0 ≤ j)%Z → (2 ^ (k + j) <= x)%Q →
  (2 ^ (k + j) <= inject_Z (round_half_even (x / 2 ^ k)) * 2 ^ k)%Q.
Proof.
  intros Hj Hx. pose proof (pow2_pos k) as Hk.
  rewrite (pow2_add k j), (pow2_inject j Hj) in Hx |- *.
  rewrite (Qmult_comm (2 ^ k)). apply Qmult_le_compat_r; [|lra].
  rewrite <-Zle_Qle. apply round_half_even_ge.
  apply Qle_shift_div_l; [done|]. lra.
Qed.

Lemma Qabs_nonneg_eq (x : Q) : (0 <= x)%Q → Qabs x = x.
Proof.
  destruct x as [a b]. unfold Qle. cbn [Qnum Qden Qabs]. intros Ha.
  f_equal. lia.
Qed.

Lemma binary64_nonneg (x : Q) : (0 <= x)%Q → (0 <= binary64 x)%Q.
Proof.
  intros Hx. unfold binary64. pose proof (ulp_pos x) as Hu.
  apply Qmult_le_0_compat; [|lra].
  change 0%Q with (inject_Z 0). rewrite <-Zle_Qle.
  apply round_half_even_ge. change (inject_Z 0) with 0%Q.
  apply Qle_shift_div_l; [done|]. lra.
Qed.

Lemma binary64_mono (x y : Q) :
  (0 <= x)%Q → (x <= y)%Q → (binary64 x <= binary64 y)%Q.
Proof.
  intros Hx Hxy. destruct (Qlt_le_dec 0 x) as [Hpos|Hzero].
  - unfold binary64, ulp.
    rewrite (Qabs_nonneg_eq x), (Qabs_nonneg_eq y) by lra.
    destruct (binade_spec x Hpos) as [Hx1 Hx2].
    destruct (binade_spec y ltac:(lra)) as [Hy1 Hy2].
    pose proof (binade_mono x y Hpos Hxy) as Hb.
    set (cx := Z.max (binade x) (-1022)). set (cy := Z.max (binade y) (-1022)).
    destruct (decide (cx = cy)) as [Heq|Hne].
    + rewrite Heq. pose proof (pow2_pos (cy - 52)) as Hu.
      apply Qmult_le_compat_r; [|lra].
      rewrite <-Zle_Qle. apply round_half_even_mono.
      apply Qmult_le_compat_r; [done|]. apply Qlt_le_weak, Qinv_lt_0_compat, Hu.
    + assert (cx < cy)%Z as Hlt by lia.
      assert (cy = binade y) as Hcy by lia.
      apply Qle_trans with (2 ^ (cx - 52 + 53))%Q.
      { apply round_grid_le; [lia|].
        apply Qle_trans with (2 ^ (binade x + 1))%Q; [lra|].
        apply pow2_le. lia. }
      apply Qle_trans with (2 ^ (cy - 52 + 52))%Q; [apply pow2_le; lia|].
      apply round_grid_ge; [lia|].
      replace (cy - 52 + 52)%Z with (binade y) by lia. done.
  - apply Qle_trans with 0%Q; [|apply binary64_nonneg; lra].
    unfold binary64. pose proof (ulp_pos x) as Hu.
    assert (round_half_even (x / ulp x) ≤ 0)%Z as Hr.
    { apply round_half_even_le. change (inject_Z 0) with 0%Q.
      apply Qle_shift_div_r; [done|]. lra. }
    rewrite Zle_Qle in Hr. change (inject_Z 0) with 0%Q in Hr. nra.
Qed.

Lemma binade_small (x : Q) :
  (0 <= x)%Q → (x < inject_Z (2 ^ 53))%Q → (binade x ≤ 52)%Z.
Proof.
  intros Hx Hlt. destruct (Qlt_le_dec 0 x) as [Hpos|Hzero].
  - destruct (binade_spec x Hpos) as [Hx1 _].
    assert (binade x < 53)%Z; [|lia].
    apply pow2_lt_inv. rewrite (pow2_inject 53) by lia. lra.
  - destruct x as [a b]. unfold Qle in Hx, Hzero. cbn [Qnum Qden] in *.
    assert (a = 0%Z) as -> by lia. unfold binade. cbn [Qnum Qden].
    pose proof (Z.log2_nonneg (Z.pos b)).
    change (Z.log2 0) with 0%Z.
    destruct (Qle_bool _ _); lia.
Qed.

(** Below [2^53] the integers are binary64 values: rounding does not cross
    them. *)
Lemma binary64_between (lo hi : Z) (x : Q) :
  (0 <= x)%Q → (x < inject_Z (2 ^ 53))%Q →
  (inject_Z lo <= x)%Q → (x <= inject_Z hi)%Q →
  (inject_Z lo <= binary64 x)%Q ∧ (binary64 x <= inject_Z hi)%Q.
Proof.
  intros Hx Hlt Hlo Hhi. unfold binary64, ulp.
  rewrite (Qabs_nonneg_eq x Hx).
  pose proof (binade_small x Hx Hlt) as Hb.
  set (k := (Z.max (binade x) (-1022) - 52)%Z).
  assert (k ≤ 0)%Z as Hk by lia.
  pose proof (pow2_pos k) as Hu.
  assert (2 ^ k * inject_Z (2 ^ (- k)) == 1)%Q as Hinv.
  { rewrite <-(pow2_inject (- k)) by lia. rewrite <-pow2_add.
    by replace (k + - k)%Z with 0%Z by lia. }
  set (J := (2 ^ (- k))%Z) in *.
  assert (inject_Z (lo * J) <= x / 2 ^ k)%Q as Hlo'.
  { apply Qle_shift_div_l; [done|]. rewrite inject_Z_mult. nra. }
  assert (x / 2 ^ k <= inject_Z (hi * J))%Q as Hhi'.
  { apply Qle_shift_div_r; [done|]. rewrite inject_Z_mult. nra. }
  apply round_half_even_ge in Hlo'. apply round_half_even_le in Hhi'.
  rewrite Zle_Qle, inject_Z_mult in Hlo', Hhi'.
  split; nra.
Qed.

Lemma int_nonneg (x : Q) : (0 <= x)%Q → int x = Qfloor x.
Proof.
  intros Hx. unfold int. apply Qle_bool_iff in Hx. by rewrite Hx.
Qed.

Lemma round_half_even_below (m : Z) (y : Q) :
  (y < inject_Z m - (1 # 2))%Q → (round_half_even y ≤ m - 1)%Z.
Proof.
  intros Hy. pose proof (Qfloor_le y) as Hf.
  assert (Qfloor y < m)%Z as Hfm by (rewrite Zlt_Qlt; lra).
  destruct (decide (Qfloor y = m - 1)%Z) as [Heq|Hne].
  - unfold round_half_even.
    destruct (Qcompare_spec (y - inject_Z (Qfloor y)) (1 # 2)) as [He|Hl|Hg];
      [| lia |].
    + rewrite Heq in He. unfold Z.sub in He. rewrite inject_Z_plus in He.
      change (inject_Z (- (1))) with (- (1))%Q in He. lra.
    + rewrite Heq in Hg. unfold Z.sub in Hg. rewrite inject_Z_plus in Hg.
      change (inject_Z (- (1))) with (- (1))%Q in Hg. lra.
  - pose proof (round_half_even_floor y). lia.
Qed.

Lemma binary64_nonpos (x : Q) : (x <= 0)%Q → (binary64 x <= 0)%Q.
Proof.
  intros Hx. unfold binary64. pose proof (ulp_pos x) as Hu.
  assert (round_half_even (x / ulp x) ≤ 0)%Z as Hr.
  { apply round_half_even_le. change (inject_Z 0) with 0%Q.
    apply Qle_shift_div_r; [done|]. lra. }
  rewrite Zle_Qle in Hr. change (inject_Z 0) with 0%Q in Hr. nra.
Qed.

(** A product of an integer below [2^53] with a float below one is rounded
    to a float below the integer. *)
Lemma binary64_below (n : Z) (x : Q) :
  (1 ≤ n < 2 ^ 53)%Z →
  (x <= inject_Z n * (1 - 2 ^ (-53)))%Q →
  (binary64 x < inject_Z n)%Q.
Proof.
  intros Hn Hx.
  assert (2 ^ (-53) == 1 # 9007199254740992)%Q as H53 by reflexivity.
  rewrite H53 in Hx.
  assert (0 < inject_Z n)%Q as Hn0.
  { change 0%Q with (inject_Z 0). rewrite <-Zlt_Qlt. lia. }
  assert (x < inject_Z n)%Q as Hxn by nra.
  destruct (Qlt_le_dec 0 x) as [Hpos|Hzero].
  2: { pose proof (binary64_nonpos x Hzero). lra. }
  pose proof (Z.log2_spec n ltac:(lia)) as [He1 He2].
  pose proof (Z.log2_nonneg n) as He0.
  set (e := Z.log2 n) in *.
  assert (e < 53)%Z as He53.
  { apply (Z.pow_lt_mono_r_iff 2); lia. }
  assert (2 ^ e <= inject_Z n)%Q as Hne1.
  { rewrite (pow2_inject e He0), <-Zle_Qle. done. }
  destruct (binade_spec x Hpos) as [Hb1 Hb2].
  assert (binade x ≤ e)%Z as Hbe.
  { assert (binade x < e + 1)%Z; [|lia]. apply pow2_lt_inv.
    apply Qle_lt_trans with x; [done|]. apply Qlt_trans with (inject_Z n); [done|].
    rewrite (pow2_inject (e + 1)) by lia. rewrite <-Zlt_Qlt.
    by replace (e + 1)%Z with (Z.succ e) by lia. }
  unfold binary64, ulp. rewrite (Qabs_nonneg_eq x) by lra.
  set (c := Z.max (binade x) (-1022)).
  assert (x <= 2 ^ (c + 1))%Q as Hxc.
  { apply Qle_trans with (2 ^ (binade x + 1))%Q; [lra|]. apply pow2_le. lia. }
  pose proof (pow2_pos (c - 52)) as Hu.
  pose proof (pow2_pos e) as HE.
  assert (∀ d, (d ≤ e)%Z →
    (inject_Z (round_half_even (x / 2 ^ (c - 52))) * 2 ^ (c - 52) <= 2 ^ d)%Q
    → (d < e)%Z ∨ (2 ^ e < n)%Z → 
    (inject_Z (round_half_even (x / 2 ^ (c - 52))) * 2 ^ (c - 52) < inject_Z n)%Q)
    as Hdone.
  { intros d Hd Hle [Hlt|Hlt].
    - eapply Qle_lt_trans; [exact Hle|]. eapply Qlt_le_trans; [|exact Hne1].
      by apply Qpower_lt_compat_l.
    - eapply Qle_lt_trans; [exact Hle|].
      apply Qle_lt_trans with (2 ^ e)%Q; [by apply pow2_le|].
      rewrite (pow2_inject e He0), <-Zlt_Qlt. done. }
  assert (∀ d, (c + 1 ≤ d)%Z →
    (inject_Z (round_half_even (x / 2 ^ (c - 52))) * 2 ^ (c - 52) <= 2 ^ d)%Q)
    as Hgrid.
  { intros d Hd.
    pose proof (round_grid_le (c - 52) (d - (c - 52)) x ltac:(lia)) as Hg.
    replace (c - 52 + (d - (c - 52)))%Z with d in Hg by lia. apply Hg.
    apply Qle_trans with (2 ^ (c + 1))%Q; [done|]. by apply pow2_le. }
  assert (2 ^ (c - 52) == 2 ^ (c + 1) * (1 # 9007199254740992))%Q as Hu2.
  { rewrite <-H53, <-pow2_add. by replace (c + 1 + -53)%Z with (c - 52)%Z by lia. }
  set (U := (2 ^ (c - 52))%Q) in *.
  destruct (decide (c = e)) as [Hce|Hce].
  - (* [x] lies in the binade of [n] *)
    assert (binade x = e) as Hbx by lia.
    rewrite Hbx in Hb1.
    set (m := (n * 2 ^ (52 - e))%Z).
    assert (inject_Z m * U == inject_Z n)%Q as Hm.
    { unfold m, U. rewrite inject_Z_mult, <-(pow2_inject (52 - e)) by lia.
      rewrite <-Qmult_assoc, <-pow2_add.
      replace (52 - e + (c - 52))%Z with 0%Z by lia. by rewrite Qmult_1_r. }
    assert (2 ^ (c + 1) == 2 * 2 ^ e)%Q as Hc1.
    { rewrite Hce, pow2_add. change (2 ^ 1)%Q with 2%Q. lra. }
    assert (x / U < inject_Z m - (1 # 2))%Q as Hlt.
    { apply Qlt_shift_div_r; [done|].
      generalize dependent (inject_Z m). generalize dependent (inject_Z n).
      generalize dependent (2 ^ (c + 1))%Q. generalize dependent (2 ^ e)%Q.
      intros. nra. }
    apply round_half_even_below in Hlt. rewrite Zle_Qle in Hlt.
    unfold Z.sub in Hlt. rewrite inject_Z_plus in Hlt.
    change (inject_Z (- (1))) with (- (1))%Q in Hlt.
    generalize dependent (inject_Z (round_half_even (x / U))).
    generalize dependent (inject_Z m). generalize dependent (inject_Z n).
    intros. nra.
  - destruct (decide (c + 1 < e ∨ 2 ^ e < n)%Z) as [Hfar|Hnear].
    { destruct (decide (c + 1 < e)%Z).
      - apply (Hdone (c + 1)%Z); [lia| apply Hgrid; lia | left; lia].
      - apply (Hdone e); [lia| apply Hgrid; lia | right; lia]. }
    (* [n] is the power [2^e] and [x] lies in the binade below *)
    assert (n = 2 ^ e)%Z as Hn2 by lia.
    assert (c + 1 = e)%Z as Hc1 by lia.
    assert (inject_Z n == 2 ^ (c + 1))%Q as Hn2'.
    { by rewrite Hn2, Hc1, (pow2_inject e He0). }
    assert (x / U <= inject_Z (2 ^ 53 - 1))%Q as Hle.
    { apply Qle_shift_div_r; [done|].
      change (inject_Z (2 ^ 53 - 1)) with (9007199254740991 # 1)%Q.
      generalize dependent (inject_Z n). generalize dependent (2 ^ (c + 1))%Q.
      intros. nra. }
    apply round_half_even_le in Hle. rewrite Zle_Qle in Hle.
    change (inject_Z (2 ^ 53 - 1)) with (9007199254740991 # 1)%Q in Hle.
    pose proof (pow2_pos (c + 1)) as HC.
    generalize dependent (inject_Z (round_half_even (x / U))).
    generalize dependent (inject_Z n). generalize dependent (2 ^ (c + 1))%Q.
    intros. nra.
Qed.

(** [binary64] and [int] on the values the interpreter prints:
    [(0.7).as_integer_ratio()] and the like, [int(10 * 0.7) = 7],
    [int(3 * (1/3)) = 1], [int(50 * 0.58) = 28], [int(10 * 0.8) = 8],
    [int(3 * 0.1) = 0], [float(2**53 + 1) = 2.0**53] and
    [float(2**53 + 3) = 2.0**53 + 4]. *)
Lemma binary64_known_values :
  Qred (binary64 (7 # 10)) = 3152519739159347 # 4503599627370496 ∧
  Qred (binary64 (1 # 3)) = 6004799503160661 # 18014398509481984 ∧
  Qred (binary64 (58 # 100)) = 5224175567749775 # 9007199254740992 ∧
  int (binary64 (binary64 10 * binary64 (7 # 10))) = 7%Z ∧
  int (binary64 (binary64 3 * binary64 (1 # 3))) = 1%Z ∧
  int (binary64 (binary64 50 * binary64 (58 # 100))) = 28%Z ∧
  int (binary64 (binary64 10 * binary64 (8 # 10))) = 8%Z ∧
  int (binary64 (binary64 3 * binary64 (1 # 10))) = 0%Z ∧
  Qred (binary64 (inject_Z (2 ^ 53 + 1))) = inject_Z (2 ^ 53) ∧
  Qred (binary64 (inject_Z (2 ^ 53 + 3))) = inject_Z (2 ^ 53 + 4).
Proof. repeat split; by vm_compute. Qed.

End FloatFacts.

(** ** ml_intuition/data/utils.py: shuffling *)

Module ShuffleFacts.
Import NumPy Utils NumPyFacts.

Section Store.
Context `{BitGenerator} {sample : Type}.
Implicit Types (h : @heap sample) (x : @ndarray sample).
Implicit Types (a b array : ref) (arrays : list ref).

Lemma same_lengths_spec arrays h :
  same_lengths arrays h = true ↔ SameLengths arrays h.
Proof.
  unfold same_lengths, SameLengths. destruct arrays as [|first arrays].
  { split; [|done]. intros _ a b Ha. by apply elem_of_nil in Ha. }
  rewrite forallb_forall. split.
  - intros Hall a b Ha Hb.
    apply list_elem_of_In, Hall, Nat.eqb_eq in Ha, Hb. congruence.
  - intros Hall a Ha. apply Nat.eqb_eq, Hall.
    + by apply list_elem_of_In.
    + apply list_elem_of_here.
Qed.

Lemma read_write_eq array x h :
  (∃ s, read h array = Samples s) ↔ (∃ s, x = Samples s) →
  read (write array x h) array = x.
Proof.
  intros Hkind. destruct array, x; simpl in *;
    try (by rewrite fn_lookup_insert).
  - destruct Hkind as [[s Hs] _]; [by eexists|done].
  - destruct Hkind as [_ [s Hs]]; [by eexists|done].
Qed.

Lemma read_write_ne array a x h :
  a ≠ array → read (write array x h) a = read h a.
Proof.
  intros Hne. destruct array, x, a; simpl; trivial;
    rewrite fn_lookup_insert_ne; trivial; congruence.
Qed.

Lemma read_map_in_place (f : ∀ A, list A → list A) array h :
  read (write array (map_ndarray f (read h array)) h) array
  = map_ndarray f (read h array).
Proof.
  apply read_write_eq. destruct array; simpl; split; intros [s Hs];
    try done; by eexists.
Qed.

Lemma len_shuffled seed x :
  len (map_ndarray (λ A, shuffle (RandomState seed)) x) = len x.
Proof. destruct x; simpl; apply length_shuffle. Qed.

Lemma len_shuffle_in_place seed array a h :
  len (read (shuffle_in_place seed array h) a) = len (read h a).
Proof.
  unfold shuffle_in_place. destruct (decide (a = array)) as [->|Hne].
  - by rewrite read_map_in_place, len_shuffled.
  - by rewrite read_write_ne.
Qed.

Lemma shuffle_in_place_permute seed array h :
  shuffle_in_place seed array h
  = permute_in_place (shuffle_permutation seed (len (read h array))) array h.
Proof.
  unfold shuffle_in_place, permute_in_place, permute_array. f_equal.
  destruct (read h array); simpl; f_equal; apply shuffle_permute.
Qed.

Lemma foldl_shuffle_in_place_permute seed n arrays h :
  (∀ a, a ∈ arrays → len (read h a) = n) →
  foldl (λ h array, shuffle_in_place seed array h) h arrays
  = foldl (λ h array, permute_in_place (shuffle_permutation seed n) array h)
      h arrays.
Proof.
  revert h. induction arrays as [|a arrays IH]; intros h Hlen; simpl; [done|].
  rewrite IH.
  - do 2 f_equal. rewrite shuffle_in_place_permute.
    by rewrite (Hlen a) by apply list_elem_of_here.
  - intros b Hb. rewrite len_shuffle_in_place.
    by apply Hlen, list_elem_of_further.
Qed.

Lemma read_foldl_untouched (step : ref → heap → heap) arrays a h :
  (∀ array h, a ≠ array → read (step array h) a = read h a) →
  a ∉ arrays →
  read (foldl (λ h array, step array h) h arrays) a = read h a.
Proof.
  intros Hstep. revert h.
  induction arrays as [|b arrays IH]; intros h Hnotin; simpl; [done|].
  apply not_elem_of_cons in Hnotin as [Hne Hnotin].
  by rewrite IH, Hstep.
Qed.

Lemma read_foldl_permute_in_place p arrays a h :
  NoDup arrays → a ∈ arrays →
  read (foldl (λ h array, permute_in_place p array h) h arrays) a
  = permute_array p (read h a).
Proof.
  intros Hnodup. revert h.
  induction Hnodup as [|b arrays Hb Hnodup IH]; intros h Ha.
  { by apply elem_of_nil in Ha. }
  simpl. apply elem_of_cons in Ha as [->|Ha].
  - rewrite (read_foldl_untouched (permute_in_place p)); trivial.
    + apply read_map_in_place.
    + intros array h' Hne. by apply read_write_ne.
  - rewrite IH by done. unfold permute_in_place.
    rewrite read_write_ne; [done|]. by intros ->.
Qed.

Lemma shuffle_in_place_agree arrays seed array h1 h2 :
  agree_on arrays h1 h2 →
  agree_on arrays (shuffle_in_place seed array h1)
    (shuffle_in_place seed array h2).
Proof.
  intros Hagree a Ha. unfold shuffle_in_place.
  destruct (decide (a = array)) as [->|Hne].
  - by rewrite !read_map_in_place, (Hagree array Ha).
  - rewrite !read_write_ne by done. by apply Hagree.
Qed.

Lemma foldl_shuffle_in_place_agree arrays seed l h1 h2 :
  agree_on arrays h1 h2 →
  agree_on arrays
    (foldl (λ h array, shuffle_in_place seed array h) h1 l)
    (foldl (λ h array, shuffle_in_place seed array h) h2 l).
Proof.
  revert h1 h2. induction l as [|array l IH]; intros h1 h2 Hagree; [done|].
  simpl. by apply IH, shuffle_in_place_agree.
Qed.

Lemma legal_seed_spec seed : legal_seed seed = true ↔ (0 ≤ seed < 2 ^ 32)%Z.
Proof. unfold legal_seed. by rewrite bool_decide_eq_true. Qed.

Lemma shuffle_each_legal seed arrays h :
  legal_seed seed = true →
  shuffle_each seed arrays h
  = (Returns (), foldl (λ h array, shuffle_in_place seed array h) h arrays).
Proof.
  intros Hseed. revert h.
  induction arrays as [|array arrays IH]; intros h; simpl; [done|].
  unfold legacy_seeding. rewrite Hseed. apply IH.
Qed.

Lemma shuffle_each_illegal seed arrays h :
  legal_seed seed = false → arrays ≠ [] →
  shuffle_each seed arrays h = (Raises ValueError, h).
Proof.
  intros Hseed Hne. destruct arrays as [|array arrays]; [done|].
  simpl. unfold legacy_seeding. by rewrite Hseed.
Qed.

(** The loop shuffles every array or, with a seed out of range, none. *)
Lemma shuffle_each_cases seed arrays h :
  shuffle_each seed arrays h
  = (Returns (), foldl (λ h array, shuffle_in_place seed array h) h arrays)
  ∨ shuffle_each seed arrays h = (Raises ValueError, h).
Proof.
  destruct (legal_seed seed) eqn:Hseed.
  - left. by apply shuffle_each_legal.
  - destruct arrays as [|array arrays]; [by left|].
    right. by apply shuffle_each_illegal.
Qed.

Lemma same_lengths_agree arrays h1 h2 :
  agree_on arrays h1 h2 → same_lengths arrays h1 = same_lengths arrays h2.
Proof.
  intros Hagree. unfold same_lengths. destruct arrays as [|first arrays]; [done|].
  rewrite (Hagree first) by apply list_elem_of_here.
  apply eq_true_iff_eq. rewrite !forallb_forall.
  split; intros Hall a Ha; specialize (Hall a Ha);
    apply list_elem_of_In in Ha;
    [by rewrite <-(Hagree a Ha) | by rewrite (Hagree a Ha)].
Qed.
End Store.

End ShuffleFacts.

Module ShuffleSpec.
Import NumPy Utils NumPyFacts ShuffleFacts.

(** C9 (as amended). [shuffle_arrays_together] raises [AssertionError],
    leaving every array as it was, exactly when two of the listed arrays
    differ in length along the first dimension.  When all lengths agree it
    does not raise, provided the seed is one [np.random.RandomState] accepts,
    an integer of [0 .. 2^32 - 1], or the list is empty; with any other seed
    and a list that is not empty it raises [ValueError], again leaving every
    array as it was. *)
Theorem shuffle_arrays_together_assertion `{BitGenerator} {sample}
    (arrays : list ref) (seed : Z) (h : @heap sample) :
  (¬ SameLengths arrays h →
     shuffle_arrays_together arrays seed h = (Raises AssertionError, h)) ∧
  ((shuffle_arrays_together arrays seed h).1 = Raises AssertionError →
     ¬ SameLengths arrays h) ∧
  (SameLengths arrays h → (0 ≤ seed < 2 ^ 32)%Z →
     (shuffle_arrays_together arrays seed h).1 = Returns ()) ∧
  (SameLengths arrays h → arrays = [] →
     shuffle_arrays_together arrays seed h = (Returns (), h)) ∧
  (SameLengths arrays h → arrays ≠ [] → ¬ (0 ≤ seed < 2 ^ 32)%Z →
     shuffle_arrays_together arrays seed h = (Raises ValueError, h)).
Proof.
  unfold shuffle_arrays_together.
  split; [|split; [|split; [|split]]].
  - intros Hlen. destruct (same_lengths arrays h) eqn:Hs; [|done].
    destruct Hlen. by apply same_lengths_spec.
  - destruct (same_lengths arrays h) eqn:Hs.
    + by destruct (shuffle_each_cases seed arrays h) as [-> | ->].
    + intros _ Hlen. apply same_lengths_spec in Hlen. congruence.
  - intros Hlen Hseed. apply same_lengths_spec in Hlen. rewrite Hlen.
    apply legal_seed_spec in Hseed. by rewrite shuffle_each_legal.
  - intros Hlen ->. apply same_lengths_spec in Hlen. by rewrite Hlen.
  - intros Hlen Hne Hseed. apply same_lengths_spec in Hlen. rewrite Hlen.
    apply shuffle_each_illegal; [|done].
    destruct (legal_seed seed) eqn:Hs; [|done].
    by apply legal_seed_spec in Hs.
Qed.

(** C9, the claim as stated: two arrays of three entries each and the seed
    [-1], or [2^32].  All lengths are equal, and the call raises
    [ValueError], from [np.random.RandomState(seed)] in the first round of
    the loop; the arrays are as they were. *)
Lemma shuffle_arrays_together_seed_out_of_range :
  @SameLengths nat [SamplesRef 0; VectorRef 0] Examples.three_and_three ∧
  @shuffle_arrays_together mt19937 nat [SamplesRef 0; VectorRef 0] (-1)
    Examples.three_and_three
  = (Raises ValueError, Examples.three_and_three) ∧
  @shuffle_arrays_together mt19937 nat [SamplesRef 0; VectorRef 0] (2 ^ 32)
    Examples.three_and_three
  = (Raises ValueError, Examples.three_and_three).
Proof.
  split; [|split; reflexivity].
  by apply same_lengths_spec.
Qed.

(** C8 (as amended). On arrays of one common length [n], with a seed
    [np.random.RandomState] accepts, [shuffle_arrays_together] applies in
    place, to one list entry after the other, the index permutation
    [shuffle_permutation seed n], which depends on the seed and on [n] only;
    when the listed arrays share no memory (no array is listed twice), each
    ends up as that permutation of its former content, so entries that
    shared a position still do.  A second run from any store with the same
    contents in the listed arrays, with the same seed, ends with the same
    contents in them. *)
Theorem shuffle_arrays_together_same_permutation `{BitGenerator} {sample}
    (arrays : list ref) (seed : Z) (h : @heap sample) (n : nat) :
  (0 ≤ seed < 2 ^ 32)%Z →
  Forall (λ a, len (read h a) = n) arrays →
  let p := shuffle_permutation seed n in
  p ≡ₚ seq 0 n ∧
  shuffle_arrays_together arrays seed h
    = (Returns (), foldl (λ h a, permute_in_place p a h) h arrays) ∧
  (NoDup arrays →
     Forall (λ a, read (shuffle_arrays_together arrays seed h).2 a
                  = permute_array p (read h a)) arrays) ∧
  (∀ h', agree_on arrays h h' →
     (shuffle_arrays_together arrays seed h').1 = Returns () ∧
     agree_on arrays (shuffle_arrays_together arrays seed h).2
       (shuffle_arrays_together arrays seed h').2).
Proof.
  intros Hseed Hlen p. rewrite Forall_forall in Hlen.
  apply legal_seed_spec in Hseed.
  assert (same_lengths arrays h = true) as Hsame.
  { apply same_lengths_spec. intros a b Ha Hb.
    by rewrite (Hlen a Ha), (Hlen b Hb). }
  assert (shuffle_arrays_together arrays seed h
          = (Returns (), foldl (λ h a, permute_in_place p a h) h arrays)) as Hrun.
  { unfold shuffle_arrays_together.
    rewrite Hsame, shuffle_each_legal by done.
    f_equal. by apply foldl_shuffle_in_place_permute. }
  split; [apply shuffle_permutation_Permutation|].
  split; [done|]. split.
  { intros Hnodup. apply Forall_forall. intros a Ha.
    rewrite Hrun. simpl. by apply read_foldl_permute_in_place. }
  intros h' Hagree. unfold shuffle_arrays_together.
  rewrite <-(same_lengths_agree arrays h h' Hagree), Hsame.
  rewrite !shuffle_each_legal by done. simpl.
  split; [done|]. by apply foldl_shuffle_in_place_agree.
Qed.

(** C8, the claim as stated: [shuffle_arrays_together([a, a, b])] with
    [a = [1,2,3]], [b = [10,20,30]] and seed 0.  The permutation for length 3
    is [2,1,0]; [a], listed twice, is reversed twice and ends as it was, [b]
    is reversed once: 1 was paired with 10 and is now paired with 30, and no
    single permutation accounts for both arrays. *)
Lemma shuffle_arrays_together_aliased :
  Forall (λ a, len (read Examples.paired a) = 3)
    [SamplesRef 0; SamplesRef 0; VectorRef 0] ∧
  @shuffle_permutation mt19937 0 3 = [2; 1; 0] ∧
  (@shuffle_arrays_together mt19937 nat
     [SamplesRef 0; SamplesRef 0; VectorRef 0] 0 Examples.paired).1
  = Returns () ∧
  read (@shuffle_arrays_together mt19937 nat
          [SamplesRef 0; SamplesRef 0; VectorRef 0] 0 Examples.paired).2
    (SamplesRef 0) = Samples [1; 2; 3] ∧
  read (@shuffle_arrays_together mt19937 nat
          [SamplesRef 0; SamplesRef 0; VectorRef 0] 0 Examples.paired).2
    (VectorRef 0) = Vector [30; 20; 10]%Z ∧
  ¬ ∃ p : list nat,
      Forall (λ a,
          read (@shuffle_arrays_together mt19937 nat
                  [SamplesRef 0; SamplesRef 0; VectorRef 0] 0 Examples.paired).2 a
          = permute_array p (read Examples.paired a))
        [SamplesRef 0; SamplesRef 0; VectorRef 0].
Proof.
  split; [repeat constructor|]. split; [by vm_compute|].
  split; [by vm_compute|]. split; [by vm_compute|]. split; [by vm_compute|].
  intros [p Hall].
  apply Forall_cons in Hall as [Ha Hall].
  apply Forall_cons in Hall as [_ Hall].
  apply Forall_cons in Hall as [Hb _].
  vm_compute in Ha, Hb. injection Ha as Ha. injection Hb as Hb.
  induction p as [|k p IH]; [done|].
  destruct k as [|[|[|k]]]; simpl in Ha, Hb; try done.
  by apply IH.
Qed.

End ShuffleSpec.

(** ** ml_intuition/data/utils.py: index extraction *)

Module IndicesFacts.
Import NumPy Utils FloatFacts.

Lemma elem_of_unique_Z (l : list Z) x : x ∈ unique_Z l ↔ x ∈ l.
Proof.
  unfold unique_Z. rewrite merge_sort_Permutation. apply elem_of_remove_dups.
Qed.

Lemma NoDup_unique_Z (l : list Z) : NoDup (unique_Z l).
Proof.
  unfold unique_Z. rewrite merge_sort_Permutation. apply NoDup_remove_dups.
Qed.

Lemma elem_of_unique_nat (l : list nat) x : x ∈ unique_nat l ↔ x ∈ l.
Proof.
  unfold unique_nat. rewrite merge_sort_Permutation. apply elem_of_remove_dups.
Qed.

Lemma NoDup_unique_nat (l : list nat) : NoDup (unique_nat l).
Proof.
  unfold unique_nat. rewrite merge_sort_Permutation. apply NoDup_remove_dups.
Qed.

Lemma elem_of_where_eq labels label i :
  i ∈ where_eq labels label ↔ labels !! i = Some label.
Proof.
  unfold where_eq. rewrite list_elem_of_filter, elem_of_seq. split.
  - by intros [? _].
  - intros Hi. split; [done|]. apply lookup_lt_Some in Hi. lia.
Qed.

Lemma NoDup_where_eq labels label : NoDup (where_eq labels label).
Proof. apply NoDup_filter, NoDup_seq. Qed.

Lemma where_eq_absent labels label : label ∉ labels → where_eq labels label = [].
Proof.
  intros Hnotin. apply elem_of_nil_inv. intros i Hi.
  apply elem_of_where_eq in Hi. apply Hnotin. by eapply list_elem_of_lookup_2.
Qed.

Lemma filter_all {A} (P : A → Prop) `{∀ x, Decision (P x)} (l : list A) :
  Forall P l → filter P l = l.
Proof.
  induction 1 as [|x l Hx _ IH]; [done|]. by rewrite filter_cons_True, IH.
Qed.

Lemma filter_none {A} (P : A → Prop) `{∀ x, Decision (P x)} (l : list A) :
  Forall (λ x, ¬ P x) l → filter P l = [].
Proof.
  induction 1 as [|x l Hx _ IH]; [done|]. by rewrite filter_cons_False, IH.
Qed.

Section PerClass.
Variables (labels : list Z) (k : list nat → nat).

Lemma class_prefix_class label i :
  i ∈ class_prefix labels k label → labels !! i = Some label.
Proof.
  unfold class_prefix. intros Hi. apply elem_of_where_eq.
  apply elem_of_take in Hi as (j & Hj & _). by eapply list_elem_of_lookup_2.
Qed.

Lemma class_prefix_fmap (us : list Z) :
  (λ li, take (k li) li) <$> ((λ label, where_eq labels label) <$> us)
  = class_prefix labels k <$> us.
Proof. by rewrite <-list_fmap_compose. Qed.

Lemma filter_class_prefix c label :
  filter (λ i, labels !! i = Some c) (class_prefix labels k label)
  = if decide (label = c) then class_prefix labels k label else [].
Proof.
  case_decide as Hc.
  - subst. apply filter_all, Forall_forall. apply class_prefix_class.
  - apply filter_none, Forall_forall. intros i Hi Hic.
    apply class_prefix_class in Hi. congruence.
Qed.

Lemma filter_class_concat c (us : list Z) :
  NoDup us →
  filter (λ i, labels !! i = Some c) (concat (class_prefix labels k <$> us))
  = if decide (c ∈ us) then class_prefix labels k c else [].
Proof.
  induction 1 as [|label us Hnotin Hnodup IH]; [done|].
  rewrite fmap_cons. simpl. rewrite filter_app, IH, filter_class_prefix.
  destruct (decide (label = c)) as [->|Hne];
    destruct (decide (c ∈ us)) as [Hin|Hout];
    [done| | |]; rewrite ?app_nil_r.
  - rewrite decide_True by apply list_elem_of_here. done.
  - rewrite decide_True by (by apply list_elem_of_further). done.
  - rewrite decide_False; [done|].
    intros [?|?]%elem_of_cons; congruence.
Qed.

Lemma NoDup_concat_class_prefix (us : list Z) :
  NoDup us → NoDup (concat (class_prefix labels k <$> us)).
Proof.
  induction 1 as [|label us Hnotin Hnodup IH]; [constructor|].
  rewrite fmap_cons. simpl. apply NoDup_app. split; [|split; [|done]].
  - eapply sublist_NoDup; [apply NoDup_where_eq | apply sublist_take].
  - intros i Hi Hrest. apply class_prefix_class in Hi.
    apply list_elem_of_In, in_concat in Hrest as (block & Hblock & Hib).
    apply list_elem_of_In in Hblock, Hib.
    apply list_elem_of_fmap in Hblock as (label' & -> & Hlabel').
    apply class_prefix_class in Hib. congruence.
Qed.
End PerClass.

(** Truncation of [n * q] for a fraction [q]. *)
Lemma Qltb_lt a b : Qltb a b = true ↔ (a < b)%Q.
Proof.
  unfold Qltb. rewrite negb_true_iff, <-not_true_iff_false, Qle_bool_iff.
  split; [apply Qnot_le_lt | apply Qlt_not_le].
Qed.

Lemma inject_nat_nonneg (n : nat) : (0 <= inject_Z (Z.of_nat n))%Q.
Proof. change 0%Q with (inject_Z 0). rewrite <-Zle_Qle. lia. Qed.

(** For a length below [2^53] the conversion to a float is exact, and the
    rounded product lies between the integers next to the exact one. *)
Lemma int_mul_float_bounds (n : nat) (q : Q) :
  (Z.of_nat n < 2 ^ 53)%Z → (0 < q)%Q → (q < 1)%Q →
  int_mul n (SizeFloat q) ≤ n ∧
  (Qfloor (inject_Z (Z.of_nat n) * q) ≤ Z.of_nat (int_mul n (SizeFloat q)))%Z ∧
  (Z.of_nat (int_mul n (SizeFloat q)) ≤ Qceiling (inject_Z (Z.of_nat n) * q))%Z.
Proof.
  intros Hn Hq0 Hq1. unfold int_mul.
  pose proof (inject_nat_nonneg n) as Hn0.
  assert (inject_Z (Z.of_nat n) < inject_Z (2 ^ 53))%Q as Hn53.
  { by rewrite <-Zlt_Qlt. }
  destruct (binary64_between (Z.of_nat n) (Z.of_nat n) _ Hn0 Hn53)
    as [HN1 HN2]; [lra..|].
  set (N := binary64 (inject_Z (Z.of_nat n))) in *.
  set (x := (inject_Z (Z.of_nat n) * q)%Q).
  assert (N * q == x)%Q as HNx by (unfold x; nra).
  assert (0 <= x)%Q as Hx0 by (unfold x; nra).
  assert (x <= inject_Z (Z.of_nat n))%Q as Hxn by (unfold x; nra).
  assert (0 <= N * q)%Q as Hx0' by lra.
  destruct (binary64_between (Qfloor x) (Qceiling x) (N * q) Hx0')
    as [Hlo Hhi].
  - lra.
  - rewrite HNx. apply Qfloor_le.
  - rewrite HNx. apply Qle_ceiling.
  - rewrite int_nonneg by (by apply binary64_nonneg).
    set (r := binary64 (N * q)) in *.
    assert (Qfloor x ≤ Qfloor r)%Z as H1.
    { rewrite <-(Qfloor_Z (Qfloor x)). by apply Qfloor_resp_le. }
    assert (Qfloor r ≤ Qceiling x)%Z as H2.
    { rewrite <-(Qfloor_Z (Qceiling x)). by apply Qfloor_resp_le. }
    assert (Qceiling x ≤ Z.of_nat n)%Z as H3.
    { rewrite <-(Qceiling_Z (Z.of_nat n)). by apply Qceiling_resp_le. }
    assert (0 ≤ Qfloor x)%Z as H4.
    { change 0%Z with (Qfloor 0). by apply Qfloor_resp_le. }
    rewrite Z2Nat.id by lia. lia.
Qed.

(** A larger fraction never gives a smaller count, whatever the length. *)
Lemma int_mul_float_mono n (q q' : Q) :
  (0 < q)%Q → (q <= q')%Q →
  int_mul n (SizeFloat q) ≤ int_mul n (SizeFloat q').
Proof.
  intros Hq Hqq. unfold int_mul.
  pose proof (binary64_nonneg _ (inject_nat_nonneg n)) as HN.
  set (N := binary64 (inject_Z (Z.of_nat n))) in *.
  assert (0 <= N * q)%Q as H0 by nra.
  assert (N * q <= N * q')%Q as Hle by nra.
  rewrite !int_nonneg by (apply binary64_nonneg; lra).
  apply Z2Nat.inj_le.
  - change 0%Z with (Qfloor 0). apply Qfloor_resp_le, binary64_nonneg, H0.
  - change 0%Z with (Qfloor 0). apply Qfloor_resp_le, binary64_nonneg. lra.
  - by apply Qfloor_resp_le, binary64_mono.
Qed.

(** No float below one is above [1 - 2^-53]: the count stays below the
    length. *)
Lemma int_mul_float_lt (n : nat) (q : Q) :
  1 ≤ n → (Z.of_nat n < 2 ^ 53)%Z → (0 < q)%Q → (q <= 1 - 2 ^ (-53))%Q →
  int_mul n (SizeFloat q) < n.
Proof.
  intros Hn1 Hn Hq0 Hq1. unfold int_mul.
  pose proof (inject_nat_nonneg n) as Hn0.
  assert (inject_Z (Z.of_nat n) < inject_Z (2 ^ 53))%Q as Hn53.
  { by rewrite <-Zlt_Qlt. }
  destruct (binary64_between (Z.of_nat n) (Z.of_nat n) _ Hn0 Hn53)
    as [HN1 HN2]; [lra..|].
  set (N := binary64 (inject_Z (Z.of_nat n))) in *.
  assert (0 <= N * q)%Q as Hx0 by nra.
  assert (N * q <= inject_Z (Z.of_nat n) * (1 - 2 ^ (-53)))%Q as Hx.
  { assert (N == inject_Z (Z.of_nat n))%Q as -> by lra.
    apply Qmult_le_l; [|done].
    change 0%Q with (inject_Z 0). rewrite <-Zlt_Qlt. lia. }
  pose proof (binary64_below (Z.of_nat n) (N * q) ltac:(lia) Hx) as Hlt.
  pose proof (binary64_nonneg _ Hx0) as Hr0.
  rewrite int_nonneg by done.
  set (r := binary64 (N * q)) in *.
  pose proof (Qfloor_le r) as Hf.
  assert (0 ≤ Qfloor r)%Z as Hf0.
  { change 0%Z with (Qfloor 0). by apply Qfloor_resp_le. }
  assert (Qfloor r < Z.of_nat n)%Z as Hfn by (rewrite Zlt_Qlt; lra).
  lia.
Qed.

Lemma int_mul_float_0 (q : Q) : int_mul 0 (SizeFloat q) = 0.
Proof.
  unfold int_mul.
  assert (binary64 0 == 0)%Q as Hzero by (by vm_compute).
  assert (binary64 (inject_Z (Z.of_nat 0)) * q == 0)%Q as Hx.
  { change (inject_Z (Z.of_nat 0)) with 0%Q. rewrite Hzero. lra. }
  assert (binary64 (binary64 (inject_Z (Z.of_nat 0)) * q) == 0)%Q as Hz.
  { apply Qle_antisym.
    - apply Qle_trans with (binary64 0); [apply binary64_mono; lra | lra].
    - apply binary64_nonneg. lra. }
  rewrite int_nonneg by lra. by rewrite (Qfloor_comp _ _ Hz).
Qed.

Lemma filter_ext_in {A} (P Q : A → Prop) `{∀ x, Decision (P x)}
    `{∀ x, Decision (Q x)} (l : list A) :
  (∀ x, x ∈ l → P x ↔ Q x) → filter P l = filter Q l.
Proof.
  induction l as [|x l IH]; intros Hext; [done|].
  rewrite !filter_cons.
  rewrite IH by (intros y Hy; apply Hext; by apply list_elem_of_further).
  pose proof (Hext x (list_elem_of_here _ _)).
  destruct (decide (P x)), (decide (Q x)); tauto || done.
Qed.

Lemma length_where_eq (labels : list Z) (c : Z) :
  length (where_eq labels c) = length (filter (λ v, v = c) labels).
Proof.
  unfold where_eq. induction labels as [|v labels IH] using rev_ind; [done|].
  rewrite length_app. simpl. rewrite Nat.add_1_r, seq_S, !filter_app.
  rewrite !length_app. f_equal.
  - rewrite <-IH. f_equal. apply filter_ext_in. intros i Hi.
    apply elem_of_seq in Hi. by rewrite lookup_app_l by lia.
  - simpl. rewrite !filter_cons, !filter_nil.
    rewrite lookup_app_r, Nat.sub_diag by lia. simpl.
    destruct (decide (Some v = Some c)) as [[= ->]|Hne].
    + by rewrite decide_True.
    + rewrite decide_False; [done|]. intros ->. done.
Qed.

End IndicesFacts.

Module IndicesSpec.
Import NumPy Utils FloatFacts IndicesFacts.

(** C6 (as amended). With [stratified=True] and a float size [0 < q < 1],
    [_get_set_indices] returns, for every class, the first
    [int(|class| * q)] indices of that class, the product being the float
    product, rounded to binary64 before it is truncated.  For a vector of
    fewer than [2^53] labels this count is the floor of the exact product
    [|class| * q] or, where the float product rounds up to an integer, its
    ceiling: the selected share of a class differs from [q * |class|] by less
    than one sample.  The size of a class is the number of labels equal to
    it.  An empty label vector has no class and makes [np.concatenate]
    raise. *)
Theorem get_set_indices_stratified_fraction (labels : list Z) (q : Q) :
  (0 < q)%Q → (q < 1)%Q → (Z.of_nat (length labels) < 2 ^ 53)%Z →
  (labels = [] →
     _get_set_indices labels (SizeFloat q) true = Raises ValueError) ∧
  (labels ≠ [] →
     ∃ idx,
       _get_set_indices labels (SizeFloat q) true = Returns (IntIndices idx) ∧
       NoDup idx ∧
       ∀ c : Z,
         let class := where_eq labels c in
         let chosen := filter (λ i, labels !! i = Some c) idx in
         let share := (inject_Z (Z.of_nat (length class)) * q)%Q in
         length class = length (filter (λ v, v = c) labels) ∧
         chosen = take (int_mul (length class) (SizeFloat q)) class ∧
         length chosen = int_mul (length class) (SizeFloat q) ∧
         (Qfloor share ≤ Z.of_nat (length chosen) ≤ Qceiling share)%Z ∧
         (share - 1 < inject_Z (Z.of_nat (length chosen)))%Q ∧
         (inject_Z (Z.of_nat (length chosen)) < share + 1)%Q).
Proof.
  intros Hq0 Hq1 Hsmall.
  assert (size_positive (SizeFloat q) = true) as Hpos by by apply Qltb_lt.
  assert (size_fraction (SizeFloat q) = true) as Hfrac.
  { simpl. apply andb_true_iff. split; by apply Qltb_lt. }
  unfold _get_set_indices. rewrite Hpos, Hfrac. simpl.
  split.
  { by intros ->. }
  intros Hne.
  pose (k := λ li : list nat, int_mul (length li) (SizeFloat q)).
  rewrite (class_prefix_fmap labels k).
  set (kept := class_prefix labels k).
  destruct (unique_Z labels) as [|u us] eqn:Hus.
  { destruct labels as [|l labels]; [done|].
    assert (l ∈ unique_Z (l :: labels)) as Hl
      by apply elem_of_unique_Z, list_elem_of_here.
    rewrite Hus in Hl. by apply elem_of_nil in Hl. }
  rewrite <-Hus. unfold concatenate.
  assert (kept <$> unique_Z labels ≠ []) as Hblocks by by rewrite Hus.
  destruct (kept <$> unique_Z labels) as [|b bs] eqn:Hkept; [done|].
  rewrite <-Hkept. simpl. eexists. split; [done|].
  split; [apply (NoDup_concat_class_prefix labels k), NoDup_unique_Z|].
  intros c.
  set (class := where_eq labels c).
  set (share := (inject_Z (Z.of_nat (length class)) * q)%Q).
  set (chosen := filter (λ i, labels !! i = Some c) _).
  assert (length class ≤ length labels) as Hclass.
  { unfold class. rewrite length_where_eq. apply length_filter. }
  pose proof (int_mul_float_bounds (length class) q ltac:(lia) Hq0 Hq1)
    as (Hle & Hlo & Hhi).
  fold share in Hlo, Hhi.
  assert (chosen = take (int_mul (length class) (SizeFloat q)) class)
    as Hchosen.
  { unfold chosen, kept.
    rewrite (filter_class_concat labels k c _ (NoDup_unique_Z labels)).
    case_decide as Hc; [done|].
    rewrite elem_of_unique_Z in Hc. unfold class.
    by rewrite (where_eq_absent labels c Hc), take_nil. }
  assert (length chosen = int_mul (length class) (SizeFloat q)) as Hlen.
  { rewrite Hchosen, length_take. lia. }
  split; [apply length_where_eq|].
  split; [exact Hchosen|]. split; [exact Hlen|].
  rewrite Hlen. split; [by split|].
  pose proof (Qlt_floor share) as Hf. pose proof (Qceiling_lt share) as Hc.
  rewrite Zle_Qle in Hlo, Hhi.
  rewrite inject_Z_plus in Hf. rewrite <-Z.add_opp_r, inject_Z_plus in Hc.
  change (inject_Z 1) with 1%Q in Hf. change (inject_Z (- (1))) with (- (1))%Q in Hc.
  split; lra.
Qed.

(** C6, the claim as stated: one class of ten labels and the float [0.7],
    which is 3152519739159347 / 2^52, a little below 7/10.  The exact
    product is a little below 7 and its floor is 6; the float product rounds
    to [7.0] and seven indices are selected.  In the other direction, fifty
    labels and the float [0.58]: the float product is below 29 and 28 indices
    are selected, where [floor(50 * 58/100)] is 29. *)
Lemma get_set_indices_stratified_rounded :
  (0 < Examples.float_0_7)%Q ∧ (Examples.float_0_7 < 1)%Q ∧
  _get_set_indices (replicate 10 0%Z) (SizeFloat Examples.float_0_7) true
  = Returns (IntIndices (seq 0 7)) ∧
  filter (λ i, replicate 10 0%Z !! i = Some 0%Z) (seq 0 7) = seq 0 7 ∧
  Qfloor (inject_Z (Z.of_nat (length (where_eq (replicate 10 0%Z) 0)))
          * Examples.float_0_7) = 6%Z ∧
  _get_set_indices (replicate 50 0%Z) (SizeFloat Examples.float_0_58) true
  = Returns (IntIndices (seq 0 28)) ∧
  Qfloor (inject_Z (Z.of_nat (length (where_eq (replicate 50 0%Z) 0)))
          * (58 # 100)) = 29%Z.
Proof. repeat split; by vm_compute. Qed.

End IndicesSpec.

(** ** ml_intuition/data/utils.py: the three-way split *)

Module SplitSpec.
Import NumPy Utils NumPyFacts ShuffleFacts.

Section Split.
Context `{BitGenerator} {sample : Type}.
Implicit Types (h : @heap sample).

(** The joint shuffle of [data] and [labels] at the head of
    [train_val_test_split]. *)
Lemma shuffle_data_labels data labels seed h :
  legal_seed seed = true →
  length (samples_at h data) = length (vector_at h labels) →
  shuffle_arrays_together [SamplesRef data; VectorRef labels] seed h
  = (Returns (),
     Heap (<[data := shuffle (RandomState seed) (samples_at h data)]>
             (samples_at h))
          (<[labels := shuffle (RandomState seed) (vector_at h labels)]>
             (vector_at h))).
Proof.
  intros Hseed Hlen. unfold shuffle_arrays_together.
  assert (same_lengths [SamplesRef data; VectorRef labels] h = true) as ->.
  { unfold same_lengths. simpl. by rewrite Nat.eqb_refl, <-Hlen, Nat.eqb_refl. }
  by rewrite shuffle_each_legal.
Qed.

(** Every vector is the seed-0 shuffle of some arrangement of itself, so
    any order of the labels after the shuffle is reached from a suitable
    input. *)
Lemma shuffled_labels_reachable (seed : Z) (shuffled : list Z) :
  ∃ labels,
    labels ≡ₚ shuffled ∧ shuffle (RandomState seed) labels = shuffled.
Proof. apply shuffle_surjective. Qed.

Lemma elem_of_setdiff1d (a b : list nat) i :
  i ∈ setdiff1d a b ↔ i ∈ a ∧ i ∉ b.
Proof.
  unfold setdiff1d. rewrite list_elem_of_filter, IndicesFacts.elem_of_unique_nat.
  tauto.
Qed.

(** What the index arrays satisfy whenever the split goes through: the
    training indices avoid the validation and the test indices, and the test
    indices are the complement of the training superset. *)
Lemma split_indices_parts n_data labels train_size val_size stratified ix :
  split_indices n_data labels train_size val_size stratified = Returns ix →
  (∀ i, i ∈ train_indices ix → i ∈ train_superset ix ∧ i ∉ val_indices ix) ∧
  (∀ i, i ∈ test_indices ix ↔ i < n_data ∧ i ∉ train_superset ix) ∧
  (∀ i, i ∈ train_indices ix → i ∉ test_indices ix).
Proof.
  unfold split_indices. intros Hrun.
  destruct (_get_set_indices labels train_size stratified) as [super|];
    simpl in Hrun; [|done].
  destruct (take_indices labels super) as [train_labels|]; simpl in Hrun; [|done].
  destruct (_get_set_indices train_labels val_size true) as [val|];
    simpl in Hrun; [|done].
  injection Hrun as <-. simpl.
  split; [intros i Hi; by apply elem_of_setdiff1d in Hi|].
  split.
  - intros i. rewrite elem_of_setdiff1d. unfold arange.
    rewrite elem_of_seq. split; intros [? ?]; split; trivial; lia.
  - intros i Hi Ht. apply elem_of_setdiff1d in Hi as [Hi _].
    apply elem_of_setdiff1d in Ht as [_ Ht]. done.
Qed.

(** C1. Five samples whose labels come out of the shuffle as
    [0,0,1,1,1], with [train_size=0.75], [val_size=0.5] and
    [stratified=True]: the index arrays at the [return] are
    train [0,2,3], validation [1] and test [1,4], so the shuffled sample 1
    is returned both in the validation set and in the test set. *)
Theorem train_val_test_split_val_test_overlap
    (data labels : nat) h (d0 d1 d2 d3 d4 : sample) :
  shuffle (RandomState 0) (samples_at h data) = [d0; d1; d2; d3; d4] →
  shuffle (RandomState 0) (vector_at h labels) = [0; 0; 1; 1; 1]%Z →
  ∃ ix split,
    split_indices 5 [0; 0; 1; 1; 1]%Z (SizeFloat (3#4)) (SizeFloat (1#2)) true
      = Returns ix ∧
    (train_val_test_split data labels (SizeFloat (3#4)) (SizeFloat (1#2))
       true h).1 = Returns split ∧
    train_indices ix = [0; 2; 3] ∧ val_indices ix = [1] ∧
    test_indices ix = [1; 4] ∧
    1 ∈ val_indices ix ∧ 1 ∈ test_indices ix ∧
    train_x split = [d0; d2; d3] ∧ val_x split = [d1] ∧
    test_x split = [d1; d4] ∧
    train_y split = [0; 1; 1]%Z ∧ val_y split = [0]%Z ∧
    test_y split = [0; 1]%Z.
Proof.
  intros Hdata Hlabels.
  assert (length (samples_at h data) = length (vector_at h labels)) as Hlen.
  { rewrite <-(length_shuffle (RandomState 0) (samples_at h data)).
    rewrite <-(length_shuffle (RandomState 0) (vector_at h labels)).
    by rewrite Hdata, Hlabels. }
  unfold train_val_test_split.
  rewrite (shuffle_data_labels data labels 0 h eq_refl Hlen). simpl.
  rewrite !fn_lookup_insert, Hdata, Hlabels.
  eexists _, _. split; [by vm_compute|].
  split; [by vm_compute|].
  repeat split; try done; vm_compute; apply list_elem_of_here.
Qed.

(** C2. On the same input the training superset first selected is
    [0,2,3] and the test indices [1,4] are its complement, but the
    validation index 1 is not in that superset: it is a position inside
    [labels[train_indices]] (where it stands for index 2) used as an index
    of the whole arrays. *)
Theorem train_val_test_split_val_outside_train
    (data labels : nat) h (d0 d1 d2 d3 d4 : sample) :
  shuffle (RandomState 0) (samples_at h data) = [d0; d1; d2; d3; d4] →
  shuffle (RandomState 0) (vector_at h labels) = [0; 0; 1; 1; 1]%Z →
  ∃ ix split,
    split_indices 5 [0; 0; 1; 1; 1]%Z (SizeFloat (3#4)) (SizeFloat (1#2)) true
      = Returns ix ∧
    (train_val_test_split data labels (SizeFloat (3#4)) (SizeFloat (1#2))
       true h).1 = Returns split ∧
    train_superset ix = [0; 2; 3] ∧
    test_indices ix = setdiff1d (arange 5) (train_superset ix) ∧
    val_indices ix = [1] ∧
    ¬ (∀ i, i ∈ val_indices ix → i ∈ train_superset ix) ∧
    take_int [d0; d1; d2; d3; d4] (train_superset ix)
      = Returns [d0; d2; d3] ∧
    val_x split = [d1].
Proof.
  intros Hdata Hlabels.
  assert (length (samples_at h data) = length (vector_at h labels)) as Hlen.
  { rewrite <-(length_shuffle (RandomState 0) (samples_at h data)).
    rewrite <-(length_shuffle (RandomState 0) (vector_at h labels)).
    by rewrite Hdata, Hlabels. }
  unfold train_val_test_split.
  rewrite (shuffle_data_labels data labels 0 h eq_refl Hlen). simpl.
  rewrite !fn_lookup_insert, Hdata, Hlabels.
  eexists _, _. split; [by vm_compute|].
  split; [by vm_compute|].
  repeat split; try done.
  intros Hsub. specialize (Hsub 1). vm_compute in Hsub.
  specialize (Hsub (list_elem_of_here _ _)).
  repeat (apply elem_of_cons in Hsub as [Hsub|Hsub]; [done|]).
  by apply elem_of_nil in Hsub.
Qed.
End Split.

End SplitSpec.

(** ** cloud_detection/evaluate_L8CCA.py: reassembly of the patches *)

Module EvaluateFacts.
Import NumPy EvaluateL8CCA.

Lemma for_range_S {St} n (body : nat → St → outcome St) s :
  for_range (S n) body s = s' ← for_range n body s; body n s'.
Proof. unfold for_range. by rewrite seq_S, foldl_app. Qed.

Section Blocks.
Context {A : Type}.
Implicit Types (img patch : image A) (row : list A).

Lemma broadcast_to_same {X} n (l : list X) :
  length l = n → broadcast_to n l = Some l.
Proof. intros Hn. unfold broadcast_to. by rewrite decide_True. Qed.

Lemma mapM_broadcast_rows (width : list A → nat) (rows patch : list (list A)) :
  length patch = length rows →
  (∀ i row patch_row,
     rows !! i = Some row → patch !! i = Some patch_row →
     length patch_row = width row) →
  mapM (λ '(row, patch_row), broadcast_to (width row) patch_row)
    (zip rows patch) = Some patch.
Proof.
  revert patch. induction rows as [|row rows IH];
    intros [|patch_row patch] Hlen Hw; simplify_eq/=; [done|].
  rewrite broadcast_to_same by apply (Hw 0 row patch_row eq_refl eq_refl).
  simpl. rewrite IH; [done..|].
  intros i row' prow' Hr Hp. by apply (Hw (S i)).
Qed.

Lemma pixel_lookup img y x row :
  img !! y = Some row → pixel img y x = row !! x.
Proof. intros Hy. unfold pixel. by rewrite Hy. Qed.

Lemma pixel_is_Some h w img y x :
  has_shape h w img → y < h → x < w → is_Some (pixel img y x).
Proof.
  intros [Hh Hw] Hy Hx.
  destruct (lookup_lt_is_Some_2 img y) as [row Hrow]; [lia|].
  rewrite (pixel_lookup _ _ _ _ Hrow). apply lookup_lt_is_Some_2.
  by rewrite (Forall_lookup_1 _ _ _ _ Hw Hrow).
Qed.

(** Two images of one shape with the same pixels are equal. *)
Lemma image_ext h w img1 img2 :
  has_shape h w img1 → has_shape h w img2 →
  (∀ y x, y < h → x < w → pixel img1 y x = pixel img2 y x) →
  img1 = img2.
Proof.
  intros [Hh1 Hw1] [Hh2 Hw2] Hpx. apply list_eq. intros y.
  destruct (decide (y < h)) as [Hy|Hy].
  - destruct (lookup_lt_is_Some_2 img1 y) as [row1 Hrow1]; [lia|].
    destruct (lookup_lt_is_Some_2 img2 y) as [row2 Hrow2]; [lia|].
    rewrite Hrow1, Hrow2. f_equal. apply list_eq. intros x.
    pose proof (Forall_lookup_1 _ _ _ _ Hw1 Hrow1) as Hl1.
    pose proof (Forall_lookup_1 _ _ _ _ Hw2 Hrow2) as Hl2.
    simpl in Hl1, Hl2.
    destruct (decide (x < w)) as [Hx|Hx].
    + specialize (Hpx y x Hy Hx).
      by rewrite (pixel_lookup _ _ _ _ Hrow1), (pixel_lookup _ _ _ _ Hrow2) in Hpx.
    + by rewrite !lookup_ge_None_2 by lia.
  - by rewrite !lookup_ge_None_2 by lia.
Qed.

(** A block assignment inside the image, with a patch of the block's
    shape, succeeds; it overwrites the block and nothing else. *)
Lemma assign_block_inside ps r c patch img h w :
  has_shape h w img → has_shape ps ps patch →
  r * ps + ps ≤ h → c * ps + ps ≤ w →
  ∃ img',
    assign_block ps r c patch img = Returns img' ∧
    has_shape h w img' ∧
    ∀ y x,
      pixel img' y x =
        if decide ((r * ps ≤ y < r * ps + ps) ∧ (c * ps ≤ x < c * ps + ps))
        then pixel patch (y - r * ps) (x - c * ps)
        else pixel img y x.
Proof.
  intros [Hh Hw] [Hph Hpw] Hr Hc. unfold assign_block.
  set (rows := take ps (drop (r * ps) img)).
  assert (length rows = ps) as Hrows.
  { unfold rows. rewrite length_take, length_drop. lia. }
  assert (∀ i row, rows !! i = Some row →
                   img !! (r * ps + i) = Some row ∧ i < ps)
    as Hrows_lookup.
  { intros i row Hi. unfold rows in Hi.
    apply lookup_take_Some in Hi as [Hi ?]. by rewrite lookup_drop in Hi. }
  rewrite broadcast_to_same by lia. simpl.
  rewrite mapM_broadcast_rows; [|lia|]; last first.
  { intros i row prow Hi Hp. apply Hrows_lookup in Hi as [Hi _].
    rewrite length_take, length_drop.
    rewrite (Forall_lookup_1 _ _ _ _ Hw Hi), (Forall_lookup_1 _ _ _ _ Hpw Hp).
    lia. }
  set (new_rows := zip_with _ rows patch).
  assert (length new_rows = ps) as Hnew.
  { unfold new_rows. rewrite length_zip_with. lia. }
  eexists. split; [done|]. split.
  - split; [by rewrite length_inserts|].
    apply Forall_inserts; [done|]. apply Forall_lookup. intros i row' Hi.
    unfold new_rows in Hi.
    apply lookup_zip_with_Some in Hi as (row & prow & -> & Hrow & Hprow).
    rewrite length_inserts. apply Hrows_lookup in Hrow as [Hrow _].
    by apply (Forall_lookup_1 _ _ _ _ Hw Hrow).
  - intros y x. unfold pixel at 1.
    destruct (decide (r * ps ≤ y < r * ps + ps)) as [Hy|Hy]; last first.
    { rewrite decide_False by tauto.
      destruct (decide (y < r * ps)).
      - by rewrite list_lookup_inserts_lt.
      - by rewrite list_lookup_inserts_ge by lia. }
    rewrite list_lookup_inserts by lia.
    destruct (lookup_lt_is_Some_2 rows (y - r * ps)) as [row Hrow]; [lia|].
    destruct (lookup_lt_is_Some_2 patch (y - r * ps)) as [prow Hprow]; [lia|].
    unfold new_rows. rewrite lookup_zip_with, Hrow, Hprow. simpl.
    pose proof (Forall_lookup_1 _ _ _ _ Hpw Hprow) as Hlp. simpl in Hlp.
    apply Hrows_lookup in Hrow as [Hrow _].
    replace (r * ps + (y - r * ps)) with y in Hrow by lia.
    pose proof (Forall_lookup_1 _ _ _ _ Hw Hrow) as Hlr. simpl in Hlr.
    rewrite (pixel_lookup _ _ _ _ Hprow), (pixel_lookup _ _ _ _ Hrow).
    destruct (decide (c * ps ≤ x < c * ps + ps)) as [Hx|Hx].
    + rewrite decide_True by done. rewrite list_lookup_inserts by lia. done.
    + rewrite decide_False by tauto.
      destruct (decide (x < c * ps)).
      * by rewrite list_lookup_inserts_lt.
      * by rewrite list_lookup_inserts_ge by lia.
Qed.

Lemma div_mod_block ps k x :
  k * ps ≤ x < k * ps + ps → x `div` ps = k ∧ x `mod` ps = x - k * ps.
Proof.
  intros Hx. assert (ps ≠ 0) as Hps by lia.
  pose proof (Nat.div_mod_eq x ps) as Hdm.
  pose proof (Nat.mod_upper_bound x ps Hps) as Hmod.
  assert (x `div` ps = k) as Hk by nia. split; [done|]. nia.
Qed.

Lemma block_of_div_mod ps x :
  ps ≠ 0 →
  (x `div` ps) * ps ≤ x < (x `div` ps) * ps + ps ∧
  x - (x `div` ps) * ps = x `mod` ps.
Proof.
  intros Hps. pose proof (Nat.div_mod_eq x ps) as Hdm.
  pose proof (Nat.mod_upper_bound x ps Hps) as Hmod. nia.
Qed.

(** The inner loop over the columns [c < k] of grid row [r]. *)
Lemma inner_loop_pixels ps r (get : nat → option (image A)) img h w k :
  has_shape h w img → r * ps + ps ≤ h → k * ps ≤ w →
  (∀ c, c < k → ∃ patch, get c = Some patch ∧ has_shape ps ps patch) →
  ∃ img',
    for_range k (λ c img,
      match get c with
      | Some patch => assign_block ps r c patch img
      | None => Raises IndexError
      end) img = Returns img' ∧
    has_shape h w img' ∧
    ∀ y x,
      pixel img' y x =
        if decide ((r * ps ≤ y < r * ps + ps) ∧ x < k * ps)
        then patch ← get (x `div` ps); pixel patch (y - r * ps) (x `mod` ps)
        else pixel img y x.
Proof.
  intros Himg Hr. induction k as [|k IH]; intros Hk Hget.
  { exists img. split; [done|]. split; [done|]. intros y x.
    rewrite decide_False; [done | lia]. }
  destruct IH as (img_k & Hrun & Hshape & Hpx); [lia|auto|].
  destruct (Hget k) as (patch & Hpatch & Hpshape); [lia|].
  destruct (assign_block_inside ps r k patch img_k h w)
    as (img' & Hassign & Hshape' & Hpx'); [done|done|lia|lia|].
  exists img'. rewrite for_range_S, Hrun. simpl. rewrite Hpatch.
  split; [done|]. split; [done|]. intros y x.
  rewrite Hpx', Hpx.
  destruct (decide (r * ps ≤ y < r * ps + ps)) as [Hy|Hy]; last first.
  { rewrite !decide_False by tauto. done. }
  destruct (decide (k * ps ≤ x < k * ps + ps)) as [Hx|Hx].
  - destruct (div_mod_block ps k x Hx) as [-> ->].
    rewrite decide_True by done. rewrite decide_True by (split; [done|lia]).
    by rewrite Hpatch.
  - rewrite decide_False by tauto.
    destruct (decide (x < k * ps)).
    + rewrite !decide_True by (split; [done|lia]). done.
    + rewrite !decide_False by lia. done.
Qed.

(** The outer loop over the grid rows [r < k]. *)
Lemma outer_loop_pixels ps (preds : list (image A)) img h w rows cols k :
  has_shape h w img → rows * ps ≤ h → cols * ps ≤ w → k ≤ rows →
  length preds = rows * cols → Forall (has_shape ps ps) preds →
  ∃ img',
    for_range k (λ r img,
      for_range cols (λ c img,
        match preds !! (r * cols + c) with
        | Some patch => assign_block ps r c patch img
        | None => Raises IndexError
        end) img) img = Returns img' ∧
    has_shape h w img' ∧
    ∀ y x,
      pixel img' y x =
        if decide (y < k * ps ∧ x < cols * ps)
        then patch ← preds !! ((y `div` ps) * cols + x `div` ps);
             pixel patch (y `mod` ps) (x `mod` ps)
        else pixel img y x.
Proof.
  intros Himg Hrows Hcols Hk Hlen Hpreds. induction k as [|k IH].
  { exists img. split; [done|]. split; [done|]. intros y x.
    rewrite decide_False; [done | lia]. }
  destruct IH as (img_k & Hrun & Hshape & Hpx); [lia|].
  destruct (inner_loop_pixels ps k (λ c, preds !! (k * cols + c))
              img_k h w cols) as (img' & Hinner & Hshape' & Hpx');
    [done|nia|done| |].
  { intros c Hc.
    destruct (lookup_lt_is_Some_2 preds (k * cols + c)) as [patch Hpatch];
      [nia|].
    exists patch. split; [done|]. by eapply Forall_lookup_1. }
  exists img'. rewrite for_range_S, Hrun. simpl.
  split; [done|]. split; [done|]. intros y x.
  rewrite Hpx', Hpx.
  destruct (decide (x < cols * ps)) as [Hx|Hx]; last first.
  { rewrite !decide_False by tauto. done. }
  destruct (decide (k * ps ≤ y < k * ps + ps)) as [Hy|Hy].
  - destruct (div_mod_block ps k y Hy) as [-> ->].
    rewrite decide_True by done. rewrite decide_True by (split; [lia|done]).
    done.
  - rewrite decide_False by tauto.
    destruct (decide (y < k * ps)).
    + rewrite !decide_True by (split; [lia|done]). done.
    + rewrite !decide_False by lia. done.
Qed.

(** Where the reassembly puts every pixel: inside the grid it is the
    pixel of the patch of its block, outside it is the initial [inf]. *)
Lemma get_img_pred_pixels (inf : A) (preds : list (image A)) h w ps :
  ps ≠ 0 →
  length preds = (h `div` ps) * (w `div` ps) →
  Forall (has_shape ps ps) preds →
  ∃ img,
    get_img_pred inf preds (h, w) ps = Returns img ∧
    has_shape h w img ∧
    ∀ y x, y < h → x < w →
      pixel img y x =
        if decide (y < (h `div` ps) * ps ∧ x < (w `div` ps) * ps)
        then patch ← preds !! ((y `div` ps) * (w `div` ps) + x `div` ps);
             pixel patch (y `mod` ps) (x `mod` ps)
        else Some inf.
Proof.
  intros Hps Hlen Hpreds. unfold get_img_pred. simpl.
  rewrite decide_False by done. rewrite decide_True by done.
  set (img0 := replicate h (replicate w inf)).
  assert (has_shape h w img0) as Hshape0.
  { split; [apply length_replicate|].
    apply Forall_replicate, length_replicate. }
  pose proof (Nat.div_mod_eq h ps) as Hh.
  pose proof (Nat.div_mod_eq w ps) as Hw.
  destruct (outer_loop_pixels ps preds img0 h w (h `div` ps) (w `div` ps)
              (h `div` ps)) as (img & Hrun & Hshape & Hpx);
    [done|lia|lia|done|done|done|].
  exists img. split; [done|]. split; [done|].
  intros y x Hy Hx. rewrite Hpx. case_decide; [done|].
  unfold img0, pixel. rewrite lookup_replicate_2 by done. simpl.
  by rewrite lookup_replicate_2.
Qed.
End Blocks.

(** *** The row-major grid of tiles *)
Section Tiles.
Context {A : Type}.
Implicit Types (img : image A).

Lemma bind_singleton_fmap {X Y} (f : X → Y) (l : list X) :
  (x ← l; [f x]) = f <$> l.
Proof. induction l as [|x l IH]; [done|]. by rewrite bind_cons, IH. Qed.

Lemma grid_bind {Y} (g : nat → list Y) rows cols :
  (∀ r, r < rows → length (g r) = cols) →
  length (r ← seq 0 rows; g r) = rows * cols ∧
  ∀ r c, r < rows → c < cols →
    (r ← seq 0 rows; g r) !! (r * cols + c) = g r !! c.
Proof.
  induction rows as [|rows IH]; intros Hg.
  { split; [done|]. intros; lia. }
  destruct IH as [IHlen IHlookup]; [intros; apply Hg; lia|].
  rewrite seq_S, bind_app, bind_singleton. simpl. split.
  - rewrite length_app, IHlen, Hg by lia. lia.
  - intros r c Hr Hc. destruct (decide (r < rows)) as [Hlt|Hge].
    + rewrite lookup_app_l by (rewrite IHlen; nia). by apply IHlookup.
    + assert (r = rows) as -> by lia.
      rewrite lookup_app_r by (rewrite IHlen; lia).
      rewrite IHlen. f_equal. lia.
Qed.

Lemma tile_grid ps h w img :
  length (tile ps (h, w) img) = (h `div` ps) * (w `div` ps) ∧
  ∀ r c, r < h `div` ps → c < w `div` ps →
    tile ps (h, w) img !! (r * (w `div` ps) + c) = Some (tile_at ps r c img).
Proof.
  unfold tile. simpl.
  destruct (grid_bind
    (λ r, c ← seq 0 (w `div` ps); [ tile_at ps r c img ])
    (h `div` ps) (w `div` ps)) as [Hlen Hlookup].
  { intros r _. by rewrite bind_singleton_fmap, length_fmap, length_seq. }
  split; [done|]. intros r c Hr Hc. rewrite Hlookup by done.
  rewrite bind_singleton_fmap, list_lookup_fmap, lookup_seq_lt by done.
  done.
Qed.

Lemma tile_at_shape ps h w img r c :
  has_shape h w img → r * ps + ps ≤ h → c * ps + ps ≤ w →
  has_shape ps ps (tile_at ps r c img).
Proof.
  intros [Hh Hw] Hr Hc. unfold tile_at. split.
  - rewrite length_fmap, length_take, length_drop. lia.
  - apply Forall_fmap, Forall_take, Forall_drop.
    eapply Forall_impl; [exact Hw|]. intros row Hrow. unfold compose.
    cbn beta in *. rewrite length_take, length_drop, Hrow. lia.
Qed.

Lemma tile_at_pixel ps img r c i j :
  i < ps → j < ps →
  pixel (tile_at ps r c img) i j = pixel img (r * ps + i) (c * ps + j).
Proof.
  intros Hi Hj. unfold pixel, tile_at.
  rewrite list_lookup_fmap, lookup_take_lt, lookup_drop by done.
  destruct (img !! (r * ps + i)) as [row|]; [|done]. simpl.
  by rewrite lookup_take_lt, lookup_drop.
Qed.

Lemma tile_shapes ps h w img :
  ps ≠ 0 → has_shape h w img →
  Forall (has_shape ps ps) (tile ps (h, w) img).
Proof.
  intros Hps Himg. unfold tile. simpl.
  pose proof (Nat.div_mod_eq h ps) as Hh.
  pose proof (Nat.div_mod_eq w ps) as Hw.
  apply Forall_forall. intros patch Hpatch.
  apply list_elem_of_bind in Hpatch as (r & Hpatch & Hr).
  apply list_elem_of_bind in Hpatch as (c & Hpatch & Hc).
  apply list_elem_of_singleton in Hpatch as ->.
  apply elem_of_seq in Hr, Hc.
  apply (tile_at_shape ps h w img r c); [done|nia|nia].
Qed.
End Tiles.

End EvaluateFacts.

Module EvaluateSpec.
Import NumPy EvaluateL8CCA EvaluateFacts.

(** C10. When the stored height and width are exact multiples of
    [patch_size] (and the prediction holds one [patch_size × patch_size]
    patch per tile, so that the rearrangement and the assignments go
    through), every pixel of the returned array has been overwritten with
    the pixel of a patch; if no patch holds the placeholder [inf], neither
    does the returned prediction. *)
Theorem get_img_pred_overwrites_placeholder {A} (inf : A)
    (preds : list (image A)) (h w patch_size : nat) :
  patch_size ≠ 0 → h `mod` patch_size = 0 → w `mod` patch_size = 0 →
  length preds = (h `div` patch_size) * (w `div` patch_size) →
  Forall (has_shape patch_size patch_size) preds →
  ∃ img,
    get_img_pred inf preds (h, w) patch_size = Returns img ∧
    has_shape h w img ∧
    (∀ y x, y < h → x < w →
       ∃ patch v,
         preds !! ((y `div` patch_size) * (w `div` patch_size)
                   + x `div` patch_size) = Some patch ∧
         pixel patch (y `mod` patch_size) (x `mod` patch_size) = Some v ∧
         pixel img y x = Some v) ∧
    (Forall (Forall (Forall (λ v, v ≠ inf))) preds →
     Forall (Forall (λ v, v ≠ inf)) img).
Proof.
  intros Hps Hh Hw Hlen Hpreds.
  destruct (get_img_pred_pixels inf preds h w patch_size Hps Hlen Hpreds)
    as (img & Hrun & Hshape & Hpx).
  pose proof (Nat.div_mod_eq h patch_size) as Hhd.
  pose proof (Nat.div_mod_eq w patch_size) as Hwd.
  assert (∀ y x, y < h → x < w →
    ∃ patch v,
      preds !! ((y `div` patch_size) * (w `div` patch_size)
                + x `div` patch_size) = Some patch ∧
      pixel patch (y `mod` patch_size) (x `mod` patch_size) = Some v ∧
      pixel img y x = Some v) as Hcover.
  { intros y x Hy Hx. rewrite Hpx by done.
    rewrite decide_True by lia.
    assert (y `div` patch_size < h `div` patch_size) as Hr
      by (apply Nat.Div0.div_lt_upper_bound; lia).
    assert (x `div` patch_size < w `div` patch_size) as Hc
      by (apply Nat.Div0.div_lt_upper_bound; lia).
    destruct (lookup_lt_is_Some_2 preds
                ((y `div` patch_size) * (w `div` patch_size)
                 + x `div` patch_size)) as [patch Hpatch]; [nia|].
    pose proof (Forall_lookup_1 _ _ _ _ Hpreds Hpatch) as Hpshape.
    destruct (pixel_is_Some patch_size patch_size patch
                (y `mod` patch_size) (x `mod` patch_size)) as [v Hv];
      [done|by apply Nat.mod_upper_bound..|].
    exists patch, v. rewrite Hpatch. simpl. by rewrite Hv. }
  exists img. split; [done|]. split; [done|]. split; [done|].
  intros Hfinite. destruct Hshape as [Hheight Hwidth].
  apply Forall_lookup. intros y row Hrow.
  apply Forall_lookup. intros x v Hv.
  pose proof (Forall_lookup_1 _ _ _ _ Hwidth Hrow) as Hlrow. simpl in Hlrow.
  apply lookup_lt_Some in Hrow as Hy. apply lookup_lt_Some in Hv as Hx.
  destruct (Hcover y x) as (patch & v' & Hpatch & Hv' & Himg); [lia..|].
  rewrite (pixel_lookup _ _ _ _ Hrow), Hv in Himg. injection Himg as ->.
  pose proof (Forall_lookup_1 _ _ _ _ Hfinite Hpatch) as Hp.
  unfold pixel in Hv'.
  destruct (patch !! (y `mod` patch_size)) as [prow|] eqn:Hprow; [|done].
  simpl in Hv'.
  pose proof (Forall_lookup_1 _ _ _ _ Hp Hprow) as Hpr.
  by apply (Forall_lookup_1 _ _ _ _ Hpr Hv').
Qed.

(** C5. With height and width exact multiples of [patch_size], the
    reassembly puts the patch of grid coordinate [(r, c)] at pixel offset
    [(r * patch_size, c * patch_size)]; hence tiling an image into
    [patch_size × patch_size] patches in row-major order and reassembling
    them gives the image back. *)
Theorem tile_get_img_pred_roundtrip {A} (inf : A) (h w patch_size : nat) :
  patch_size ≠ 0 → h `mod` patch_size = 0 → w `mod` patch_size = 0 →
  (∀ preds : list (image A),
     length preds = (h `div` patch_size) * (w `div` patch_size) →
     Forall (has_shape patch_size patch_size) preds →
     ∃ out,
       get_img_pred inf preds (h, w) patch_size = Returns out ∧
       ∀ r c i j patch,
         r < h `div` patch_size → c < w `div` patch_size →
         i < patch_size → j < patch_size →
         preds !! (r * (w `div` patch_size) + c) = Some patch →
         pixel out (r * patch_size + i) (c * patch_size + j) = pixel patch i j) ∧
  (∀ img : image A,
     has_shape h w img →
     get_img_pred inf (tile patch_size (h, w) img) (h, w) patch_size
     = Returns img).
Proof.
  intros Hps Hh Hw.
  pose proof (Nat.div_mod_eq h patch_size) as Hhd.
  pose proof (Nat.div_mod_eq w patch_size) as Hwd.
  assert (∀ preds : list (image A),
     length preds = (h `div` patch_size) * (w `div` patch_size) →
     Forall (has_shape patch_size patch_size) preds →
     ∃ out,
       get_img_pred inf preds (h, w) patch_size = Returns out ∧
       has_shape h w out ∧
       ∀ r c i j patch,
         r < h `div` patch_size → c < w `div` patch_size →
         i < patch_size → j < patch_size →
         preds !! (r * (w `div` patch_size) + c) = Some patch →
         pixel out (r * patch_size + i) (c * patch_size + j) = pixel patch i j)
    as Hplace.
  { intros preds Hlen Hpreds.
    destruct (get_img_pred_pixels inf preds h w patch_size Hps Hlen Hpreds)
      as (out & Hrun & Hshape & Hpx).
    exists out. split; [done|]. split; [done|].
    intros r c i j patch Hr Hc Hi Hj Hpatch.
    rewrite Hpx by nia. rewrite decide_True by nia.
    destruct (div_mod_block patch_size r (r * patch_size + i)) as [-> ->]; [lia|].
    destruct (div_mod_block patch_size c (c * patch_size + j)) as [-> ->]; [lia|].
    rewrite Hpatch. simpl. f_equal; lia. }
  split.
  { intros preds Hlen Hpreds.
    destruct (Hplace preds Hlen Hpreds) as (out & Hrun & _ & Hpx). eauto. }
  intros img Himg.
  destruct (tile_grid patch_size h w img) as [Hlen Hlookup].
  destruct (Hplace (tile patch_size (h, w) img) Hlen
              (tile_shapes patch_size h w img Hps Himg))
    as (out & Hrun & Hshape & Hpx).
  rewrite Hrun. f_equal.
  apply (image_ext h w); [done..|]. intros y x Hy Hx.
  destruct (block_of_div_mod patch_size y Hps) as [Hyb Hym].
  destruct (block_of_div_mod patch_size x Hps) as [Hxb Hxm].
  assert (y `div` patch_size < h `div` patch_size) as Hr
    by (apply Nat.Div0.div_lt_upper_bound; lia).
  assert (x `div` patch_size < w `div` patch_size) as Hc
    by (apply Nat.Div0.div_lt_upper_bound; lia).
  specialize (Hpx (y `div` patch_size) (x `div` patch_size)
                (y `mod` patch_size) (x `mod` patch_size) _ Hr Hc
                (Nat.mod_upper_bound _ _ Hps) (Nat.mod_upper_bound _ _ Hps)
                (Hlookup _ _ Hr Hc)).
  rewrite tile_at_pixel in Hpx by (by apply Nat.mod_upper_bound).
  replace (y `div` patch_size * patch_size + y `mod` patch_size) with y
    in Hpx by lia.
  replace (x `div` patch_size * patch_size + x `mod` patch_size) with x
    in Hpx by lia.
  done.
Qed.

End EvaluateSpec.

(** ** cloud_detection/losses.py: the overlap metrics *)

Module LossesFacts.
Import Losses.
Open Scope Q_scope.

Lemma flatten_threshold (t : tensor) :
  flatten (threshold t) = map K_round (flatten t).
Proof. unfold flatten, threshold. by rewrite !concat_map. Qed.

Lemma zip_with_map_r {X Y Z'} (f : X → Y → Z') (g : Y → Y)
    (l : list X) (k : list Y) :
  zip_with f l (map g k) = zip_with (λ x y, f x (g y)) l k.
Proof.
  revert k. induction l as [|x l IH]; intros [|y k]; simpl; trivial.
  by rewrite IH.
Qed.

#[export] Instance ratio_proper : Proper (Qeq ==> Qeq ==> Qeq) ratio.
Proof.
  intros n n' Hn d d' Hd. unfold ratio.
  destruct (Qeq_bool d 0) eqn:Hz, (Qeq_bool d' 0) eqn:Hz'.
  - reflexivity.
  - apply Qeq_bool_iff in Hz. apply Qeq_bool_neq in Hz'.
    destruct Hz'. by rewrite <-Hd.
  - apply Qeq_bool_iff in Hz'. apply Qeq_bool_neq in Hz.
    destruct Hz. by rewrite Hd.
  - by rewrite Hn, Hd.
Qed.

Lemma ratio_zero n d : d == 0 → ratio n d == 0.
Proof.
  intros Hd. unfold ratio. apply Qeq_bool_iff in Hd. rewrite Hd. reflexivity.
Qed.

Lemma positive_spec p : positive p = true ↔ 1 # 2 < p.
Proof.
  unfold positive. rewrite negb_true_iff, <-not_true_iff_false, Qle_bool_iff.
  split; [apply Qnot_le_lt | apply Qlt_not_le].
Qed.

Lemma Qfloor_unit p : 0 <= p → p < 1 → Qfloor p = 0%Z.
Proof.
  intros H0 H1.
  assert (0 ≤ Qfloor p)%Z by (change 0%Z with (Qfloor 0); by apply Qfloor_resp_le).
  assert (Qfloor p < 1)%Z.
  { rewrite Zlt_Qlt. eapply Qle_lt_trans; [apply Qfloor_le|done]. }
  lia.
Qed.

(** On [0, 1], [K.round] is the threshold at one half. *)
Lemma K_round_unit p :
  0 <= p → p <= 1 → K_round p == if positive p then 1 else 0.
Proof.
  intros H0 H1. unfold K_round.
  destruct (Qle_lt_or_eq _ _ H1) as [Hlt|Heq].
  - rewrite (Qfloor_unit p H0 Hlt).
    assert (p - inject_Z 0 == p) as -> by (unfold inject_Z; ring).
    destruct (Qcompare_spec p (1 # 2)) as [He|Hl|Hg].
    + assert (positive p = false) as ->; [|reflexivity].
      apply not_true_iff_false. rewrite positive_spec. lra.
    + assert (positive p = false) as ->; [|reflexivity].
      apply not_true_iff_false. rewrite positive_spec. lra.
    + assert (positive p = true) as -> by by apply positive_spec.
      reflexivity.
  - rewrite (Qfloor_comp _ _ Heq). change (Qfloor 1) with 1%Z.
    change (inject_Z 1) with 1.
    assert ((p - 1 ?= 1 # 2) = Lt) as ->.
    { apply (proj1 (Qlt_alt _ _)). lra. }
    assert (positive p = true) as -> by (apply positive_spec; lra).
    reflexivity.
Qed.

Lemma K_sum_zip_with_zero (f : Q → Q → Q) (ts ps : list Q) :
  (∀ t p, (t, p) ∈ zip ts ps → f t p == 0) →
  K_sum (zip_with f ts ps) == 0.
Proof.
  revert ps. induction ts as [|t ts IH]; intros [|p ps] Hf; simpl;
    try reflexivity.
  rewrite (Hf t p) by apply list_elem_of_here.
  rewrite IH; [ring|]. intros t' p' Hin. by apply Hf, list_elem_of_further.
Qed.

(** A sum of zeros and ones counts the ones. *)
Lemma K_sum_indicator (f : Q → Q → Q) (P : Q → Q → bool) (ts ps : list Q) :
  (∀ t p, (t, p) ∈ zip ts ps → f t p == if P t p then 1 else 0) →
  K_sum (zip_with f ts ps)
  == inject_Z (Z.of_nat (length (filter (λ '(t, p), P t p = true) (zip ts ps)))).
Proof.
  revert ps. induction ts as [|t ts IH]; intros [|p ps] Hf; simpl;
    try reflexivity.
  rewrite (Hf t p) by apply list_elem_of_here.
  rewrite IH by (intros t' p' Hin; by apply Hf, list_elem_of_further).
  destruct (P t p) eqn:HP.
  - rewrite filter_cons_True by done. simpl length.
    rewrite Nat2Z.inj_succ, <-Z.add_1_l, inject_Z_plus. reflexivity.
  - rewrite filter_cons_False by (simpl; congruence). ring.
Qed.

End LossesFacts.

Module LossesSpec.
Import Losses LossesFacts.
Open Scope Q_scope.

Lemma threshold_zero_mask (t : tensor) : zero_mask t → zero_mask (threshold t).
Proof.
  unfold zero_mask. rewrite flatten_threshold. intros Hz.
  apply Forall_forall. intros x Hx.
  apply list_elem_of_In, in_map_iff in Hx as (q & <- & Hq).
  apply list_elem_of_In in Hq.
  pose proof (proj1 (Forall_forall _ _) Hz q Hq) as Hq0. simpl in Hq0.
  rewrite K_round_unit by (rewrite Hq0; lra).
  assert (positive q = false) as ->; [|reflexivity].
  apply not_true_iff_false. rewrite positive_spec, Hq0. lra.
Qed.

Lemma zero_masks_counts (y_true y_pred : tensor) :
  zero_mask y_true → zero_mask y_pred →
  true_positives y_true y_pred == 0 ∧
  false_positives y_true y_pred == 0 ∧
  false_negatives y_true y_pred == 0.
Proof.
  intros Ht Hp.
  assert (∀ t p, (t, p) ∈ zip (flatten y_true) (flatten y_pred) →
                 t == 0 ∧ p == 0) as Hzero.
  { intros t p Hin. split.
    - apply elem_of_zip_l in Hin. by apply (proj1 (Forall_forall _ _) Ht).
    - apply elem_of_zip_r in Hin. by apply (proj1 (Forall_forall _ _) Hp). }
  repeat split; apply K_sum_zip_with_zero; intros t p Hin;
    destruct (Hzero t p Hin) as [Ht0 Hp0]; rewrite Ht0, Hp0; ring.
Qed.

(** C7. When the ground truth and the prediction are both all-zero, the
    sums TP, FP and FN are zero (every denominator is), and the Jaccard
    index, the Dice coefficient, recall, precision and F1 are the defined
    value 0. *)
Theorem overlap_metrics_zero_on_empty_masks (y_true y_pred : tensor) :
  zero_mask y_true → zero_mask y_pred →
  true_positives y_true (threshold y_pred)
    + false_positives y_true (threshold y_pred)
    + false_negatives y_true (threshold y_pred) == 0 ∧
  JaccardIndexMetric y_true y_pred == 0 ∧
  DiceCoefMetric y_true y_pred == 0 ∧
  recall y_true y_pred == 0 ∧
  precision y_true y_pred == 0 ∧
  f1_score y_true y_pred == 0.
Proof.
  intros Ht Hp.
  destruct (zero_masks_counts y_true (threshold y_pred) Ht
              (threshold_zero_mask y_pred Hp)) as (Htp & Hfp & Hfn).
  assert (recall y_true y_pred == 0) as Hrecall.
  { unfold recall. apply ratio_zero. rewrite Htp, Hfn. ring. }
  assert (precision y_true y_pred == 0) as Hprecision.
  { unfold precision. apply ratio_zero. rewrite Htp, Hfp. ring. }
  split; [rewrite Htp, Hfp, Hfn; ring|].
  split; [unfold JaccardIndexMetric, jaccard_index; apply ratio_zero;
          rewrite Htp, Hfp, Hfn; ring|].
  split; [unfold DiceCoefMetric, dice_coefficient; apply ratio_zero;
          rewrite Htp, Hfp, Hfn; ring|].
  split; [done|]. split; [done|].
  unfold f1_score. apply ratio_zero. rewrite Hrecall, Hprecision. ring.
Qed.

Lemma binary_unit_entries (y_true y_pred : tensor) :
  binary_mask y_true → unit_mask y_pred →
  ∀ t p, (t, p) ∈ zip (flatten y_true) (flatten y_pred) →
    (t == 0 ∨ t == 1) ∧ K_round p == (if positive p then 1 else 0).
Proof.
  intros Ht Hp t p Hin. split.
  - apply elem_of_zip_l in Hin. by apply (proj1 (Forall_forall _ _) Ht).
  - apply elem_of_zip_r in Hin.
    destruct (proj1 (Forall_forall _ _) Hp p Hin) as [H0 H1].
    by apply K_round_unit.
Qed.

(** On masks, the sums over the rounded prediction count pixels. *)
Lemma thresholded_counts (y_true y_pred : tensor) :
  binary_mask y_true → unit_mask y_pred →
  true_positives y_true (threshold y_pred)
    == inject_Z (count_pixels is_tp y_true y_pred) ∧
  false_positives y_true (threshold y_pred)
    == inject_Z (count_pixels is_fp y_true y_pred) ∧
  false_negatives y_true (threshold y_pred)
    == inject_Z (count_pixels is_fn y_true y_pred).
Proof.
  intros Ht Hp. pose proof (binary_unit_entries y_true y_pred Ht Hp) as Hentry.
  unfold true_positives, false_positives, false_negatives, count_pixels.
  rewrite flatten_threshold, !zip_with_map_r.
  repeat split; apply K_sum_indicator; intros t p Hin;
    destruct (Hentry t p Hin) as [[Ht0|Ht1] Hround]; rewrite Hround;
    unfold is_tp, is_fp, is_fn;
    rewrite ?(Qeqb_comp _ _ Ht0 _ _ (Qeq_refl _)),
            ?(Qeqb_comp _ _ Ht1 _ _ (Qeq_refl _));
    rewrite ?Ht0, ?Ht1; destruct (positive p); simpl; ring.
Qed.

(** The metrics as modelled pass every parametrized test of
    tests/test_losses.py. *)
Lemma test_losses_pass :
  passes JaccardIndexLoss test_jaccard_index_loss = true ∧
  passes JaccardIndexMetric test_jaccard_index_metric = true ∧
  passes DiceCoefMetric test_dice_coef_metric = true ∧
  passes recall test_recall = true ∧
  passes precision test_precision = true ∧
  passes specificity test_specificity = true ∧
  passes f1_score test_f1_score = true.
Proof. repeat split; by vm_compute. Qed.

(** C3 (as amended). The Jaccard index metric is TP / (TP+FP+FN) with
    the three sums taken over the prediction rounded to 0 or 1: TP counts
    the pixels with truth 1 and prediction above one half, FP those with
    truth 0 and prediction above one half, FN those with truth 1 and
    prediction at most one half.  So defined it passes all fixtures of
    [TestJaccardIndexMetric]; the sums over the real-valued prediction are
    what [JaccardIndexLoss] uses, as its fixtures confirm. *)
Theorem jaccard_index_metric_thresholded :
  passes JaccardIndexMetric test_jaccard_index_metric = true ∧
  passes JaccardIndexLoss test_jaccard_index_loss = true ∧
  ∀ y_true y_pred : tensor,
    binary_mask y_true → unit_mask y_pred →
    JaccardIndexMetric y_true y_pred
    == ratio (inject_Z (count_pixels is_tp y_true y_pred))
         (inject_Z (count_pixels is_tp y_true y_pred
                    + count_pixels is_fp y_true y_pred
                    + count_pixels is_fn y_true y_pred)).
Proof.
  split; [by vm_compute|]. split; [by vm_compute|].
  intros y_true y_pred Ht Hp.
  destruct (thresholded_counts y_true y_pred Ht Hp) as (Htp & Hfp & Hfn).
  unfold JaccardIndexMetric, jaccard_index.
  rewrite Htp, Hfp, Hfn, !inject_Z_plus. reflexivity.
Qed.

(** C4 (as amended). For ground truth [[0,1],[1,1]] and prediction
    [[1,1],[1,1]], as in the fixtures: TP = 3, FP = 1, FN = 0, TN = 0;
    Jaccard index = 0.75, Dice = 6/7 = 0.857 to three decimals, recall =
    TP/(TP+FN) = 1, precision = TP/(TP+FP) = 0.75, specificity = 0 and
    F1 = 6/7. *)
Theorem metrics_example :
  true_positives [[[0; 1]; [1; 1]]] ones == 3 ∧
  false_positives [[[0; 1]; [1; 1]]] ones == 1 ∧
  false_negatives [[[0; 1]; [1; 1]]] ones == 0 ∧
  true_negatives [[[0; 1]; [1; 1]]] ones == 0 ∧
  JaccardIndexMetric [[[0; 1]; [1; 1]]] ones == 75 # 100 ∧
  DiceCoefMetric [[[0; 1]; [1; 1]]] ones == 6 # 7 ∧
  Qabs (DiceCoefMetric [[[0; 1]; [1; 1]]] ones - (857 # 1000)) < 5 # 10000 ∧
  recall [[[0; 1]; [1; 1]]] ones
    == true_positives [[[0; 1]; [1; 1]]] ones
       / (true_positives [[[0; 1]; [1; 1]]] ones
          + false_negatives [[[0; 1]; [1; 1]]] ones) ∧
  recall [[[0; 1]; [1; 1]]] ones == 1 ∧
  precision [[[0; 1]; [1; 1]]] ones
    == true_positives [[[0; 1]; [1; 1]]] ones
       / (true_positives [[[0; 1]; [1; 1]]] ones
          + false_positives [[[0; 1]; [1; 1]]] ones) ∧
  precision [[[0; 1]; [1; 1]]] ones == 75 # 100 ∧
  specificity [[[0; 1]; [1; 1]]] ones == 0 ∧
  f1_score [[[0; 1]; [1; 1]]] ones == 6 # 7 ∧
  Qabs (f1_score [[[0; 1]; [1; 1]]] ones - (857 # 1000)) < 5 # 10000.
Proof. repeat split; by vm_compute. Qed.

(** C3, the claim as stated: on the fixture with truth [[1,1],[0,0]] and
    prediction [[0.25,0.25],[0,0]] the sums over the real-valued prediction
    give 0.5 / 2 = 0.25, where [TestJaccardIndexMetric] expects 0. *)
Lemma jaccard_index_unthresholded_fails :
  binary_mask [[[1; 1]; [0; 0]]] ∧
  unit_mask [[[25 # 100; 25 # 100]; [0; 0]]] ∧
  ([[[1; 1]; [0; 0]]], [[[25 # 100; 25 # 100]; [0; 0]]], 0)
    ∈ test_jaccard_index_metric ∧
  jaccard_index [[[1; 1]; [0; 0]]] [[[25 # 100; 25 # 100]; [0; 0]]] == 1 # 4 ∧
  JaccardIndexMetric [[[1; 1]; [0; 0]]] [[[25 # 100; 25 # 100]; [0; 0]]] == 0 ∧
  ¬ (JaccardIndexMetric [[[1; 1]; [0; 0]]] [[[25 # 100; 25 # 100]; [0; 0]]]
     == jaccard_index [[[1; 1]; [0; 0]]] [[[25 # 100; 25 # 100]; [0; 0]]]) ∧
  assert_near
    (jaccard_index [[[1; 1]; [0; 0]]] [[[25 # 100; 25 # 100]; [0; 0]]]) 0
    = false ∧
  passes jaccard_index test_jaccard_index_metric = false.
Proof.
  split.
  { repeat constructor; (by left) || (by right). }
  split.
  { repeat constructor; by vm_compute. }
  split.
  { do 5 apply list_elem_of_further. apply list_elem_of_here. }
  split; [by vm_compute|]. split; [by vm_compute|].
  split; [intros Heq; by vm_compute in Heq|].
  split; by vm_compute.
Qed.

(** C4, the claim as stated: for ground truth [[1,1],[1,1]] and prediction
    [[0,1],[1,1]] one pixel of the truth is missed and none is wrongly
    predicted, so recall is 0.75 and precision is 1, not the other way
    round. *)
Lemma metrics_example_swapped_fails :
  recall ones [[[0; 1]; [1; 1]]] == 75 # 100 ∧
  precision ones [[[0; 1]; [1; 1]]] == 1 ∧
  ¬ (JaccardIndexMetric ones [[[0; 1]; [1; 1]]] == 75 # 100 ∧
     Qabs (DiceCoefMetric ones [[[0; 1]; [1; 1]]] - (857 # 1000)) < 5 # 10000 ∧
     recall ones [[[0; 1]; [1; 1]]] == 1 ∧
     precision ones [[[0; 1]; [1; 1]]] == 75 # 100 ∧
     specificity ones [[[0; 1]; [1; 1]]] == 0 ∧
     Qabs (f1_score ones [[[0; 1]; [1; 1]]] - (857 # 1000)) < 5 # 10000).
Proof.
  split; [by vm_compute|]. split; [by vm_compute|].
  intros (_ & _ & Hrecall & _). by vm_compute in Hrecall.
Qed.

End LossesSpec.

(** * Further properties *)

(** ** ml_intuition/data/utils.py: what the joint shuffle keeps *)

Module ShuffleLaws.
Import NumPy Utils NumPyFacts ShuffleFacts SplitSpec.

Section Store.
Context `{BitGenerator} {sample : Type}.
Implicit Types (h : @heap sample) (x : @ndarray sample).
Implicit Types (a b array : ref) (arrays : list ref).

Lemma same_entries_refl x : same_entries x x.
Proof. destruct x; simpl; reflexivity. Qed.

Lemma same_entries_trans x y z :
  same_entries x y → same_entries y z → same_entries x z.
Proof.
  destruct x, y, z; simpl; try done; intros Hxy Hyz; by rewrite Hxy.
Qed.

Lemma same_entries_shuffled seed x :
  same_entries (map_ndarray (λ A, shuffle (RandomState seed)) x) x.
Proof. destruct x; simpl; apply shuffle_Permutation. Qed.

Lemma shuffle_in_place_same_entries seed array a h :
  same_entries (read (shuffle_in_place seed array h) a) (read h a).
Proof.
  unfold shuffle_in_place. destruct (decide (a = array)) as [->|Hne].
  - rewrite read_map_in_place. apply same_entries_shuffled.
  - rewrite read_write_ne by done. apply same_entries_refl.
Qed.

Lemma foldl_shuffle_in_place_same_entries seed arrays a h :
  same_entries
    (read (foldl (λ h array, shuffle_in_place seed array h) h arrays) a)
    (read h a).
Proof.
  revert h. induction arrays as [|array arrays IH]; intros h; simpl.
  - apply same_entries_refl.
  - eapply same_entries_trans; [apply IH|].
    apply shuffle_in_place_same_entries.
Qed.

(** X1. [shuffle_arrays_together] loses, repeats and invents no entry:
    whatever the list of arrays (an array listed twice included) and whether
    or not the assertion passes, every array of the store holds afterwards
    the entries it held before, each as often, and keeps its length; an
    array that is not listed is left exactly as it was. *)
Theorem shuffle_arrays_together_keeps_entries arrays seed h a :
  let h' := (shuffle_arrays_together arrays seed h).2 in
  same_entries (read h' a) (read h a) ∧
  len (read h' a) = len (read h a) ∧
  (a ∉ arrays → read h' a = read h a).
Proof.
  unfold shuffle_arrays_together.
  destruct (same_lengths arrays h);
    [destruct (shuffle_each_cases seed arrays h) as [-> | ->]|]; simpl.
  - assert (same_entries
      (read (foldl (λ h array, shuffle_in_place seed array h) h arrays) a)
      (read h a)) as Hsame by apply foldl_shuffle_in_place_same_entries.
    split; [done|]. split.
    + destruct (read _ a), (read h a); simpl in *; try done;
        by apply Permutation_length.
    + intros Hnotin.
      apply (read_foldl_untouched (shuffle_in_place seed)); [|done].
      intros array h0 Hne. unfold shuffle_in_place. by apply read_write_ne.
  - split; [apply same_entries_refl|done].
  - split; [apply same_entries_refl|done].
Qed.

(** The shuffle undone: the swaps of [shuffle_loop], replayed backwards. *)
Lemma unshuffle_loop_shuffle_loop {A} i st (x : list A) :
  unshuffle_loop i st (shuffle_loop i st x) = x.
Proof.
  revert st x. induction i as [|i IH]; intros st x; simpl; [done|].
  destruct (random_interval st (S i)) as [j st']. by rewrite IH, swap_swap.
Qed.

Lemma shuffle_inj {A} st (x y : list A) :
  shuffle st x = shuffle st y → x = y.
Proof.
  intros Heq.
  assert (length x = length y) as Hlen.
  { by rewrite <-(length_shuffle st x), Heq, length_shuffle. }
  rewrite <-(unshuffle_loop_shuffle_loop (length x - 1) st x).
  rewrite <-(unshuffle_loop_shuffle_loop (length y - 1) st y).
  unfold shuffle in Heq. by rewrite Heq, Hlen.
Qed.

Lemma shuffled_inj seed x y :
  map_ndarray (λ A, shuffle (RandomState seed)) x
  = map_ndarray (λ A, shuffle (RandomState seed)) y → x = y.
Proof.
  destruct x, y; simpl; intros [= Heq]; f_equal; by eapply shuffle_inj.
Qed.

Lemma shuffle_in_place_inj seed array (kept : list ref) h1 h2 :
  agree_on kept (shuffle_in_place seed array h1)
    (shuffle_in_place seed array h2) →
  agree_on kept h1 h2.
Proof.
  intros Hagree a Ha. specialize (Hagree a Ha).
  unfold shuffle_in_place in Hagree.
  destruct (decide (a = array)) as [->|Hne].
  - rewrite !read_map_in_place in Hagree. by eapply shuffled_inj.
  - by rewrite !read_write_ne in Hagree.
Qed.

Lemma foldl_shuffle_in_place_inj seed arrays (kept : list ref) h1 h2 :
  agree_on kept (foldl (λ h array, shuffle_in_place seed array h) h1 arrays)
    (foldl (λ h array, shuffle_in_place seed array h) h2 arrays) →
  agree_on kept h1 h2.
Proof.
  revert h1 h2. induction arrays as [|array arrays IH]; intros h1 h2; [done|].
  simpl. intros Hagree. eapply shuffle_in_place_inj, IH, Hagree.
Qed.

(** X3. The joint shuffle loses no information: when the call passes its
    assertion on two stores and the two shuffled stores hold the same
    contents in some arrays, the two stores held the same contents in those
    arrays before.  Two different datasets are never shuffled into the same
    one, and this for any list of arrays, an array listed twice included. *)
Theorem shuffle_arrays_together_injective arrays seed (kept : list ref) h1 h2 :
  (shuffle_arrays_together arrays seed h1).1 = Returns () →
  (shuffle_arrays_together arrays seed h2).1 = Returns () →
  agree_on kept (shuffle_arrays_together arrays seed h1).2
    (shuffle_arrays_together arrays seed h2).2 →
  agree_on kept h1 h2.
Proof.
  unfold shuffle_arrays_together.
  destruct (same_lengths arrays h1); [|done].
  destruct (same_lengths arrays h2); [|done].
  destruct (shuffle_each_cases seed arrays h1) as [-> | ->]; [|done].
  destruct (shuffle_each_cases seed arrays h2) as [-> | ->]; [|done]. simpl.
  intros _ _. apply foldl_shuffle_in_place_inj.
Qed.

(** Shuffling two arrays of one length entry by entry is shuffling their
    pairs. *)
Lemma shuffle_zip {A B} st (x : list A) (y : list B) :
  length x = length y →
  shuffle st (zip x y) = zip (shuffle st x) (shuffle st y).
Proof.
  intros Hlen.
  rewrite <-(fst_zip x y) at 2 by lia.
  rewrite <-(snd_zip x y) at 3 by lia.
  rewrite !shuffle_fmap. by rewrite zip_fst_snd.
Qed.

(** X2. Shuffling a sample array and a label vector of one length together,
    with a seed [np.random.RandomState] accepts (an integer of
    [0 .. 2^32 - 1]), keeps every sample with its label: the (sample, label)
    pairs read position by position after the call are the shuffle of the
    pairs before, hence a rearrangement of them, and the sample and the label
    found at one position afterwards stood at one common position before. *)
Theorem shuffle_arrays_together_keeps_pairs data labels seed h :
  (0 ≤ seed < 2 ^ 32)%Z →
  length (samples_at h data) = length (vector_at h labels) →
  let h' :=
    (shuffle_arrays_together [SamplesRef data; VectorRef labels] seed h).2 in
  zip (samples_at h' data) (vector_at h' labels)
    = shuffle (RandomState seed)
        (zip (samples_at h data) (vector_at h labels)) ∧
  zip (samples_at h' data) (vector_at h' labels)
    ≡ₚ zip (samples_at h data) (vector_at h labels) ∧
  (∀ i s l,
     samples_at h' data !! i = Some s → vector_at h' labels !! i = Some l →
     ∃ j, samples_at h data !! j = Some s ∧ vector_at h labels !! j = Some l).
Proof.
  intros Hseed Hlen. apply legal_seed_spec in Hseed.
  rewrite (shuffle_data_labels data labels seed h Hseed Hlen). simpl.
  rewrite !fn_lookup_insert.
  assert (zip (shuffle (RandomState seed) (samples_at h data))
              (shuffle (RandomState seed) (vector_at h labels))
          = shuffle (RandomState seed)
              (zip (samples_at h data) (vector_at h labels))) as Hzip
    by (symmetry; by apply shuffle_zip).
  split; [done|]. rewrite Hzip.
  split; [apply shuffle_Permutation|].
  intros i s l Hs Hl.
  assert ((s, l) ∈ zip (samples_at h data) (vector_at h labels)) as Hin.
  { rewrite <-(shuffle_Permutation (RandomState seed)), <-Hzip.
    apply (list_elem_of_lookup_2 _ i). by rewrite lookup_zip_with, Hs, Hl. }
  apply list_elem_of_lookup in Hin as [j Hj]. exists j.
  apply lookup_zip_with_Some in Hj as (s' & l' & [= <- <-] & ? & ?). done.
Qed.

End Store.
End ShuffleLaws.

(** ** ml_intuition/data/utils.py: every branch of [_get_set_indices] *)

Module IndicesBranches.
Import NumPy Utils IndicesFacts.

Lemma unique_Z_nil labels : unique_Z labels = [] ↔ labels = [].
Proof.
  split; [|by intros ->].
  intros Hus. destruct labels as [|l labels]; [done|].
  assert (l ∈ unique_Z (l :: labels)) as Hl
    by apply elem_of_unique_Z, list_elem_of_here.
  rewrite Hus in Hl. by apply elem_of_nil in Hl.
Qed.

Lemma concatenate_per_class {A} (f : Z → list A) labels :
  concatenate (f <$> unique_Z labels)
  = if decide (labels = []) then Raises ValueError
    else Returns (concat (f <$> unique_Z labels)).
Proof.
  case_decide as Hl; [subst; reflexivity|].
  destruct (unique_Z labels) as [|u us] eqn:Hus; [|reflexivity].
  destruct Hl. by apply unique_Z_nil.
Qed.

Lemma mapM_slice_to_int {A} n (l : list (list A)) :
  mapM (slice_to (SizeInt n)) l = Returns (take (Z.to_nat n) <$> l).
Proof.
  induction l as [|x l IH]; [done|]. simpl in *. by rewrite IH.
Qed.

Lemma mapM_slice_to_float {A} q (l : list (list A)) :
  mapM (slice_to (SizeFloat q)) l
  = if decide (l = []) then Returns [] else Raises TypeError.
Proof. by destruct l. Qed.

(** The outcome of [_get_set_indices], branch by branch. *)
Lemma get_set_indices_cases labels size stratified :
  _get_set_indices labels size stratified =
    if negb (size_positive size) then Raises AssertionError
    else if stratified then
      if decide (labels = []) then Raises ValueError
      else match size with
           | SizeInt n =>
               Returns (IntIndices (concat
                 (class_prefix labels (λ _, Z.to_nat n) <$> unique_Z labels)))
           | SizeFloat q =>
               if Qltb q 1 then
                 Returns (IntIndices (concat
                   (class_prefix labels (λ li, int_mul (length li) size)
                      <$> unique_Z labels)))
               else Raises TypeError
           end
    else match size with
         | SizeInt n => Returns (IntIndices (arange (Z.to_nat n)))
         | SizeFloat q =>
             if Qltb q 1 then
               Returns (IntIndices (arange (int_mul (length labels) size)))
             else Returns (FloatIndices (arange (Z.to_nat (Qceiling q))))
         end.
Proof.
  unfold _get_set_indices.
  destruct (size_positive size) eqn:Hpos; simpl; [|done].
  destruct size as [n|q]; simpl in *.
  - apply bool_decide_eq_true in Hpos.
    rewrite (bool_decide_eq_true_2 (0 < n)%Z) by done.
    rewrite (bool_decide_eq_false_2 (n < 1)%Z) by lia.
    rewrite (bool_decide_eq_true_2 (1 ≤ n)%Z) by lia. simpl.
    destruct stratified; simpl; [|done].
    rewrite mapM_slice_to_int. simpl.
    rewrite (class_prefix_fmap labels (λ _, Z.to_nat n)).
    rewrite concatenate_per_class. by case_decide.
  - rewrite Hpos. simpl.
    destruct (Qltb q 1) eqn:Hq1; simpl.
    + destruct stratified; simpl; [|done].
      rewrite (class_prefix_fmap labels
                 (λ li, int_mul (length li) (SizeFloat q))).
      rewrite concatenate_per_class. by case_decide.
    + assert (Qle_bool 1 q = true) as Hge.
      { unfold Qltb in Hq1. by apply negb_false_iff in Hq1. }
      rewrite Hge. simpl. destruct stratified; simpl; [|done].
      rewrite mapM_slice_to_float.
      case_decide as Hnil.
      * apply fmap_nil_inv in Hnil. apply (proj1 (unique_Z_nil _)) in Hnil.
        by rewrite decide_True.
      * rewrite decide_False; [done|]. intros ->. by apply Hnil.
Qed.

Lemma per_class_in_range labels k i :
  i ∈ concat (class_prefix labels k <$> unique_Z labels) → i < length labels.
Proof.
  intros Hi. apply list_elem_of_In, in_concat in Hi as (block & Hblock & Hi).
  apply list_elem_of_In in Hblock, Hi.
  apply list_elem_of_fmap in Hblock as (label & -> & _).
  apply class_prefix_class in Hi. by eapply lookup_lt_Some.
Qed.

(** Whatever a stratified call returns is a duplicate-free list of integer
    positions of [labels]. *)
Lemma get_set_indices_stratified_in_range labels size idx :
  _get_set_indices labels size true = Returns idx →
  ∃ l, idx = IntIndices l ∧ NoDup l ∧ ∀ i, i ∈ l → i < length labels.
Proof.
  rewrite get_set_indices_cases. intros Hrun.
  destruct (negb (size_positive size)); [done|].
  destruct (decide (labels = [])) as [|Hne]; [done|].
  destruct size as [n|q]; [|destruct (Qltb q 1); [|done]];
    injection Hrun as <-; eexists; (split; [done|]);
    (split; [apply NoDup_concat_class_prefix, NoDup_unique_Z
            | apply per_class_in_range]).
Qed.

(** X4. The exceptions of [_get_set_indices]: [AssertionError] exactly
    when [size <= 0]; [ValueError] (of [np.concatenate] on no array)
    exactly for a positive size, [stratified=True] and an empty label
    vector; [TypeError] (a float as a slice bound) exactly for a float
    [size >= 1] with [stratified=True] and a label present; and no other
    exception: the [return] never meets an unbound [train_indices]. *)
Theorem get_set_indices_errors labels size stratified :
  (_get_set_indices labels size stratified = Raises AssertionError
     ↔ size_positive size = false) ∧
  (_get_set_indices labels size stratified = Raises ValueError
     ↔ size_positive size = true ∧ stratified = true ∧ labels = []) ∧
  (_get_set_indices labels size stratified = Raises TypeError
     ↔ stratified = true ∧ labels ≠ [] ∧ ∃ q, size = SizeFloat q ∧ (1 <= q)%Q) ∧
  (∀ e, _get_set_indices labels size stratified = Raises e →
     e = AssertionError ∨ e = ValueError ∨ e = TypeError).
Proof.
  rewrite get_set_indices_cases.
  destruct (size_positive size) eqn:Hpos; simpl.
  2: { split; [done|]. split; [split; [done | by intros (? & _)]|].
       split; [|intros e [= <-]; by left].
       split; [done|]. intros (_ & _ & q & -> & Hq). simpl in Hpos.
       apply not_true_iff_false in Hpos. destruct Hpos. apply Qltb_lt.
       by eapply Qlt_le_trans; [|apply Hq]. }
  destruct stratified.
  2: { destruct size as [n|q]; [|destruct (Qltb q 1)];
         (split; [done|]); (split; [split; [done | by intros (_ & ? & _)]|]);
         (split; [split; [done | by intros (? & _)] | done]). }
  destruct (decide (labels = [])) as [Hnil|Hne].
  { split; [done|]. split; [done|].
    split; [split; [done | by intros (_ & ? & _)]|].
    intros e [= <-]. by right; left. }
  destruct size as [n|q]; [|destruct (Qltb q 1) eqn:Hq1].
  - split; [done|]. split; [split; [done | by intros (_ & _ & ?)]|].
    split; [|done]. split; [done|]. by intros (_ & _ & q & ? & _).
  - split; [done|]. split; [split; [done | by intros (_ & _ & ?)]|].
    split; [|done]. split; [done|].
    intros (_ & _ & q' & [= <-] & Hq). apply Qltb_lt in Hq1.
    by apply Qle_not_lt in Hq.
  - split; [done|]. split; [split; [done | by intros (_ & _ & ?)]|].
    split; [|intros e [= <-]; by right; right].
    split; [|done]. intros _. split; [done|]. split; [done|].
    exists q. split; [done|]. apply Qle_bool_iff.
    unfold Qltb in Hq1. by apply negb_false_iff in Hq1.
Qed.

(** X5. With [stratified=True] and an int [size = n >= 1],
    [_get_set_indices] returns for every class its first [n] positions, and
    all its positions when the class has fewer than [n]: a class that is too
    small raises nothing.  The result has no duplicate and holds only
    positions of [labels]; an empty label vector raises [ValueError]. *)
Theorem get_set_indices_stratified_count (labels : list Z) (n : Z) :
  (1 ≤ n)%Z →
  (labels = [] →
     _get_set_indices labels (SizeInt n) true = Raises ValueError) ∧
  (labels ≠ [] →
     ∃ idx,
       _get_set_indices labels (SizeInt n) true = Returns (IntIndices idx) ∧
       NoDup idx ∧
       (∀ i, i ∈ idx → i < length labels) ∧
       ∀ c : Z,
         let class := where_eq labels c in
         let chosen := filter (λ i, labels !! i = Some c) idx in
         chosen = take (Z.to_nat n) class ∧
         length chosen = Z.to_nat n `min` length class).
Proof.
  intros Hn. rewrite get_set_indices_cases. simpl.
  rewrite (bool_decide_eq_true_2 (0 < n)%Z) by lia. simpl.
  split; [intros ->; by rewrite decide_True|].
  intros Hne. rewrite decide_False by done.
  set (k := λ _ : list nat, Z.to_nat n).
  eexists. split; [done|].
  split; [apply (NoDup_concat_class_prefix labels k), NoDup_unique_Z|].
  split; [apply per_class_in_range|].
  intros c. cbv zeta.
  set (class := where_eq labels c). set (chosen := filter _ _).
  assert (chosen = take (Z.to_nat n) class) as Hchosen.
  { unfold chosen.
    rewrite (filter_class_concat labels k c _ (NoDup_unique_Z labels)).
    case_decide as Hc; [done|].
    rewrite elem_of_unique_Z in Hc. unfold class.
    by rewrite (where_eq_absent labels c Hc), take_nil. }
  split; [done|]. by rewrite Hchosen, length_take.
Qed.

(** X6. With [stratified=False] the result depends on the labels only
    through their number [len]: for a float [0 < q < 1] it is the first
    [int(len * q)] positions, the product being the float product, rounded
    to binary64 before it is truncated; for fewer than [2^53] labels these
    are at most [len] positions, and their number is the floor of the exact
    product [len * q] or, where the float product rounds up to an integer,
    its ceiling.  For an int [1 <= n < 2^53] it is the positions
    [0 .. n-1], whether or not there are that many labels; for a float
    [q >= 1] it is a float array of [ceil(q)] values. *)
Theorem get_set_indices_global (labels : list Z) :
  (∀ q, (0 < q)%Q → (q < 1)%Q →
     let k := int_mul (length labels) (SizeFloat q) in
     let product := (inject_Z (Z.of_nat (length labels)) * q)%Q in
     _get_set_indices labels (SizeFloat q) false
       = Returns (IntIndices (seq 0 k)) ∧
     ((Z.of_nat (length labels) < 2 ^ 53)%Z →
        k ≤ length labels ∧
        (Qfloor product ≤ Z.of_nat k ≤ Qceiling product)%Z)) ∧
  (∀ n, (1 ≤ n < 2 ^ 53)%Z →
     _get_set_indices labels (SizeInt n) false
       = Returns (IntIndices (seq 0 (Z.to_nat n)))) ∧
  (∀ q, (1 <= q)%Q →
     _get_set_indices labels (SizeFloat q) false
       = Returns (FloatIndices (seq 0 (Z.to_nat (Qceiling q))))).
Proof.
  split; [|split].
  - intros q Hq0 Hq1 k product. rewrite get_set_indices_cases.
    cbn [size_positive].
    rewrite (proj2 (Qltb_lt 0 q) Hq0), (proj2 (Qltb_lt q 1) Hq1).
    cbn [negb]. split; [reflexivity|]. intros Hsmall.
    destruct (int_mul_float_bounds (length labels) q Hsmall Hq0 Hq1)
      as (Hle & Hlo & Hhi).
    split; [exact Hle|]. split; [exact Hlo | exact Hhi].
  - intros n Hn. rewrite get_set_indices_cases. simpl.
    by rewrite (bool_decide_eq_true_2 (0 < n)%Z) by lia.
  - intros q Hq. rewrite get_set_indices_cases. simpl.
    assert (0 < q)%Q as Hq0 by by eapply Qlt_le_trans; [|apply Hq].
    rewrite (proj2 (Qltb_lt 0 q) Hq0). simpl.
    assert (Qltb q 1 = false) as ->; [|done].
    unfold Qltb. apply negb_false_iff. by apply Qle_bool_iff.
Qed.

(** X7. [_get_set_indices] is monotone in a fractional size: for
    [0 < q <= q' < 1], in either mode, every index selected for [q] is
    selected for [q'], so that growing the fraction only adds samples. *)
Theorem get_set_indices_monotone (labels : list Z) (q q' : Q) stratified
    idx idx' :
  (0 < q)%Q → (q <= q')%Q → (q' < 1)%Q →
  _get_set_indices labels (SizeFloat q) stratified = Returns idx →
  _get_set_indices labels (SizeFloat q') stratified = Returns idx' →
  ∀ i, i ∈ index_values idx → i ∈ index_values idx'.
Proof.
  intros Hq0 Hqq Hq1.
  assert (0 < q')%Q as Hq0' by by eapply Qlt_le_trans.
  assert (q < 1)%Q as Hq1' by by eapply Qle_lt_trans.
  rewrite !get_set_indices_cases. cbn [size_positive].
  rewrite (proj2 (Qltb_lt 0 q) Hq0), (proj2 (Qltb_lt q 1) Hq1').
  rewrite (proj2 (Qltb_lt 0 q') Hq0'), (proj2 (Qltb_lt q' 1) Hq1).
  cbn [negb].
  destruct stratified.
  - destruct (decide (labels = [])); [done|].
    intros [= <-] [= <-] i. cbn [index_values].
    intros Hi. apply list_elem_of_In, in_concat in Hi as (block & Hblock & Hi).
    apply list_elem_of_In in Hblock, Hi.
    apply list_elem_of_fmap in Hblock as (label & -> & Hlabel).
    apply list_elem_of_In, in_concat.
    exists (class_prefix labels
              (λ li, int_mul (length li) (SizeFloat q')) label).
    split; apply list_elem_of_In.
    + apply list_elem_of_fmap. by exists label.
    + unfold class_prefix in *.
      apply elem_of_take in Hi as (j & Hj & Hlt). apply elem_of_take.
      exists j. split; [done|].
      eapply Nat.lt_le_trans; [exact Hlt|].
      exact (int_mul_float_mono (length (where_eq labels label)) q q'
               Hq0 Hqq).
  - intros [= <-] [= <-] i. unfold index_values, arange.
    rewrite !elem_of_seq.
    pose proof (int_mul_float_mono (length labels) q q' Hq0 Hqq) as Hle.
    lia.
Qed.

(** The positions of a class are as many as its labels, in any order of
    the labels. *)
Lemma length_where_eq_Permutation (l1 l2 : list Z) (c : Z) :
  l1 ≡ₚ l2 → length (where_eq l1 c) = length (where_eq l2 c).
Proof. intros Hp. rewrite !length_where_eq. by rewrite Hp. Qed.

Lemma where_eq_nonempty (labels : list Z) c :
  c ∈ labels → where_eq labels c ≠ [].
Proof.
  intros Hc Hnil. apply list_elem_of_lookup in Hc as [i Hi].
  apply elem_of_where_eq in Hi. rewrite Hnil in Hi. by apply elem_of_nil in Hi.
Qed.

Section PerClass.
Variables (labels : list Z) (k : list nat → nat).

Lemma per_class_nil :
  (∀ c, c ∈ labels → k (where_eq labels c) = 0) →
  concat (class_prefix labels k <$> unique_Z labels) = [].
Proof.
  intros Hzero. apply elem_of_nil_inv. intros i Hi.
  apply list_elem_of_In, in_concat in Hi as (block & Hblock & Hi).
  apply list_elem_of_In in Hblock, Hi.
  apply list_elem_of_fmap in Hblock as (c & -> & Hc).
  apply (proj1 (elem_of_unique_Z _ _)) in Hc. unfold class_prefix in Hi.
  rewrite (Hzero c Hc) in Hi. by apply elem_of_nil in Hi.
Qed.

Lemma per_class_elem c i :
  i ∈ concat (class_prefix labels k <$> unique_Z labels) →
  labels !! i = Some c →
  i ∈ class_prefix labels k c.
Proof.
  intros Hi Hc.
  assert (i ∈ filter (λ i, labels !! i = Some c)
                (concat (class_prefix labels k <$> unique_Z labels))) as Hf
    by by apply list_elem_of_filter.
  rewrite (filter_class_concat labels k c _ (NoDup_unique_Z labels)) in Hf.
  case_decide; [done|]. by apply elem_of_nil in Hf.
Qed.

Lemma per_class_prefix_elem c i :
  c ∈ labels → i ∈ class_prefix labels k c →
  i ∈ concat (class_prefix labels k <$> unique_Z labels).
Proof.
  intros Hc Hi. apply list_elem_of_In, in_concat.
  exists (class_prefix labels k c). split; apply list_elem_of_In; [|done].
  apply list_elem_of_fmap. exists c. split; [done|].
  by apply (proj2 (elem_of_unique_Z _ _)).
Qed.

(** A class of which fewer positions are chosen than it has keeps its last
    position out of the selection. *)
Lemma per_class_leaves_last c :
  c ∈ labels → k (where_eq labels c) < length (where_eq labels c) →
  ∃ i, labels !! i = Some c ∧
       i ∉ concat (class_prefix labels k <$> unique_Z labels).
Proof.
  intros Hc Hk. set (cls := where_eq labels c) in *.
  destruct (lookup_lt_is_Some_2 cls (length cls - 1)) as [i Hi]; [lia|].
  exists i. split.
  { apply elem_of_where_eq. by eapply list_elem_of_lookup_2. }
  intros Hin.
  apply (per_class_elem c) in Hin;
    [|apply elem_of_where_eq; by eapply list_elem_of_lookup_2].
  unfold class_prefix in Hin. fold cls in Hin.
  apply elem_of_take in Hin as (j & Hj & Hlt).
  pose proof (NoDup_lookup _ _ _ _ (NoDup_where_eq labels c) Hi Hj). lia.
Qed.
End PerClass.

(** When every class is taken whole, every position is selected. *)
Lemma per_class_all (labels : list Z) (k : list nat → nat) :
  (∀ c, c ∈ labels → length (where_eq labels c) ≤ k (where_eq labels c)) →
  concat (class_prefix labels k <$> unique_Z labels) ≡ₚ seq 0 (length labels).
Proof.
  intros Hall. apply NoDup_Permutation.
  - apply NoDup_concat_class_prefix, NoDup_unique_Z.
  - apply NoDup_seq.
  - intros i. rewrite elem_of_seq. split.
    + intros Hi. apply per_class_in_range in Hi. lia.
    + intros [_ Hi]. destruct (lookup_lt_is_Some_2 labels i Hi) as [c Hc].
      assert (c ∈ labels) as Hin by by eapply list_elem_of_lookup_2.
      apply (per_class_prefix_elem labels k c); [done|].
      unfold class_prefix. rewrite take_ge by by apply Hall.
      by apply elem_of_where_eq.
Qed.

End IndicesBranches.

(** ** ml_intuition/data/utils.py: outcomes of the three-way split *)

Module SplitFacts.
Import NumPy Utils NumPyFacts ShuffleFacts IndicesFacts IndicesBranches.
Import SplitSpec ShuffleLaws.

Lemma bind_Returns {A B} (a : A) (f : A → outcome B) :
  (Returns a ≫= f) = f a.
Proof. reflexivity. Qed.

Section Indexing.
Context {A : Type}.
Implicit Types (x : list A) (idx : list nat).

Lemma permute_in_range x idx :
  Forall (λ i, i < length x) idx →
  Forall2 (λ i y, x !! i = Some y) idx (permute idx x).
Proof.
  induction 1 as [|i idx Hi _ IH]; [constructor|].
  unfold permute in *. simpl.
  destruct (lookup_lt_is_Some_2 x i Hi) as [y Hy]. rewrite Hy. simpl.
  by constructor.
Qed.

Lemma length_permute x idx :
  Forall (λ i, i < length x) idx → length (permute idx x) = length idx.
Proof.
  intros Hall. symmetry. eapply Forall2_length, permute_in_range, Hall.
Qed.

(** Indexing by an integer index list: all indices are in range and the
    result is [x[idx]], or [IndexError]. *)
Lemma take_int_outcome x idx :
  take_int x idx =
    if decide (Forall (λ i, i < length x) idx) then Returns (permute idx x)
    else Raises IndexError.
Proof.
  unfold take_int. case_decide as Hall.
  - by rewrite (mapM_Some_2 _ _ _ (permute_in_range x idx Hall)).
  - destruct (mapM (λ i, x !! i) idx) as [r|] eqn:Hr; [|done].
    destruct Hall. apply mapM_Some_1 in Hr.
    apply Forall_forall. intros i Hi.
    apply list_elem_of_lookup in Hi as [j Hj].
    destruct (Forall2_lookup_l _ _ _ _ _ Hr Hj) as (y & _ & Hy).
    by eapply lookup_lt_Some.
Qed.

Lemma permute_all x : permute (seq 0 (length x)) x = x.
Proof. apply omap_fmap_Some, fmap_lookup_seq. Qed.

Lemma permute_Permutation x idx :
  idx ≡ₚ seq 0 (length x) → permute idx x ≡ₚ x.
Proof.
  intros Hidx. rewrite <-(permute_all x) at 2. unfold permute.
  by apply omap_Permutation.
Qed.

Lemma permute_app x idx1 idx2 :
  permute (idx1 ++ idx2) x = permute idx1 x ++ permute idx2 x.
Proof. apply omap_app. Qed.

Lemma permute_prefix x k : k ≤ length x → permute (seq 0 k) x = take k x.
Proof.
  intros Hk. apply omap_fmap_Some.
  assert (length (take k x) = k) as Hlen by (rewrite length_take; lia).
  rewrite <-(fmap_lookup_seq (take k x)), Hlen.
  apply Forall_fmap_ext_1, Forall_forall. intros i Hi.
  apply elem_of_seq in Hi. rewrite lookup_take_lt by lia. done.
Qed.

End Indexing.

Lemma permute_zip {A B} (x : list A) (y : list B) idx :
  length x = length y → Forall (λ i, i < length x) idx →
  zip (permute idx x) (permute idx y) = permute idx (zip x y).
Proof.
  intros Hlen. induction 1 as [|i idx Hi _ IH]; [done|].
  unfold permute in *. simpl.
  destruct (lookup_lt_is_Some_2 x i Hi) as [a Ha].
  destruct (lookup_lt_is_Some_2 y i ltac:(lia)) as [b Hb].
  assert (zip x y !! i = Some (a, b)) as Hab
    by by rewrite lookup_zip_with, Ha, Hb.
  rewrite Ha, Hb, Hab. simpl. f_equal. exact IH.
Qed.

Lemma NoDup_setdiff1d a b : NoDup (setdiff1d a b).
Proof. apply NoDup_filter, NoDup_unique_nat. Qed.

(** A prefix [0..k) of [0..n), cut into the positions listed in [v] and the
    others, and the rest [k..n): every position once. *)
Lemma prefix_partition n k v :
  k ≤ n → NoDup v → (∀ i, i ∈ v → i < k) →
  setdiff1d (seq 0 k) v ++ v ++ setdiff1d (seq 0 n) (seq 0 k) ≡ₚ seq 0 n.
Proof.
  intros Hk Hv Hin. apply NoDup_Permutation.
  - apply NoDup_app. split; [apply NoDup_setdiff1d|]. split.
    + intros i Hi [Hiv|Hit]%elem_of_app.
      * apply elem_of_setdiff1d in Hi as [_ Hi]. done.
      * apply elem_of_setdiff1d in Hi as [Hi _].
        apply elem_of_setdiff1d in Hit as [_ Hit]. done.
    + apply NoDup_app. split; [done|]. split; [|apply NoDup_setdiff1d].
      intros i Hiv Hit. apply elem_of_setdiff1d in Hit as [_ Hit].
      apply Hit, elem_of_seq. specialize (Hin i Hiv). lia.
  - apply NoDup_seq.
  - intros i. rewrite !elem_of_app, !elem_of_setdiff1d, !elem_of_seq. split.
    + intros [[Hi _]|[Hi|[Hi _]]]; try lia. specialize (Hin i Hi). lia.
    + intros Hi. destruct (decide (i < k)) as [Hik|Hik].
      * destruct (decide (i ∈ v)); [by right; left|].
        left. split; [lia | done].
      * right; right. split; [lia|]. lia.
Qed.

(** [split_indices] once the training superset is known. *)
Lemma split_indices_superset n labels train_size val_size stratified super :
  _get_set_indices labels train_size stratified = Returns (IntIndices super) →
  split_indices n labels train_size val_size stratified =
    train_labels ← take_int labels super;
    val ← _get_set_indices train_labels val_size true;
    Returns (SplitIndices super (setdiff1d super (index_values val))
               (index_values val) (setdiff1d (arange n) super)).
Proof. intros Hsuper. unfold split_indices. rewrite Hsuper. reflexivity. Qed.

(** In non-stratified mode the training superset is a prefix of the
    positions and the validation positions lie inside it. *)
Lemma split_indices_prefix n labels val_size k ix :
  (train_labels ← take_indices labels (IntIndices (arange k));
   val ← _get_set_indices train_labels val_size true;
   Returns
     (SplitIndices (arange k)
        (setdiff1d (arange k) (index_values val))
        (index_values val) (setdiff1d (arange n) (arange k))))
  = Returns ix →
  ∃ k, k ≤ length labels ∧ train_superset ix = seq 0 k ∧
     NoDup (val_indices ix) ∧ (∀ i, i ∈ val_indices ix → i < k) ∧
     train_indices ix = setdiff1d (seq 0 k) (val_indices ix) ∧
     test_indices ix = setdiff1d (seq 0 n) (seq 0 k).
Proof.
  intros Hrun. simpl in Hrun. rewrite take_int_outcome in Hrun.
  case_decide as Hall; [|done]. simpl in Hrun.
  assert (k ≤ length labels) as Hk.
  { destruct k as [|k]; [lia|].
    rewrite Forall_forall in Hall. specialize (Hall k).
    unfold arange in Hall. rewrite elem_of_seq in Hall. lia. }
  unfold arange in Hrun. rewrite permute_prefix in Hrun by done.
  destruct (_get_set_indices (take k labels) val_size true)
    as [val|] eqn:Hval; [|done].
  apply get_set_indices_stratified_in_range in Hval
    as (v & -> & Hnodup & Hrange).
  simpl in Hrun. injection Hrun as <-. simpl.
  exists k. repeat split; try done.
  intros i Hi. specialize (Hrange i Hi). rewrite length_take in Hrange. lia.
Qed.

Lemma split_indices_global n labels train_size val_size ix :
  split_indices n labels train_size val_size false = Returns ix →
  ∃ k, k ≤ length labels ∧ train_superset ix = seq 0 k ∧
       NoDup (val_indices ix) ∧ (∀ i, i ∈ val_indices ix → i < k) ∧
       train_indices ix = setdiff1d (seq 0 k) (val_indices ix) ∧
       test_indices ix = setdiff1d (seq 0 n) (seq 0 k).
Proof.
  unfold split_indices. rewrite get_set_indices_cases.
  destruct (negb (size_positive train_size)); [done|].
  destruct train_size as [n0|q].
  - intros Hrun. exact (split_indices_prefix n labels val_size _ ix Hrun).
  - destruct (Qltb q 1); [|done].
    generalize (int_mul (length labels) (SizeFloat q)). intros k Hrun.
    exact (split_indices_prefix n labels val_size k ix Hrun).
Qed.

Section Split.
Context `{BitGenerator} {sample : Type}.
Implicit Types (h : @heap sample) (split : @split_t sample).

Lemma train_val_test_split_mismatch data labels train_size val_size stratified h :
  length (samples_at h data) ≠ length (vector_at h labels) →
  train_val_test_split data labels train_size val_size stratified h
  = (Raises AssertionError, h).
Proof.
  intros Hlen. unfold train_val_test_split, shuffle_arrays_together.
  unfold same_lengths. simpl. rewrite Nat.eqb_refl. simpl.
  destruct (Nat.eqb_spec (length (vector_at h labels))
              (length (samples_at h data))) as [Heq|Hne]; [by destruct Hlen|].
  done.
Qed.

(** The body of [train_val_test_split] after the joint shuffle. *)
Lemma train_val_test_split_run data labels train_size val_size stratified h :
  length (samples_at h data) = length (vector_at h labels) →
  (train_val_test_split data labels train_size val_size stratified h).1
  = (let x := shuffle (RandomState 0) (samples_at h data) in
     let y := shuffle (RandomState 0) (vector_at h labels) in
     ix ← split_indices (length x) y train_size val_size stratified;
     train_x ← take_int x (train_indices ix);
     train_y ← take_int y (train_indices ix);
     val_x ← take_int x (val_indices ix);
     val_y ← take_int y (val_indices ix);
     test_x ← take_int x (test_indices ix);
     test_y ← take_int y (test_indices ix);
     Returns (Split train_x train_y val_x val_y test_x test_y)).
Proof.
  intros Hlen. unfold train_val_test_split.
  rewrite (shuffle_data_labels data labels 0 h eq_refl Hlen). simpl.
  by rewrite !fn_lookup_insert.
Qed.

(** What a call that returns has computed. *)
Lemma train_val_test_split_Returns data labels train_size val_size stratified
    h split :
  (train_val_test_split data labels train_size val_size stratified h).1
    = Returns split →
  let x := shuffle (RandomState 0) (samples_at h data) in
  let y := shuffle (RandomState 0) (vector_at h labels) in
  length (samples_at h data) = length (vector_at h labels) ∧
  ∃ ix,
    split_indices (length x) y train_size val_size stratified = Returns ix ∧
    Forall (λ i, i < length x) (train_indices ix) ∧
    Forall (λ i, i < length x) (val_indices ix) ∧
    Forall (λ i, i < length x) (test_indices ix) ∧
    split = Split (permute (train_indices ix) x) (permute (train_indices ix) y)
              (permute (val_indices ix) x) (permute (val_indices ix) y)
              (permute (test_indices ix) x) (permute (test_indices ix) y).
Proof.
  intros Hrun x y.
  destruct (decide (length (samples_at h data) = length (vector_at h labels)))
    as [Hlen|Hlen].
  2: { by rewrite train_val_test_split_mismatch in Hrun. }
  split; [done|].
  rewrite train_val_test_split_run in Hrun by done. cbv zeta in Hrun.
  fold x y in Hrun.
  destruct (split_indices (length x) y train_size val_size stratified)
    as [ix|]; [|done].
  simpl in Hrun. exists ix. split; [done|].
  rewrite !take_int_outcome in Hrun.
  assert (length y = length x) as Hxy.
  { unfold x, y. by rewrite !length_shuffle. }
  rewrite Hxy in Hrun.
  destruct (decide (Forall (λ i, i < length x) (train_indices ix)));
    [|done]. simpl in Hrun.
  destruct (decide (Forall (λ i, i < length x) (val_indices ix)));
    [|done]. simpl in Hrun.
  destruct (decide (Forall (λ i, i < length x) (test_indices ix)));
    [|done]. simpl in Hrun.
  by injection Hrun as <-.
Qed.

(** Non-stratified mode with a training prefix [0..k), [1 <= k <= len]:
    the call returns, training and validation share the prefix, the test set
    is the rest. *)
Lemma train_val_test_split_prefix data labels train_size qv k h :
  length (samples_at h data) = length (vector_at h labels) →
  (0 < qv)%Q → (qv < 1)%Q →
  _get_set_indices (shuffle (RandomState 0) (vector_at h labels)) train_size
    false = Returns (IntIndices (seq 0 k)) →
  1 ≤ k ≤ length (vector_at h labels) →
  ∃ split,
    (train_val_test_split data labels train_size (SizeFloat qv) false h).1
      = Returns split ∧
    length (train_x split) + length (val_x split) = k ∧
    length (test_x split) = length (vector_at h labels) - k.
Proof.
  intros Hlen Hqv0 Hqv1 Hsuper Hk.
  rewrite train_val_test_split_run by done. cbv zeta.
  set (x := shuffle (RandomState 0) (samples_at h data)).
  set (y := shuffle (RandomState 0) (vector_at h labels)) in *.
  assert (length y = length (vector_at h labels)) as Hy
    by apply length_shuffle.
  assert (length x = length y) as Hxy.
  { unfold x. by rewrite length_shuffle, Hlen. }
  unfold split_indices. rewrite Hsuper. simpl.
  rewrite take_int_outcome.
  rewrite decide_True
    by (apply Forall_forall; intros i Hi; apply elem_of_seq in Hi; lia).
  simpl. rewrite permute_prefix by lia.
  rewrite get_set_indices_cases. simpl.
  rewrite (proj2 (Qltb_lt 0 qv) Hqv0), (proj2 (Qltb_lt qv 1) Hqv1). simpl.
  rewrite decide_False.
  2: { intros Hnil. apply (f_equal length) in Hnil.
       rewrite length_take in Hnil. simpl in Hnil. lia. }
  simpl.
  set (v := concat _).
  assert (NoDup v) as Hnodup
    by apply NoDup_concat_class_prefix, NoDup_unique_Z.
  assert (∀ i, i ∈ v → i < k) as Hrange.
  { intros i Hi. apply per_class_in_range in Hi.
    rewrite length_take in Hi. lia. }
  pose proof (prefix_partition (length x) k v ltac:(lia) Hnodup Hrange)
    as Hparts.
  unfold arange.
  set (train := setdiff1d (seq 0 k) v) in *.
  set (test := setdiff1d (seq 0 (length x)) (seq 0 k)) in *.
  assert (Forall (λ i, i < length x) (train ++ v ++ test)) as Hall.
  { rewrite Hparts. apply Forall_forall. intros i Hi.
    apply elem_of_seq in Hi. lia. }
  rewrite !Forall_app in Hall. destruct Hall as (Htrain & Hval & Htest).
  rewrite !take_int_outcome. rewrite <-Hxy.
  rewrite !decide_True by done. simpl.
  eexists. split; [done|]. simpl.
  rewrite !length_permute by done.
  assert (train ++ v ≡ₚ seq 0 k) as Hprefix.
  { pose proof (prefix_partition k k v ltac:(lia) Hnodup Hrange) as Hkk.
    fold train in Hkk.
    assert (setdiff1d (seq 0 k) (seq 0 k) = []) as Hnone.
    { apply elem_of_nil_inv. intros i Hi.
      apply elem_of_setdiff1d in Hi as [? ?]. done. }
    by rewrite Hnone, app_nil_r in Hkk. }
  apply Permutation_length in Hprefix, Hparts.
  rewrite !length_app, !length_seq in *. lia.
Qed.

End Split.
End SplitFacts.

Module SplitOutcomes.
Import NumPy Utils NumPyFacts ShuffleFacts IndicesFacts IndicesBranches.
Import SplitSpec ShuffleLaws SplitFacts.

Section Split.
Context `{BitGenerator} {sample : Type}.
Implicit Types (h : @heap sample) (split : @split_t sample).

(** X8. The side effect of [train_val_test_split] on the arrays of its
    caller.  When [data] and [labels] differ in length the call raises
    [AssertionError] and the store is as it was.  Otherwise, whatever the
    call then returns or raises, [data] and [labels] have both been shuffled
    in place with seed 0, and no other array has changed: the shuffle is
    not undone when a later line raises. *)
Theorem train_val_test_split_store data labels train_size val_size stratified h :
  let r := train_val_test_split data labels train_size val_size stratified h in
  (length (samples_at h data) ≠ length (vector_at h labels) →
     r = (Raises AssertionError, h)) ∧
  (length (samples_at h data) = length (vector_at h labels) →
     samples_at r.2 data = shuffle (RandomState 0) (samples_at h data) ∧
     vector_at r.2 labels = shuffle (RandomState 0) (vector_at h labels) ∧
     (∀ l, l ≠ data → samples_at r.2 l = samples_at h l) ∧
     (∀ l, l ≠ labels → vector_at r.2 l = vector_at h l)).
Proof.
  intros r. split; [apply train_val_test_split_mismatch|].
  intros Hlen. unfold r, train_val_test_split.
  rewrite (shuffle_data_labels data labels 0 h eq_refl Hlen). simpl.
  rewrite !fn_lookup_insert. split; [done|]. split; [done|].
  split; intros l Hl; by rewrite fn_lookup_insert_ne.
Qed.

(** X9. Whenever [train_val_test_split] returns, in either mode: the six
    returned arrays are the shuffled data and labels read at the three index
    arrays; no training position is a validation position or a test
    position; every position of the dataset is in at least one of the three
    index arrays; hence every (sample, label) pair of the input is returned
    in at least one of the three sets. *)
Theorem train_val_test_split_covers data labels train_size val_size stratified
    h split :
  (train_val_test_split data labels train_size val_size stratified h).1
    = Returns split →
  let x := shuffle (RandomState 0) (samples_at h data) in
  let y := shuffle (RandomState 0) (vector_at h labels) in
  (∃ ix,
     split_indices (length x) y train_size val_size stratified = Returns ix ∧
     split = Split (permute (train_indices ix) x) (permute (train_indices ix) y)
               (permute (val_indices ix) x) (permute (val_indices ix) y)
               (permute (test_indices ix) x) (permute (test_indices ix) y) ∧
     (∀ i, i ∈ train_indices ix →
        (i ∉ val_indices ix) ∧ (i ∉ test_indices ix)) ∧
     (∀ i, i < length x →
        i ∈ train_indices ix ∨ i ∈ val_indices ix ∨ i ∈ test_indices ix)) ∧
  (∀ p, p ∈ zip (samples_at h data) (vector_at h labels) →
     p ∈ zip (train_x split) (train_y split) ∨
     p ∈ zip (val_x split) (val_y split) ∨
     p ∈ zip (test_x split) (test_y split)).
Proof.
  intros Hrun x y.
  destruct (train_val_test_split_Returns _ _ _ _ _ _ _ Hrun)
    as (Hlen & ix & Hix & Htrain & Hval & Htest & ->).
  fold x y in Hix, Htrain, Hval, Htest |- *.
  destruct (split_indices_parts _ _ _ _ _ _ Hix) as (Htv & Hte & Htt).
  assert (length x = length y) as Hxy.
  { unfold x, y. by rewrite !length_shuffle. }
  assert (∀ i, i < length x →
     i ∈ train_indices ix ∨ i ∈ val_indices ix ∨ i ∈ test_indices ix) as Hcover.
  { intros i Hi.
    destruct (decide (i ∈ train_superset ix)) as [Hsuper|Hsuper].
    - destruct (decide (i ∈ val_indices ix)) as [Hv|Hv]; [by right; left|].
      left. unfold split_indices in Hix.
      destruct (_get_set_indices y train_size stratified) as [super|];
        simpl in Hix; [|done].
      destruct (take_indices y super) as [train_labels|]; simpl in Hix; [|done].
      destruct (_get_set_indices train_labels val_size true) as [val|];
        simpl in Hix; [|done].
      injection Hix as <-. simpl in *. by apply elem_of_setdiff1d.
    - right; right. by apply Hte. }
  split.
  { exists ix. split; [done|]. split; [done|]. split; [|done].
    intros i Hi. split; [by apply Htv | by apply Htt]. }
  simpl. intros p Hp.
  assert (p ∈ zip x y) as Hp'.
  { unfold x, y. rewrite <-shuffle_zip by done.
    by rewrite shuffle_Permutation. }
  apply list_elem_of_lookup in Hp' as [i Hi].
  assert (i < length x) as Hlt.
  { apply lookup_lt_Some in Hi. rewrite length_zip in Hi. lia. }
  assert (∀ idx, Forall (λ i, i < length x) idx → i ∈ idx →
            p ∈ zip (permute idx x) (permute idx y)) as Hin.
  { intros idx Hall Hidx. rewrite permute_zip by done.
    apply list_elem_of_omap. by exists i. }
  destruct (Hcover i Hlt) as [?|[?|?]]; [left|right; left|right; right];
    by apply Hin.
Qed.

(** X10. With [stratified=False] a split that is returned is a partition
    of the dataset: the (sample, label) pairs of the training, validation
    and test sets together are a rearrangement of the pairs of the input,
    each pair returned exactly as often as it occurs; samples and labels of
    each set have one length; the three sizes add up to the size of the
    dataset. *)
Theorem train_val_test_split_global_partition data labels train_size val_size
    h split :
  (train_val_test_split data labels train_size val_size false h).1
    = Returns split →
  zip (train_x split ++ val_x split ++ test_x split)
      (train_y split ++ val_y split ++ test_y split)
    ≡ₚ zip (samples_at h data) (vector_at h labels) ∧
  length (train_x split) = length (train_y split) ∧
  length (val_x split) = length (val_y split) ∧
  length (test_x split) = length (test_y split) ∧
  length (train_x split) + length (val_x split) + length (test_x split)
    = length (samples_at h data).
Proof.
  intros Hrun.
  destruct (train_val_test_split_Returns _ _ _ _ _ _ _ Hrun)
    as (Hlen & ix & Hix & Htrain & Hval & Htest & ->).
  set (x := shuffle (RandomState 0) (samples_at h data)) in *.
  set (y := shuffle (RandomState 0) (vector_at h labels)) in *.
  assert (length x = length y) as Hxy.
  { unfold x, y. by rewrite !length_shuffle. }
  destruct (split_indices_global _ _ _ _ _ Hix)
    as (k & Hk & _ & Hnodup & Hrange & Htr & Hte).
  pose proof (prefix_partition (length x) k (val_indices ix)
                ltac:(lia) Hnodup Hrange) as Hparts.
  rewrite <-Htr, <-Hte in Hparts.
  set (all := train_indices ix ++ val_indices ix ++ test_indices ix) in *.
  assert (Forall (λ i, i < length x) all) as Hall.
  { unfold all. by rewrite !Forall_app. }
  simpl. rewrite <-!permute_app. fold all.
  split.
  { rewrite permute_zip by done.
    rewrite permute_Permutation
      by (rewrite length_zip, <-Hxy, Nat.min_id; exact Hparts).
    unfold x, y. rewrite <-shuffle_zip by done. apply shuffle_Permutation. }
  rewrite Hxy in Htrain, Hval, Htest.
  rewrite !length_permute by (done || by rewrite Hxy).
  split; [done|]. split; [done|]. split; [done|].
  rewrite <-Nat.add_assoc, <-!length_app. fold all.
  rewrite Hparts, length_seq.
  unfold x. by rewrite length_shuffle.
Qed.

(** X11. [train_val_test_split] with [stratified=False], an int
    [train_size = n] and a validation fraction [0 < val_size < 1], on arrays
    of one length [len]: [n <= 0] raises [AssertionError]; [n > len] raises
    [IndexError], at [labels[train_indices]]; for [1 <= n <= len] the call
    returns, with [n] samples in the training and validation sets together
    and [len - n] in the test set. *)
Theorem train_val_test_split_count_outcome data labels (n : Z) qv h :
  length (samples_at h data) = length (vector_at h labels) →
  (0 < qv)%Q → (qv < 1)%Q →
  let call :=
    (train_val_test_split data labels (SizeInt n) (SizeFloat qv) false h).1 in
  let len := length (samples_at h data) in
  ((n ≤ 0)%Z → call = Raises AssertionError) ∧
  ((1 ≤ n ≤ Z.of_nat len)%Z →
     ∃ split, call = Returns split ∧
       length (train_x split) + length (val_x split) = Z.to_nat n ∧
       length (test_x split) = len - Z.to_nat n) ∧
  ((Z.of_nat len < n)%Z → call = Raises IndexError).
Proof.
  intros Hlen Hqv0 Hqv1 call len.
  set (y := shuffle (RandomState 0) (vector_at h labels)).
  assert (length y = len) as Hy.
  { unfold y, len. by rewrite length_shuffle. }
  split; [|split].
  - intros Hn. unfold call. rewrite train_val_test_split_run by done.
    cbv zeta. unfold split_indices. rewrite get_set_indices_cases. simpl.
    by rewrite (bool_decide_eq_false_2 (0 < n)%Z) by lia.
  - intros Hn. unfold len. rewrite Hlen.
    apply train_val_test_split_prefix; try done; [|lia].
    rewrite get_set_indices_cases. simpl.
    by rewrite (bool_decide_eq_true_2 (0 < n)%Z) by lia.
  - intros Hn. unfold call. rewrite train_val_test_split_run by done.
    cbv zeta. fold y. unfold split_indices. rewrite get_set_indices_cases.
    simpl. rewrite (bool_decide_eq_true_2 (0 < n)%Z) by lia. simpl.
    rewrite take_int_outcome. rewrite decide_False; [done|].
    intros Hall. rewrite Forall_forall in Hall. specialize (Hall (length y)).
    unfold arange in Hall. rewrite elem_of_seq in Hall. lia.
Qed.

(** X12. [train_val_test_split] with [stratified=False], a float
    [0 < train_size < 1] (no float below one is above [1 - 2^-53]) and a
    fraction [0 < val_size < 1], on arrays of one length [len] below [2^53]:
    the training superset holds [k = int(len * train_size)] positions, the
    product being the float product, rounded to binary64 before it is
    truncated; [k] is the floor of the exact product or, where the float
    product rounds up to an integer, its ceiling (with three samples and the
    float [1/3], one position), and it is less than [len] unless the dataset
    is empty.  For [k = 0] (an empty dataset included) the call raises
    [ValueError], from [np.concatenate] when the validation indices of no
    label are computed; for [k >= 1] it returns, with [k] samples in the
    training and validation sets together and [len - k] in the test set. *)
Theorem train_val_test_split_fraction_outcome data labels (q qv : Q) h :
  length (samples_at h data) = length (vector_at h labels) →
  (Z.of_nat (length (samples_at h data)) < 2 ^ 53)%Z →
  (0 < q)%Q → (q <= 1 - 2 ^ (-53))%Q → (0 < qv)%Q → (qv < 1)%Q →
  let call :=
    (train_val_test_split data labels (SizeFloat q) (SizeFloat qv) false h).1 in
  let len := length (samples_at h data) in
  let k := int_mul len (SizeFloat q) in
  let product := (inject_Z (Z.of_nat len) * q)%Q in
  k < max 1 len ∧
  (Qfloor product ≤ Z.of_nat k ≤ Qceiling product)%Z ∧
  (k = 0 → call = Raises ValueError) ∧
  (1 ≤ k →
     ∃ split, call = Returns split ∧
       length (train_x split) + length (val_x split) = k ∧
       length (test_x split) = len - k).
Proof.
  intros Hlen Hsmall Hq0 Hq1' Hqv0 Hqv1 call len k product.
  assert (q < 1)%Q as Hq1.
  { assert (2 ^ (-53) == 1 # 9007199254740992)%Q as H53 by reflexivity.
    rewrite H53 in Hq1'. lra. }
  set (y := shuffle (RandomState 0) (vector_at h labels)).
  assert (length y = len) as Hy.
  { unfold y, len. by rewrite length_shuffle. }
  assert (_get_set_indices y (SizeFloat q) false
          = Returns (IntIndices (seq 0 k))) as Hsuper.
  { rewrite get_set_indices_cases. cbn [size_positive].
    rewrite (proj2 (Qltb_lt 0 q) Hq0), (proj2 (Qltb_lt q 1) Hq1).
    cbn [negb]. rewrite Hy. reflexivity. }
  pose proof (int_mul_float_bounds len q Hsmall Hq0 Hq1) as (Hk & Hlo & Hhi).
  fold k in Hk, Hlo, Hhi. fold product in Hlo, Hhi.
  split; [|split; [|split]].
  - destruct (decide (len = 0)) as [Hl|Hl].
    + rewrite Hl in Hk. lia.
    + pose proof (int_mul_float_lt len q ltac:(lia) Hsmall Hq0 Hq1') as Hlt.
      fold k in Hlt. lia.
  - split; [exact Hlo | exact Hhi].
  - intros Hk0. unfold call. rewrite train_val_test_split_run by done.
    cbv zeta. fold y. unfold split_indices. rewrite Hsuper, Hk0. simpl.
    rewrite get_set_indices_cases. simpl.
    by rewrite (proj2 (Qltb_lt 0 qv) Hqv0).
  - intros Hk1. unfold len. rewrite Hlen.
    apply train_val_test_split_prefix; try done.
    unfold len in Hk. rewrite Hlen in Hk. lia.
Qed.

(** X13. [train_val_test_split] with [stratified=True], a float
    [0 < train_size < 1] (no float below one is above [1 - 2^-53]) and a
    fraction [0 < val_size < 1], on arrays of one length below [2^53]: a
    class of [m] labels contributes [int(m * train_size)] positions to the
    training superset, the product being the float product, rounded to
    binary64 before it is truncated.  When that is 0 for every class (an
    empty dataset included) the call raises [ValueError]; as soon as it is
    at least 1 for one class (as for one class of three labels and the float
    [1/3]) the call returns, and every class of the dataset has at least one
    sample in the test set. *)
Theorem train_val_test_split_stratified_outcome data labels (q qv : Q) h :
  length (samples_at h data) = length (vector_at h labels) →
  (Z.of_nat (length (samples_at h data)) < 2 ^ 53)%Z →
  (0 < q)%Q → (q <= 1 - 2 ^ (-53))%Q → (0 < qv)%Q → (qv < 1)%Q →
  let call :=
    (train_val_test_split data labels (SizeFloat q) (SizeFloat qv) true h).1 in
  let share c :=
    int_mul (length (where_eq (vector_at h labels) c)) (SizeFloat q) in
  ((∀ c, share c = 0) → call = Raises ValueError) ∧
  (∀ c, 1 ≤ share c →
     ∃ split, call = Returns split ∧
       ∀ c', c' ∈ vector_at h labels → c' ∈ test_y split).
Proof.
  intros Hlen Hsmall Hq0 Hq1' Hqv0 Hqv1 call share.
  assert (q < 1)%Q as Hq1.
  { assert (2 ^ (-53) == 1 # 9007199254740992)%Q as H53 by reflexivity.
    rewrite H53 in Hq1'. lra. }
  set (x := shuffle (RandomState 0) (samples_at h data)).
  set (y := shuffle (RandomState 0) (vector_at h labels)).
  assert (y ≡ₚ vector_at h labels) as Hperm by apply shuffle_Permutation.
  assert (length x = length y) as Hxy.
  { unfold x, y. by rewrite !length_shuffle. }
  assert (Z.of_nat (length y) < 2 ^ 53)%Z as Hysmall.
  { rewrite <-Hxy. unfold x. by rewrite length_shuffle. }
  pose (k := λ li : list nat, int_mul (length li) (SizeFloat q)).
  assert (∀ c, k (where_eq y c) = share c) as Hshare.
  { intros c. unfold k, share.
    by rewrite (length_where_eq_Permutation _ _ c Hperm). }
  set (super := concat (class_prefix y k <$> unique_Z y)).
  assert (NoDup super) as Hnodup
    by apply NoDup_concat_class_prefix, NoDup_unique_Z.
  assert (Forall (λ i, i < length y) super) as Hsuper.
  { apply Forall_forall. intros i Hi. by apply per_class_in_range in Hi. }
  unfold call. rewrite train_val_test_split_run by done. cbv zeta. fold x y.
  destruct (decide (y = [])) as [Hnil|Hne].
  { split.
    - intros _. unfold split_indices. rewrite get_set_indices_cases.
      cbn [size_positive]. rewrite (proj2 (Qltb_lt 0 q) Hq0). cbn [negb].
      by rewrite decide_True.
    - intros c Hc. exfalso. rewrite <-Hshare in Hc. unfold k in Hc.
      rewrite Hnil in Hc. change (1 ≤ int_mul 0 (SizeFloat q)) in Hc.
      rewrite int_mul_float_0 in Hc. lia. }
  rewrite (split_indices_superset _ _ _ _ _ super).
  2: { rewrite get_set_indices_cases. cbn [size_positive].
       rewrite (proj2 (Qltb_lt 0 q) Hq0), (proj2 (Qltb_lt q 1) Hq1).
       cbn [negb]. by rewrite decide_False. }
  rewrite take_int_outcome, decide_True by done. rewrite bind_Returns.
  split.
  - intros Hzero.
    assert (super = []) as ->.
    { apply per_class_nil. intros c _. by rewrite Hshare. }
    rewrite get_set_indices_cases. simpl.
    by rewrite (proj2 (Qltb_lt 0 qv) Hqv0).
  - intros c Hc.
    assert (c ∈ y) as Hcy.
    { destruct (decide (c ∈ y)) as [|Hout]; [done|].
      rewrite <-Hshare in Hc. unfold k in Hc.
      rewrite (where_eq_absent y c Hout) in Hc.
      change (1 ≤ int_mul 0 (SizeFloat q)) in Hc.
      rewrite int_mul_float_0 in Hc. lia. }
    assert (length super ≤ length y) as Hshort.
    { transitivity (length (seq 0 (length y))); [|by rewrite length_seq].
      apply submseteq_length.
      apply NoDup_submseteq; [done|]. intros i Hi. apply elem_of_seq.
      rewrite Forall_forall in Hsuper. specialize (Hsuper i Hi). lia. }
    assert (∀ c', length (where_eq y c') ≤ length y) as Hclass.
    { intros c'. rewrite length_where_eq. apply length_filter. }
    assert (super ≠ []) as Hsome.
    { intros Hnil. rewrite <-Hshare in Hc.
      destruct (lookup_lt_is_Some_2 (where_eq y c) 0) as [i Hi].
      { pose proof (where_eq_nonempty y c Hcy) as Hcls.
        destruct (where_eq y c); [done|]. simpl. lia. }
      assert (i ∈ super) as Hin.
      { apply (per_class_prefix_elem y k c); [done|]. unfold class_prefix.
        apply elem_of_take. exists 0. split; [done|]. exact Hc. }
      rewrite Hnil in Hin. by apply elem_of_nil in Hin. }
    rewrite get_set_indices_cases. cbn [size_positive].
    rewrite (proj2 (Qltb_lt 0 qv) Hqv0), (proj2 (Qltb_lt qv 1) Hqv1).
    cbn [negb].
    rewrite decide_False.
    2: { intros Hnil. apply (f_equal length) in Hnil.
         rewrite length_permute in Hnil by done.
         destruct super; [done|]. simpl in Hnil. lia. }
    set (val := concat _).
    assert (Forall (λ i, i < length x) val) as Hval.
    { apply Forall_forall. intros i Hi. apply per_class_in_range in Hi.
      rewrite length_permute in Hi by done. lia. }
    rewrite !bind_Returns.
    cbn [index_values train_indices val_indices test_indices].
    assert (Forall (λ i, i < length x) (setdiff1d super val)) as Htrain.
    { apply Forall_forall. intros i Hi. apply elem_of_setdiff1d in Hi as [Hi _].
      rewrite Forall_forall in Hsuper. specialize (Hsuper i Hi). lia. }
    assert (Forall (λ i, i < length x) (setdiff1d (arange (length x)) super))
      as Htest.
    { apply Forall_forall. intros i Hi. apply elem_of_setdiff1d in Hi as [Hi _].
      unfold arange in Hi. apply elem_of_seq in Hi. lia. }
    rewrite !take_int_outcome. rewrite <-Hxy.
    rewrite !decide_True by done. rewrite !bind_Returns.
    eexists. split; [done|]. cbn [test_y].
    intros c' Hc'. rewrite <-Hperm in Hc'.
    destruct (per_class_leaves_last y k c' Hc') as (i & Hi & Hout).
    { pose proof (where_eq_nonempty y c' Hc') as Hcls.
      apply int_mul_float_lt; [|specialize (Hclass c'); lia|done..].
      destruct (where_eq y c'); [done|]. simpl. lia. }
    apply list_elem_of_omap. exists i. split; [|done].
    apply elem_of_setdiff1d. split; [|done].
    unfold arange. apply elem_of_seq. apply lookup_lt_Some in Hi. lia.
Qed.

(** X14. A float [train_size >= 1] (such as [1.0]) never gives a split.
    On arrays of one length the call raises, after the shuffle: with
    [stratified=True], [TypeError] (the float is used as a slice bound), or
    [ValueError] when there is no label at all; with [stratified=False],
    [IndexError] (the float array of [np.arange] is used as an index). *)
Theorem train_val_test_split_float_size data labels (q : Q) val_size
    stratified h :
  (1 <= q)%Q →
  length (samples_at h data) = length (vector_at h labels) →
  (train_val_test_split data labels (SizeFloat q) val_size stratified h).1
  = Raises (if stratified then
              if decide (vector_at h labels = []) then ValueError
              else TypeError
            else IndexError).
Proof.
  intros Hq Hlen. rewrite train_val_test_split_run by done. cbv zeta.
  set (y := shuffle (RandomState 0) (vector_at h labels)).
  unfold split_indices. rewrite get_set_indices_cases. simpl.
  assert (0 < q)%Q as Hq0 by by eapply Qlt_le_trans; [|apply Hq].
  rewrite (proj2 (Qltb_lt 0 q) Hq0). simpl.
  assert (Qltb q 1 = false) as ->.
  { unfold Qltb. apply negb_false_iff. by apply Qle_bool_iff. }
  destruct stratified; [|done].
  assert (y = [] ↔ vector_at h labels = []) as Hnil.
  { rewrite <-!length_zero_iff_nil. unfold y. by rewrite length_shuffle. }
  destruct (decide (vector_at h labels = [])) as [Hl|Hl].
  - by rewrite decide_True by by apply Hnil.
  - by rewrite decide_False by (by intros ?%Hnil).
Qed.

(** X19. [train_val_test_split] with [stratified=True], an int
    [train_size = n >= 1] and a validation fraction [0 < val_size < 1], on
    arrays of one length: an empty dataset raises [ValueError]; any other
    dataset gives a split, a class smaller than [n] being taken whole.  When
    no class has more than [n] labels the training superset is the whole
    dataset: the test set is returned empty, without any error, and the
    training and validation sets together hold every (sample, label) pair of
    the input exactly as often as it occurs. *)
Theorem train_val_test_split_stratified_count data labels (n : Z) (qv : Q)
    h :
  length (samples_at h data) = length (vector_at h labels) →
  (1 ≤ n)%Z → (0 < qv)%Q → (qv < 1)%Q →
  let call :=
    (train_val_test_split data labels (SizeInt n) (SizeFloat qv) true h).1 in
  (vector_at h labels = [] → call = Raises ValueError) ∧
  (vector_at h labels ≠ [] →
     ∃ split, call = Returns split ∧
       ((∀ c, length (where_eq (vector_at h labels) c) ≤ Z.to_nat n) →
          test_x split = [] ∧ test_y split = [] ∧
          zip (train_x split ++ val_x split) (train_y split ++ val_y split)
            ≡ₚ zip (samples_at h data) (vector_at h labels))).
Proof.
  intros Hlen Hn Hqv0 Hqv1 call.
  set (x := shuffle (RandomState 0) (samples_at h data)).
  set (y := shuffle (RandomState 0) (vector_at h labels)).
  assert (y ≡ₚ vector_at h labels) as Hperm by apply shuffle_Permutation.
  assert (length x = length y) as Hxy.
  { unfold x, y. by rewrite !length_shuffle. }
  assert (y = [] ↔ vector_at h labels = []) as Hnil.
  { rewrite <-!length_zero_iff_nil. unfold y. by rewrite length_shuffle. }
  pose (k := λ _ : list nat, Z.to_nat n).
  set (super := concat (class_prefix y k <$> unique_Z y)).
  assert (NoDup super) as Hnodup
    by apply NoDup_concat_class_prefix, NoDup_unique_Z.
  assert (Forall (λ i, i < length y) super) as Hsuper.
  { apply Forall_forall. intros i Hi. by apply per_class_in_range in Hi. }
  unfold call. rewrite train_val_test_split_run by done. cbv zeta. fold x y.
  split.
  { intros Hempty. unfold split_indices. rewrite get_set_indices_cases.
    cbn [size_positive]. rewrite (bool_decide_eq_true_2 (0 < n)%Z) by lia.
    cbn [negb]. by rewrite decide_True by by apply Hnil. }
  intros Hne.
  assert (y ≠ []) as Hyne by (by intros ?%Hnil).
  rewrite (split_indices_superset _ _ _ _ _ super).
  2: { rewrite get_set_indices_cases. cbn [size_positive].
       rewrite (bool_decide_eq_true_2 (0 < n)%Z) by lia.
       cbn [negb]. by rewrite decide_False. }
  rewrite take_int_outcome, decide_True by done. rewrite bind_Returns.
  assert (length super ≤ length y) as Hshort.
  { transitivity (length (seq 0 (length y))); [|by rewrite length_seq].
    apply submseteq_length.
    apply NoDup_submseteq; [done|]. intros i Hi. apply elem_of_seq.
    rewrite Forall_forall in Hsuper. specialize (Hsuper i Hi). lia. }
  assert (super ≠ []) as Hsome.
  { assert (0 < length y) as Hpos.
    { destruct (decide (length y = 0)) as [Hz|]; [|lia].
      by apply length_zero_iff_nil in Hz. }
    destruct (lookup_lt_is_Some_2 y 0 Hpos) as [c Hc0].
    assert (c ∈ y) as Hc by by eapply list_elem_of_lookup_2.
    pose proof (where_eq_nonempty y c Hc) as Hcls.
    destruct (where_eq y c) as [|i cls] eqn:Hw; [done|].
    intros Hnone.
    assert (i ∈ super) as Hin.
    { apply (per_class_prefix_elem y k c); [done|]. unfold class_prefix.
      rewrite Hw. apply elem_of_take. exists 0. split; [done|].
      unfold k. lia. }
    rewrite Hnone in Hin. by apply elem_of_nil in Hin. }
  rewrite get_set_indices_cases. cbn [size_positive].
  rewrite (proj2 (Qltb_lt 0 qv) Hqv0), (proj2 (Qltb_lt qv 1) Hqv1).
  cbn [negb].
  rewrite decide_False.
  2: { intros Hnone. apply (f_equal length) in Hnone.
       rewrite length_permute in Hnone by done.
       destruct super; [done|]. simpl in Hnone. lia. }
  set (val := concat _).
  assert (NoDup val) as Hvnodup
    by apply NoDup_concat_class_prefix, NoDup_unique_Z.
  assert (∀ i, i ∈ val → i < length super) as Hvrange.
  { intros i Hi. apply per_class_in_range in Hi.
    by rewrite length_permute in Hi. }
  assert (Forall (λ i, i < length x) val) as Hval.
  { apply Forall_forall. intros i Hi. specialize (Hvrange i Hi). lia. }
  rewrite !bind_Returns.
  cbn [index_values train_indices val_indices test_indices].
  assert (Forall (λ i, i < length x) (setdiff1d super val)) as Htrain.
  { apply Forall_forall. intros i Hi. apply elem_of_setdiff1d in Hi as [Hi _].
    rewrite Forall_forall in Hsuper. specialize (Hsuper i Hi). lia. }
  assert (Forall (λ i, i < length x) (setdiff1d (arange (length x)) super))
    as Htest.
  { apply Forall_forall. intros i Hi. apply elem_of_setdiff1d in Hi as [Hi _].
    unfold arange in Hi. apply elem_of_seq in Hi. lia. }
  rewrite !take_int_outcome. rewrite <-Hxy.
  rewrite !decide_True by done. rewrite !bind_Returns.
  eexists. split; [done|]. cbn [train_x train_y val_x val_y test_x test_y].
  intros Hsmall.
  assert (super ≡ₚ seq 0 (length x)) as Hfull.
  { rewrite Hxy. apply per_class_all. intros c _. unfold k.
    rewrite (length_where_eq_Permutation _ _ c Hperm). apply Hsmall. }
  assert (setdiff1d (arange (length x)) super = []) as Hnotest.
  { apply elem_of_nil_inv. intros i Hi.
    apply elem_of_setdiff1d in Hi as [Hi Hout]. apply Hout.
    by rewrite Hfull. }
  rewrite Hnotest. split; [done|]. split; [done|].
  assert (setdiff1d super val ++ val ≡ₚ seq 0 (length x)) as Hparts.
  { apply NoDup_Permutation.
    - apply NoDup_app. split; [apply NoDup_setdiff1d|]. split; [|done].
      intros i Hi Hv. by apply elem_of_setdiff1d in Hi as [_ Hi].
    - apply NoDup_seq.
    - intros i. rewrite elem_of_app, elem_of_setdiff1d, Hfull, elem_of_seq.
      split.
      + intros [[Hi _]|Hi]; [done|].
        rewrite Forall_forall in Hval. specialize (Hval i Hi). lia.
      + intros Hi. destruct (decide (i ∈ val)); [by right | by left]. }
  rewrite <-!permute_app.
  assert (Forall (λ i, i < length x) (setdiff1d super val ++ val)) as Hall
    by by rewrite Forall_app.
  rewrite permute_zip by done.
  rewrite permute_Permutation
    by (rewrite length_zip, <-Hxy, Nat.min_id; exact Hparts).
  unfold x, y. rewrite <-shuffle_zip by done. apply shuffle_Permutation.
Qed.

End Split.
End SplitOutcomes.

(** ** cloud_detection/evaluate_L8CCA.py: borders and shapes *)

Module EvaluateBorders.
Import NumPy EvaluateL8CCA EvaluateFacts.

Lemma for_range_raises {St} n (body : nat → St → outcome St) s e :
  body 0 s = Raises e → for_range (S n) body s = Raises e.
Proof.
  intros Hfirst. unfold for_range. simpl. rewrite Hfirst.
  induction (seq 1 n) as [|x l IH]; [done|]. simpl. exact IH.
Qed.

Section Blocks.
Context {A : Type}.
Implicit Types (img patch : image A) (row : list A).

Lemma broadcast_to_mismatch {X} n (l : list X) :
  length l ≠ n → length l ≠ 1 → broadcast_to n l = None.
Proof.
  intros Hn H1. unfold broadcast_to. rewrite decide_False by done.
  by destruct l as [|x [|x' l]].
Qed.

Lemma broadcast_to_length {X} n (l l' : list X) :
  broadcast_to n l = Some l' → length l' = n.
Proof.
  unfold broadcast_to. case_decide as Hn; [by intros [= <-]|].
  destruct l as [|x [|x' l]]; try done.
  intros [= <-]. apply length_replicate.
Qed.

Lemma broadcast_to_rows n (l l' : image A) dc :
  Forall (λ row, length row = dc) l → broadcast_to n l = Some l' →
  Forall (λ row, length row = dc) l'.
Proof.
  intros Hl. unfold broadcast_to. case_decide as Hn; [by intros [= <-]|].
  destruct l as [|x [|x' l]]; try done.
  intros [= <-]. apply Forall_replicate. by apply Forall_inv in Hl.
Qed.

(** The first block of an image that holds at least one block, with a
    patch that does not broadcast to [patch_size × patch_size]. *)
Lemma assign_block_mismatch ps patch img h w dr dc :
  ps ≠ 0 → has_shape h w img → ps ≤ h → ps ≤ w →
  has_shape dr dc patch →
  (dr ≠ ps ∧ dr ≠ 1) ∨ (dc ≠ ps ∧ dc ≠ 1) →
  assign_block ps 0 0 patch img = Raises ValueError.
Proof.
  intros Hps [Hh Hw] Hph Hpw [Hdr Hdc] Hbad. unfold assign_block. simpl.
  rewrite !drop_0.
  assert (length (take ps img) = ps) as Hrows by (rewrite length_take; lia).
  rewrite Hrows.
  destruct (broadcast_to ps patch) as [patch_rows|] eqn:Hb; [|done]. simpl.
  destruct Hbad as [[? ?]|[Hc1 Hc2]].
  { rewrite broadcast_to_mismatch in Hb by lia. done. }
  pose proof (broadcast_to_length _ _ _ Hb) as Hlen.
  pose proof (broadcast_to_rows _ _ _ _ Hdc Hb) as Hcols.
  destruct (take ps img) as [|row rows] eqn:Htake; [simpl in Hrows; lia|].
  destruct patch_rows as [|prow prows]; [simpl in Hlen; lia|].
  simpl.
  assert (length row = w) as Hrow.
  { assert (row ∈ take ps img) as Hin
      by (rewrite Htake; apply list_elem_of_here).
    apply elem_of_take in Hin as (i & Hi & _).
    by apply (Forall_lookup_1 _ _ _ _ Hw Hi). }
  apply Forall_inv in Hcols. simpl in Hcols.
  rewrite broadcast_to_mismatch; [done| |lia].
  rewrite length_take, length_drop. lia.
Qed.

Lemma pixel_ne (bad : A) img y x :
  Forall (Forall (λ v, v ≠ bad)) img → pixel img y x ≠ Some bad.
Proof.
  intros Hgood Hpx. unfold pixel in Hpx.
  destruct (img !! y) as [row|] eqn:Hrow; [|done]. simpl in Hpx.
  pose proof (Forall_lookup_1 _ _ _ _ Hgood Hrow) as Hr.
  by apply (Forall_lookup_1 _ _ _ _ Hr Hpx).
Qed.

(** X15. Height and width need not be multiples of [patch_size]: with
    one [patch_size × patch_size] patch per tile of the grid of
    [int(h / patch_size)] by [int(w / patch_size)] tiles, [get_img_pred]
    returns an array of the stored shape in which every pixel below the last
    full row of tiles or right of the last full column is still the
    placeholder [inf]; if no patch holds the placeholder, these are the only
    pixels that do. *)
Theorem get_img_pred_border_keeps_placeholder (inf : A)
    (preds : list (image A)) (h w patch_size : nat) :
  patch_size ≠ 0 →
  length preds = (h `div` patch_size) * (w `div` patch_size) →
  Forall (has_shape patch_size patch_size) preds →
  ∃ img,
    get_img_pred inf preds (h, w) patch_size = Returns img ∧
    has_shape h w img ∧
    (∀ y x, y < h → x < w →
       (h `div` patch_size) * patch_size ≤ y ∨
       (w `div` patch_size) * patch_size ≤ x →
       pixel img y x = Some inf) ∧
    (Forall (Forall (Forall (λ v, v ≠ inf))) preds →
     ∀ y x, y < h → x < w →
       pixel img y x = Some inf ↔
       (h `div` patch_size) * patch_size ≤ y ∨
       (w `div` patch_size) * patch_size ≤ x).
Proof.
  intros Hps Hlen Hpreds.
  destruct (get_img_pred_pixels inf preds h w patch_size Hps Hlen Hpreds)
    as (img & Hrun & Hshape & Hpx).
  exists img. split; [done|]. split; [done|]. split.
  - intros y x Hy Hx Hout. rewrite Hpx by done.
    rewrite decide_False by lia. done.
  - intros Hfinite y x Hy Hx. rewrite Hpx by done.
    case_decide as Hin; [|split; [lia|done]].
    split; [|lia]. intros Hinf. exfalso.
    destruct (preds !! (y `div` patch_size * (w `div` patch_size)
                        + x `div` patch_size)) as [patch|] eqn:Hpatch;
      [|done].
    simpl in Hinf.
    pose proof (Forall_lookup_1 _ _ _ _ Hfinite Hpatch) as Hp.
    exact (pixel_ne inf patch _ _ Hp Hinf).
Qed.

(** X16. The shape errors of [get_img_pred].  A prediction that does not
    hold [int(h / patch_size) * int(w / patch_size)] patches makes
    [rearrange] raise.  With the right number of patches, an image of at
    least one tile, and patches of a shape [dr × dc] that is neither
    [patch_size] nor 1 in one of its two dimensions, the first assignment
    [img[0:patch_size, 0:patch_size] = preds[0, 0]] cannot broadcast and
    raises [ValueError]. *)
Theorem get_img_pred_shape_errors (inf : A) (preds : list (image A))
    (h w patch_size dr dc : nat) :
  patch_size ≠ 0 →
  (length preds ≠ (h `div` patch_size) * (w `div` patch_size) →
     get_img_pred inf preds (h, w) patch_size = Raises EinopsError) ∧
  (length preds = (h `div` patch_size) * (w `div` patch_size) →
   patch_size ≤ h → patch_size ≤ w →
   Forall (has_shape dr dc) preds →
   (dr ≠ patch_size ∧ dr ≠ 1) ∨ (dc ≠ patch_size ∧ dc ≠ 1) →
     get_img_pred inf preds (h, w) patch_size = Raises ValueError).
Proof.
  intros Hps. unfold get_img_pred. simpl. rewrite decide_False by done.
  split; [intros Hlen; by rewrite decide_False|].
  intros Hlen Hh Hw Hshapes Hbad. rewrite decide_True by done.
  assert (1 ≤ h `div` patch_size) as Hrows
    by (apply Nat.div_le_lower_bound; lia).
  assert (1 ≤ w `div` patch_size) as Hcols
    by (apply Nat.div_le_lower_bound; lia).
  destruct (h `div` patch_size) as [|rows]; [lia|].
  destruct (w `div` patch_size) as [|cols]; [lia|].
  destruct preds as [|patch preds]; [simpl in Hlen; lia|].
  apply for_range_raises, for_range_raises. simpl.
  apply (assign_block_mismatch patch_size patch _ h w dr dc); try done.
  - split; [apply length_replicate|].
    apply Forall_replicate, length_replicate.
  - by apply Forall_inv in Hshapes.
Qed.

Lemma mapM_broadcast_widths (width : list A → nat) (rows prows out : image A) :
  mapM (λ '(row, patch_row), broadcast_to (width row) patch_row)
    (zip rows prows) = Some out →
  length out = length rows `min` length prows ∧
  ∀ i row orow, rows !! i = Some row → out !! i = Some orow →
                length orow = width row.
Proof.
  revert prows out. induction rows as [|row rows IH]; intros prows out Hm.
  { simpl in Hm. injection Hm as <-. split; [done|]. by intros i ? ? ?. }
  destruct prows as [|prow prows].
  { simpl in Hm. injection Hm as <-. split; [done|]. by intros i ? ? ? ?. }
  simpl in Hm.
  destruct (broadcast_to (width row) prow) as [orow0|] eqn:Hb; [|done].
  simpl in Hm.
  destruct (mapM _ (zip rows prows)) as [out'|] eqn:Hrest; [|done].
  simpl in Hm. injection Hm as <-.
  destruct (IH prows out' Hrest) as [Hlen Hw]. split; [simpl; lia|].
  intros [|i] r o Hr Ho; simplify_eq/=.
  - by eapply broadcast_to_length.
  - by eapply Hw.
Qed.

(** A block assignment that goes through keeps the shape of the image. *)
Lemma assign_block_shape ps r c patch img img' h w :
  has_shape h w img → assign_block ps r c patch img = Returns img' →
  has_shape h w img'.
Proof.
  intros [Hh Hw]. unfold assign_block.
  set (rows := take ps (drop (r * ps) img)).
  destruct (broadcast_to (length rows) patch) as [prows|] eqn:Hb; [|done].
  simpl.
  destruct (mapM _ (zip rows prows)) as [out|] eqn:Hm; [|done].
  intros [= <-].
  apply mapM_broadcast_widths in Hm as [Hlen Hwidth].
  split; [by rewrite length_inserts|].
  apply Forall_inserts; [done|]. apply Forall_lookup. intros i row' Hi.
  apply lookup_zip_with_Some in Hi as (row & orow & -> & Hrow & Horow).
  rewrite length_inserts.
  unfold rows in Hrow. apply lookup_take_Some in Hrow as [Hrow _].
  rewrite lookup_drop in Hrow.
  by apply (Forall_lookup_1 _ _ _ _ Hw Hrow).
Qed.

Lemma for_range_invariant {St} (P : St → Prop) n
    (body : nat → St → outcome St) s s' :
  (∀ x t t', P t → body x t = Returns t' → P t') →
  P s → for_range n body s = Returns s' → P s'.
Proof.
  intros Hbody Hs. revert s'. induction n as [|n IH]; intros s'.
  { unfold for_range. simpl. by intros [= <-]. }
  rewrite for_range_S.
  destruct (for_range n body s) as [t|]; [|done]. simpl.
  intros Hlast. eapply Hbody; [|exact Hlast]. by apply IH.
Qed.

(** X20. [get_img_pred] never changes the shape of the array it fills:
    whenever it returns, for patches of any shapes (those that broadcast
    into their block included), the result has the stored height and width
    [img_shape]. *)
Theorem get_img_pred_shape (inf : A) (preds : list (image A))
    (h w patch_size : nat) img :
  get_img_pred inf preds (h, w) patch_size = Returns img →
  has_shape h w img.
Proof.
  unfold get_img_pred. simpl.
  case_decide; [done|]. case_decide; [|done].
  apply (for_range_invariant (has_shape h w)).
  - intros r t t' Ht. apply (for_range_invariant (has_shape h w)); [|done].
    intros c u u' Hu.
    destruct (preds !! _) as [patch|]; [|done].
    by apply assign_block_shape.
  - split; [apply length_replicate|].
    apply Forall_replicate, length_replicate.
Qed.

End Blocks.
End EvaluateBorders.

(** ** cloud_detection/evaluate_L8CCA.py: the dictionary of [evaluate_model] *)

Module EvaluateModelFacts.
Import EvaluateL8CCA.

Lemma metric_key_inj a b : metric_key a = metric_key b → a = b.
Proof. unfold metric_key. intros Heq. by simplify_eq/=. Qed.

Lemma snoc_split {A} (pre post l : list A) (x y : A) :
  pre ++ x :: post = l ++ [y] →
  (post = [] ∧ pre = l ∧ x = y) ∨
  (∃ post0, post = post0 ++ [y] ∧ l = pre ++ x :: post0).
Proof.
  intros Heq. destruct post as [|z post _] using rev_ind.
  - left. apply app_inj_tail in Heq as [-> ->]. done.
  - right. exists post.
    rewrite app_comm_cons, app_assoc in Heq.
    apply app_inj_tail in Heq as [<- ->]. done.
Qed.

Section Metrics.
Context {V : Type} (get_metrics : string → string → gmap string V).
Implicit Types (m : gmap string (gmap string V)) (names : list string).

Lemma init_metrics_lookup names key :
  init_metrics (V:=V) names !! key =
    if decide (key ∈ metric_key <$> names) then Some ∅ else None.
Proof.
  unfold init_metrics.
  induction names as [|n names IH] using rev_ind.
  - cbn [foldl fmap list_fmap]. rewrite lookup_empty.
    by rewrite decide_False by apply not_elem_of_nil.
  - rewrite foldl_app, fmap_app. simpl. rewrite lookup_insert.
    destruct (decide (metric_key n = key)) as [<-|Hne].
    + rewrite decide_True; [done|].
      apply elem_of_app. right. apply list_elem_of_here.
    + rewrite IH. destruct (decide (key ∈ metric_key <$> names)) as [Hin|Hno].
      * rewrite decide_True; [done|]. apply elem_of_app. by left.
      * rewrite decide_False; [done|].
        intros [?|Hn0%list_elem_of_singleton]%elem_of_app; [done|].
        by apply Hne.
Qed.

(** One image recorded: every listed metric gets the entry of the image,
    nothing else changes; a missing [test_] key is the only failure. *)
Lemma record_metrics_spec names id (im : gmap string V) m :
  (∀ n, n ∈ names → is_Some (m !! metric_key n)) →
  match record_metrics names id im m with
  | Some m' =>
      (∀ n, n ∈ names → is_Some (im !! test_key n)) ∧
      (∀ n, n ∈ names →
         ∃ v per, im !! test_key n = Some v ∧ m !! metric_key n = Some per ∧
                  m' !! metric_key n = Some (<[id := v]> per)) ∧
      (∀ key, (∀ n, n ∈ names → key ≠ metric_key n) → m' !! key = m !! key)
  | None => ∃ n, n ∈ names ∧ im !! test_key n = None
  end.
Proof.
  unfold record_metrics. revert m.
  induction names as [|a names IH]; intros m Hkeys.
  { simpl. split; [|split]; try done; intros n Hn; by apply elem_of_nil in Hn. }
  simpl.
  destruct (im !! test_key a) as [va|] eqn:Hva; simpl.
  2: { assert (foldl (λ acc metric_name,
           metrics ← acc;
           value ← im !! test_key metric_name;
           per_image ← metrics !! metric_key metric_name;
           Some (<[metric_key metric_name := <[id := value]> per_image]>
                   metrics)) None names = None) as ->
         by (clear; induction names; [done|simpl; done]).
       exists a. split; [apply list_elem_of_here | done]. }
  destruct (Hkeys a (list_elem_of_here _ _)) as [pa Hpa]. rewrite Hpa. simpl.
  set (m1 := <[metric_key a := <[id := va]> pa]> m).
  assert (∀ n, n ∈ names → is_Some (m1 !! metric_key n)) as Hkeys1.
  { intros n Hn. unfold m1. rewrite lookup_insert. case_decide; [done|].
    apply Hkeys. by apply list_elem_of_further. }
  specialize (IH m1 Hkeys1).
  destruct (foldl _ (Some m1) names) as [m'|].
  2: { destruct IH as (n & Hn & Hnone). exists n.
       split; [by apply list_elem_of_further | done]. }
  destruct IH as (Htest & Hrec & Hother). split; [|split].
  - intros n [->|Hn]%elem_of_cons; [by rewrite Hva | by apply Htest].
  - intros n Hn.
    destruct (decide (n ∈ names)) as [Hin|Hout].
    + destruct (Hrec n Hin) as (v & per & Hv & Hper & Hm').
      exists v. unfold m1 in Hper. rewrite lookup_insert in Hper.
      destruct (decide (metric_key a = metric_key n)) as [Heq|Hne].
      * apply metric_key_inj in Heq as ->. injection Hper as <-.
        exists pa. rewrite Hv in Hva. injection Hva as ->.
        by rewrite Hm', insert_insert_eq.
      * by exists per.
    + apply elem_of_cons in Hn as [->|Hn]; [|done].
      exists va, pa. split; [done|]. split; [done|].
      rewrite Hother.
      * unfold m1. by rewrite lookup_insert_eq.
      * intros n Hn Heq. apply metric_key_inj in Heq as ->. done.
  - intros key Hkey. rewrite Hother.
    + unfold m1. rewrite lookup_insert_ne; [done|].
      intros <-. by apply (Hkey a (list_elem_of_here _ _)).
    + intros n Hn. by apply Hkey, list_elem_of_further.
Qed.

(** The two nested loops of [evaluate_model] are one loop over the images in
    processing order. *)
Lemma evaluate_model_images names listdir :
  evaluate_model get_metrics names listdir =
    foldl (λ acc '(tname, img_id),
        metrics ← acc;
        record_metrics names img_id (get_metrics tname img_id) metrics)
      (Some (init_metrics names)) (images listdir).
Proof.
  unfold evaluate_model, images.
  generalize (Some (init_metrics (V:=V) names)).
  induction listdir as [|[tname img_ids] listdir IH]; intros acc; [done|].
  cbn [foldl mbind list_bind]. rewrite foldl_app, IH. f_equal.
  by rewrite foldl_fmap.
Qed.

(** The state of [metrics] after the images [imgs]. *)
Lemma image_loop_spec names (imgs : list (string * string)) :
  match
    foldl (λ acc '(tname, img_id),
        metrics ← acc;
        record_metrics names img_id (get_metrics tname img_id) metrics)
      (Some (init_metrics names)) imgs
  with
  | Some m =>
      (∀ t id n, (t, id) ∈ imgs → n ∈ names →
         is_Some (get_metrics t id !! test_key n)) ∧
      (∀ key, is_Some (m !! key) ↔ key ∈ metric_key <$> names) ∧
      (∀ n per, n ∈ names → m !! metric_key n = Some per →
         (∀ id, id ∉ imgs.*2 → per !! id = None) ∧
         (∀ pre t id post, imgs = pre ++ (t, id) :: post → id ∉ post.*2 →
            per !! id = get_metrics t id !! test_key n))
  | None =>
      ∃ t id n, (t, id) ∈ imgs ∧ n ∈ names ∧
                get_metrics t id !! test_key n = None
  end.
Proof.
  induction imgs as [|[t' id'] imgs IH] using rev_ind.
  { simpl. split; [|split].
    - intros t id n Hin. by apply elem_of_nil in Hin.
    - intros key. rewrite init_metrics_lookup. case_decide; [done|].
      split; [by intros [? ?]|done].
    - intros n per Hn Hper. rewrite init_metrics_lookup in Hper.
      case_decide; [|done]. injection Hper as <-. split; [done|].
      intros pre t id post Heq. by destruct pre. }
  rewrite foldl_app. cbn [foldl].
  destruct (foldl _ (Some (init_metrics names)) imgs) as [m|].
  2: { destruct IH as (t & id & n & Hin & Hn & Hnone). simpl.
       exists t, id, n. split; [|done]. apply elem_of_app. by left. }
  destruct IH as (Htest & Hkeys & Hrec). simpl.
  assert (∀ n, n ∈ names → is_Some (m !! metric_key n)) as Hpresent.
  { intros n Hn. apply Hkeys, list_elem_of_fmap. by exists n. }
  pose proof (record_metrics_spec names id' (get_metrics t' id') m Hpresent)
    as Hstep.
  destruct (record_metrics names id' (get_metrics t' id') m) as [m'|].
  2: { destruct Hstep as (n & Hn & Hnone). exists t', id', n.
       split; [|done]. apply elem_of_app. right. apply list_elem_of_here. }
  destruct Hstep as (Htest' & Hrec' & Hother). split; [|split].
  - intros t id n [Hin|Hin%list_elem_of_singleton]%elem_of_app Hn.
    + by apply (Htest t id n).
    + injection Hin as -> ->. by apply Htest'.
  - intros key. rewrite <-Hkeys.
    destruct (decide (key ∈ metric_key <$> names)) as [Hin|Hout].
    + apply list_elem_of_fmap in Hin as (n & -> & Hn).
      destruct (Hrec' n Hn) as (v & per & _ & Hper & Hm').
      rewrite Hper, Hm'. split; by eexists.
    + rewrite Hother; [done|]. intros n Hn ->. apply Hout.
      apply list_elem_of_fmap. by exists n.
  - intros n per' Hn Hper'.
    destruct (Hrec' n Hn) as (v & per & Hv & Hper & Hm').
    rewrite Hm' in Hper'. injection Hper' as <-.
    destruct (Hrec n per Hn Hper) as (Hnone & Hlast). split.
    + intros id Hid. rewrite fmap_app, not_elem_of_app in Hid.
      destruct Hid as [Hid Hne]. rewrite lookup_insert_ne; [by apply Hnone|].
      intros ->. apply Hne. apply list_elem_of_here.
    + intros pre t id post Heq Hpost. symmetry in Heq.
      apply snoc_split in Heq as [(-> & -> & [= -> ->])|(post0 & -> & ->)].
      * by rewrite lookup_insert_eq.
      * rewrite fmap_app, not_elem_of_app in Hpost. destruct Hpost as [Hp Hne].
        rewrite lookup_insert_ne; [by apply (Hlast pre t id post0)|].
        intros ->. apply Hne. apply list_elem_of_here.
Qed.

(** The last image with a given id. *)
Lemma last_occurrence (id : string) (imgs : list (string * string)) :
  id ∈ imgs.*2 →
  ∃ pre t post, imgs = pre ++ (t, id) :: post ∧ id ∉ post.*2.
Proof.
  induction imgs as [|[t0 id0] imgs IH]; intros Hin.
  { by apply elem_of_nil in Hin. }
  destruct (decide (id ∈ imgs.*2)) as [Hrest|Hrest].
  - destruct (IH Hrest) as (pre & t & post & -> & Hpost).
    by exists ((t0, id0) :: pre), t, post.
  - rewrite fmap_cons in Hin. apply elem_of_cons in Hin as [->|?]; [|done].
    by exists [], t0, imgs.
Qed.

(** X17. What [evaluate_model] returns, when no key is missing: a
    dictionary with exactly one entry per metric of the model, under the
    key [L8CCA_<metric>], also when there is no image at all; each entry is
    a dictionary with exactly the ids of the processed images as keys; the
    value under an id is the [test_<metric>] value of the metrics of the
    last processed image with that id, so an id that occurs in two
    directories keeps only the result of the later one. *)
Theorem evaluate_model_records names listdir m :
  evaluate_model get_metrics names listdir = Some m →
  (∀ key, is_Some (m !! key) ↔ ∃ n, n ∈ names ∧ key = metric_key n) ∧
  (∀ n, n ∈ names →
     ∃ per, m !! metric_key n = Some per ∧
       (∀ id, is_Some (per !! id) ↔ ∃ t, (t, id) ∈ images listdir) ∧
       (∀ pre t id post,
          images listdir = pre ++ (t, id) :: post → id ∉ post.*2 →
          ∃ v, get_metrics t id !! test_key n = Some v ∧ per !! id = Some v)).
Proof.
  rewrite evaluate_model_images. intros Hrun.
  pose proof (image_loop_spec names (images listdir)) as Hspec.
  rewrite Hrun in Hspec. destruct Hspec as (Htest & Hkeys & Hrec).
  split.
  { intros key. rewrite Hkeys, list_elem_of_fmap. split.
    - intros (n & -> & Hn). by exists n.
    - intros (n & Hn & ->). by exists n. }
  intros n Hn.
  assert (is_Some (m !! metric_key n)) as [per Hper].
  { apply Hkeys, list_elem_of_fmap. by exists n. }
  exists per. split; [done|].
  destruct (Hrec n per Hn Hper) as (Hnone & Hlast). split.
  - intros id. split.
    + intros Hsome.
      destruct (decide (id ∈ (images listdir).*2)) as [Hin|Hout].
      * apply list_elem_of_fmap in Hin as ([t id0] & -> & Hin). by exists t.
      * rewrite (Hnone id Hout) in Hsome. by destruct Hsome.
    + intros (t & Hin).
      assert (id ∈ (images listdir).*2) as Hid.
      { apply list_elem_of_fmap. by exists (t, id). }
      destruct (last_occurrence id _ Hid) as (pre & t' & post & Heq & Hpost).
      rewrite (Hlast pre t' id post Heq Hpost).
      apply (Htest t' id n); [|done]. rewrite Heq.
      apply elem_of_app. right. apply list_elem_of_here.
  - intros pre t id post Heq Hpost.
    destruct (Htest t id n) as [v Hv]; [|done|].
    { rewrite Heq. apply elem_of_app. right. apply list_elem_of_here. }
    exists v. split; [done|]. by rewrite (Hlast pre t id post Heq Hpost).
Qed.

(** X18. The only failure of the bookkeeping of [evaluate_model] is the
    [KeyError] of [img_metrics[f"test_{metric_name}"]]: the function fails
    exactly when the metrics of some processed image lack the key of some
    metric of the model; [metrics[f"L8CCA_{metric_name}"]] never misses,
    and a model without metrics or a dataset without images cannot fail. *)
Theorem evaluate_model_key_error names listdir :
  evaluate_model get_metrics names listdir = None ↔
  ∃ t id n, (t, id) ∈ images listdir ∧ n ∈ names ∧
            get_metrics t id !! test_key n = None.
Proof.
  rewrite evaluate_model_images.
  pose proof (image_loop_spec names (images listdir)) as Hspec.
  destruct (foldl _ _ (images listdir)) as [m|].
  - destruct Hspec as (Htest & _). split; [done|].
    intros (t & id & n & Hin & Hn & Hnone).
    destruct (Htest t id n Hin Hn) as [v Hv]. congruence.
  - split; [by intros _ | done].
Qed.

End Metrics.
End EvaluateModelFacts.

(** * Instances: the theorems at concrete inputs *)

Module Instances.
Import NumPy Utils EvaluateL8CCA Examples.

(** The failing input of C1 and C2 under NumPy's generator: labels
    [0,1,0,1,1], shuffled to [0,0,1,1,1]. *)
Lemma train_val_test_split_val_test_overlap_witness :
  @shuffle mt19937 nat (@RandomState mt19937 0) (samples_at five_samples 0)
    = [12; 10; 11; 13; 14] ∧
  @shuffle mt19937 Z (@RandomState mt19937 0) (vector_at five_samples 0)
    = [0; 0; 1; 1; 1]%Z ∧
  ∃ split,
    (@train_val_test_split mt19937 nat 0 0 (SizeFloat (3 # 4)) (SizeFloat (1 # 2))
       true five_samples).1 = Returns split ∧
    train_x split = [12; 11; 13] ∧ val_x split = [10] ∧
    test_x split = [10; 14].
Proof.
  split; [reflexivity|]. split; [reflexivity|].
  destruct (@SplitSpec.train_val_test_split_val_test_overlap mt19937 nat
              0 0 five_samples 12 10 11 13 14 eq_refl eq_refl)
    as (ix & split & _ & Hrun & _ & _ & _ & _ & _ & Htrain & Hval & Htest & _).
  exists split. auto.
Defined.

Lemma train_val_test_split_val_outside_train_witness :
  @shuffle mt19937 nat (@RandomState mt19937 0) (samples_at five_samples 0)
    = [12; 10; 11; 13; 14] ∧
  @shuffle mt19937 Z (@RandomState mt19937 0) (vector_at five_samples 0)
    = [0; 0; 1; 1; 1]%Z ∧
  ∃ ix,
    split_indices 5 [0; 0; 1; 1; 1]%Z (SizeFloat (3 # 4)) (SizeFloat (1 # 2))
      true = Returns ix ∧
    train_superset ix = [0; 2; 3] ∧ val_indices ix = [1].
Proof.
  split; [reflexivity|]. split; [reflexivity|].
  destruct (@SplitSpec.train_val_test_split_val_outside_train mt19937 nat
              0 0 five_samples 12 10 11 13 14 eq_refl eq_refl)
    as (ix & split & Hix & _ & Hsuper & _ & Hval & _).
  exists ix. auto.
Defined.

(** One class of ten labels and the float [0.7]: seven indices, the float
    product [10 * 0.7] being [7.0]. *)
Lemma get_set_indices_stratified_fraction_witness :
  (0 < float_0_7)%Q ∧ (float_0_7 < 1)%Q ∧
  (Z.of_nat (length (replicate 10 0%Z)) < 2 ^ 53)%Z ∧
  replicate 10 0%Z ≠ [] ∧
  ∃ idx,
    _get_set_indices (replicate 10 0%Z) (SizeFloat float_0_7) true
      = Returns (IntIndices idx) ∧
    NoDup idx ∧
    length (filter (λ i, replicate 10 0%Z !! i = Some 0%Z) idx) = 7.
Proof.
  split; [reflexivity|]. split; [reflexivity|]. split; [reflexivity|].
  split; [discriminate|].
  destruct (proj2 (IndicesSpec.get_set_indices_stratified_fraction
                     (replicate 10 0%Z) float_0_7 eq_refl eq_refl eq_refl))
    as (idx & Hidx & Hnodup & Hclass); [discriminate|].
  exists idx. split; [exact Hidx|]. split; [exact Hnodup|].
  destruct (Hclass 0%Z) as (_ & _ & Hlen & _).
  rewrite Hlen. by vm_compute.
Defined.

(** Three samples and their three labels, shuffled together. *)
Lemma shuffle_arrays_together_same_permutation_witness :
  (0 ≤ 0 < 2 ^ 32)%Z ∧
  Forall (λ a, len (read three_and_three a) = 3) [SamplesRef 0; VectorRef 0] ∧
  NoDup [SamplesRef 0; VectorRef 0] ∧
  @shuffle_permutation mt19937 0 3 ≡ₚ seq 0 3 ∧
  Forall (λ a,
      read (@shuffle_arrays_together mt19937 nat [SamplesRef 0; VectorRef 0] 0
              three_and_three).2 a
      = permute_array (@shuffle_permutation mt19937 0 3) (read three_and_three a))
    [SamplesRef 0; VectorRef 0].
Proof.
  assert (Forall (λ a, len (read three_and_three a) = 3)
            [SamplesRef 0; VectorRef 0]) as Hlen
    by (repeat constructor).
  assert (NoDup [SamplesRef 0; VectorRef 0]) as Hnodup.
  { apply NoDup_cons. split; [|apply NoDup_singleton].
    intros Hin. apply list_elem_of_singleton in Hin. discriminate Hin. }
  assert (0 ≤ 0 < 2 ^ 32)%Z as Hseed by lia.
  split; [exact Hseed|]. split; [exact Hlen|]. split; [exact Hnodup|].
  destruct (@ShuffleSpec.shuffle_arrays_together_same_permutation mt19937 nat
              [SamplesRef 0; VectorRef 0] 0 three_and_three 3 Hseed Hlen)
    as (Hperm & _ & Hall & _).
  split; [exact Hperm | exact (Hall Hnodup)].
Defined.

(** Three samples with two labels raise [AssertionError]; three with three
    do not raise with the seed 0, and raise [ValueError] with the seed
    [-1]. *)
Lemma shuffle_arrays_together_assertion_witness :
  ¬ SameLengths [SamplesRef 0; VectorRef 0] three_and_two ∧
  SameLengths [SamplesRef 0; VectorRef 0] three_and_three ∧
  @shuffle_arrays_together mt19937 nat [SamplesRef 0; VectorRef 0] 0 three_and_two
    = (Raises AssertionError, three_and_two) ∧
  (@shuffle_arrays_together mt19937 nat [SamplesRef 0; VectorRef 0] 0
     three_and_three).1 = Returns () ∧
  @shuffle_arrays_together mt19937 nat [SamplesRef 0; VectorRef 0] (-1)
     three_and_three = (Raises ValueError, three_and_three).
Proof.
  assert (¬ SameLengths [SamplesRef 0; VectorRef 0] three_and_two) as Hdiffer.
  { intros Hsame.
    specialize (Hsame (SamplesRef 0) (VectorRef 0)
                  (list_elem_of_here _ _)
                  (list_elem_of_further _ _ _ (list_elem_of_here _ _))).
    discriminate Hsame. }
  assert (SameLengths [SamplesRef 0; VectorRef 0] three_and_three) as Hsame.
  { intros a b Ha Hb.
    repeat (apply elem_of_cons in Ha as [->|Ha]);
      repeat (apply elem_of_cons in Hb as [->|Hb]);
      try reflexivity; by apply elem_of_nil in Ha || by apply elem_of_nil in Hb. }
  split; [exact Hdiffer|]. split; [exact Hsame|]. split; [|split].
  - exact (proj1 (@ShuffleSpec.shuffle_arrays_together_assertion mt19937 nat
                    [SamplesRef 0; VectorRef 0] 0 three_and_two) Hdiffer).
  - destruct (@ShuffleSpec.shuffle_arrays_together_assertion mt19937 nat
                [SamplesRef 0; VectorRef 0] 0 three_and_three)
      as (_ & _ & Hreturns & _).
    apply Hreturns; [exact Hsame | lia].
  - destruct (@ShuffleSpec.shuffle_arrays_together_assertion mt19937 nat
                [SamplesRef 0; VectorRef 0] (-1) three_and_three)
      as (_ & _ & _ & _ & Hraises).
    apply Hraises; [exact Hsame | discriminate | lia].
Defined.

(** The four tiles of [four_by_four], reassembled over the placeholder 99. *)
Lemma get_img_pred_overwrites_placeholder_witness :
  2 ≠ 0 ∧ 4 `mod` 2 = 0 ∧
  length (tile 2 (4, 4) four_by_four) = (4 `div` 2) * (4 `div` 2) ∧
  Forall (has_shape 2 2) (tile 2 (4, 4) four_by_four) ∧
  Forall (Forall (Forall (λ v, v ≠ 99))) (tile 2 (4, 4) four_by_four) ∧
  ∃ img,
    get_img_pred 99 (tile 2 (4, 4) four_by_four) (4, 4) 2 = Returns img ∧
    Forall (Forall (λ v, v ≠ 99)) img.
Proof.
  assert (2 ≠ 0) as Hps by discriminate.
  assert (Forall (has_shape 2 2) (tile 2 (4, 4) four_by_four)) as Hshapes
    by (repeat constructor).
  assert (Forall (Forall (Forall (λ v, v ≠ 99))) (tile 2 (4, 4) four_by_four))
    as Hfinite by (repeat constructor; discriminate).
  split; [exact Hps|]. split; [reflexivity|]. split; [reflexivity|].
  split; [exact Hshapes|]. split; [exact Hfinite|].
  destruct (EvaluateSpec.get_img_pred_overwrites_placeholder 99
              (tile 2 (4, 4) four_by_four) 4 4 2 Hps eq_refl eq_refl eq_refl
              Hshapes) as (img & Hrun & _ & _ & Hno_inf).
  exists img. split; [exact Hrun | exact (Hno_inf Hfinite)].
Defined.

Lemma tile_get_img_pred_roundtrip_witness :
  2 ≠ 0 ∧ 4 `mod` 2 = 0 ∧ has_shape 4 4 four_by_four ∧
  get_img_pred 99 (tile 2 (4, 4) four_by_four) (4, 4) 2 = Returns four_by_four.
Proof.
  assert (2 ≠ 0) as Hps by discriminate.
  assert (has_shape 4 4 four_by_four) as Hshape by (repeat constructor).
  split; [exact Hps|]. split; [reflexivity|]. split; [exact Hshape|].
  exact (proj2 (EvaluateSpec.tile_get_img_pred_roundtrip 99 4 4 2
                  Hps eq_refl eq_refl) four_by_four Hshape).
Defined.

End Instances.

Module LossesInstances.
Import Losses.
Open Scope Q_scope.

(** A 2 × 2 sample with no positive pixel in truth or prediction. *)
Lemma overlap_metrics_zero_on_empty_masks_witness :
  zero_mask [[[0; 0]; [0; 0]]] ∧
  JaccardIndexMetric [[[0; 0]; [0; 0]]] [[[0; 0]; [0; 0]]] == 0 ∧
  DiceCoefMetric [[[0; 0]; [0; 0]]] [[[0; 0]; [0; 0]]] == 0 ∧
  recall [[[0; 0]; [0; 0]]] [[[0; 0]; [0; 0]]] == 0 ∧
  precision [[[0; 0]; [0; 0]]] [[[0; 0]; [0; 0]]] == 0 ∧
  f1_score [[[0; 0]; [0; 0]]] [[[0; 0]; [0; 0]]] == 0.
Proof.
  assert (zero_mask [[[0; 0]; [0; 0]]]) as Hzero by (repeat constructor).
  split; [exact Hzero|].
  exact (proj2 (LossesSpec.overlap_metrics_zero_on_empty_masks
                  [[[0; 0]; [0; 0]]] [[[0; 0]; [0; 0]]] Hzero Hzero)).
Defined.

(** The last fixture of [TestJaccardIndexMetric]: both predictions 0.75
    count as positive. *)
Lemma jaccard_index_metric_thresholded_witness :
  binary_mask [[[1; 1]; [0; 0]]] ∧
  unit_mask [[[75 # 100; 75 # 100]; [0; 0]]] ∧
  JaccardIndexMetric [[[1; 1]; [0; 0]]] [[[75 # 100; 75 # 100]; [0; 0]]]
  == ratio (inject_Z 2) (inject_Z (2 + 0 + 0)).
Proof.
  assert (binary_mask [[[1; 1]; [0; 0]]]) as Htrue
    by (repeat constructor; (by left) || (by right)).
  assert (unit_mask [[[75 # 100; 75 # 100]; [0; 0]]]) as Hpred
    by (repeat constructor; discriminate).
  split; [exact Htrue|]. split; [exact Hpred|].
  exact (proj2 (proj2 LossesSpec.jaccard_index_metric_thresholded)
           [[[1; 1]; [0; 0]]] [[[75 # 100; 75 # 100]; [0; 0]]] Htrue Hpred).
Defined.

End LossesInstances.

(** * Instances of the further properties *)

Module FurtherInstances.
Import NumPy Utils EvaluateL8CCA Examples.

(** Three samples 1, 2, 3 with the labels 10, 20, 30, shuffled together. *)
Lemma shuffle_arrays_together_keeps_pairs_witness :
  (0 ≤ 0 < 2 ^ 32)%Z ∧
  length (samples_at paired 0) = length (vector_at paired 0) ∧
  zip (samples_at (@shuffle_arrays_together mt19937 nat
                     [SamplesRef 0; VectorRef 0] 0 paired).2 0)
      (vector_at (@shuffle_arrays_together mt19937 nat
                    [SamplesRef 0; VectorRef 0] 0 paired).2 0)
  ≡ₚ [(1, 10%Z); (2, 20%Z); (3, 30%Z)].
Proof.
  assert (0 ≤ 0 < 2 ^ 32)%Z as Hseed by lia.
  split; [exact Hseed|]. split; [reflexivity|].
  exact (proj1 (proj2 (@ShuffleLaws.shuffle_arrays_together_keeps_pairs
                         mt19937 nat 0 0 0 paired Hseed eq_refl))).
Defined.

(** Two stores that hold the same three samples and labels at address 0
    and differ elsewhere. *)
Lemma shuffle_arrays_together_injective_witness :
  (@shuffle_arrays_together mt19937 nat [SamplesRef 0; VectorRef 0] 0
     paired).1 = Returns () ∧
  (@shuffle_arrays_together mt19937 nat [SamplesRef 0; VectorRef 0] 0
     paired_elsewhere).1 = Returns () ∧
  agree_on [SamplesRef 0; VectorRef 0] paired paired_elsewhere.
Proof.
  split; [reflexivity|]. split; [reflexivity|].
  apply (@ShuffleLaws.shuffle_arrays_together_injective mt19937 nat
           [SamplesRef 0; VectorRef 0] 0 [SamplesRef 0; VectorRef 0]
           paired paired_elsewhere eq_refl eq_refl).
  intros a Ha.
  apply elem_of_cons in Ha as [->|Ha]; [reflexivity|].
  apply elem_of_cons in Ha as [->|Ha]; [reflexivity|].
  by apply elem_of_nil in Ha.
Defined.

(** Two samples of each class, of two and of three. *)
Lemma get_set_indices_stratified_count_witness :
  (1 ≤ 2)%Z ∧ [0; 1; 1; 0; 1]%Z ≠ [] ∧
  ∃ idx,
    _get_set_indices [0; 1; 1; 0; 1]%Z (SizeInt 2) true
      = Returns (IntIndices idx) ∧
    NoDup idx.
Proof.
  assert (1 ≤ 2)%Z as Hn by lia.
  split; [exact Hn|]. split; [discriminate|].
  destruct (proj2 (IndicesBranches.get_set_indices_stratified_count
                     [0; 1; 1; 0; 1]%Z 2 Hn))
    as (idx & Hidx & Hnodup & _); [discriminate|].
  exists idx. auto.
Defined.

(** One half and three quarters of the same labels. *)
Lemma get_set_indices_monotone_witness :
  (0 < 1 # 2)%Q ∧ (1 # 2 <= 3 # 4)%Q ∧ (3 # 4 < 1)%Q ∧
  _get_set_indices [0; 1; 1; 0; 1]%Z (SizeFloat (1 # 2)) true
    = Returns (IntIndices [0; 1]) ∧
  _get_set_indices [0; 1; 1; 0; 1]%Z (SizeFloat (3 # 4)) true
    = Returns (IntIndices [0; 1; 2]) ∧
  ∀ i, i ∈ [0; 1] → i ∈ [0; 1; 2].
Proof.
  assert (1 # 2 <= 3 # 4)%Q as Hle by (unfold Qle; simpl; lia).
  split; [reflexivity|]. split; [exact Hle|]. split; [reflexivity|].
  split; [reflexivity|]. split; [reflexivity|].
  exact (IndicesBranches.get_set_indices_monotone [0; 1; 1; 0; 1]%Z
           (1 # 2) (3 # 4) true (IntIndices [0; 1]) (IntIndices [0; 1; 2])
           eq_refl Hle eq_refl eq_refl eq_refl).
Defined.

(** The stratified split of the five samples: sample 10 is returned twice,
    and every pair is returned. *)
Lemma train_val_test_split_covers_witness :
  (@train_val_test_split mt19937 nat 0 0 (SizeFloat (3 # 4))
     (SizeFloat (1 # 2)) true five_samples).1
  = Returns (Split [12; 11; 13] [0; 1; 1]%Z [10] [0]%Z [10; 14] [0; 1]%Z) ∧
  ∀ p, p ∈ zip [10; 11; 12; 13; 14] [0; 1; 0; 1; 1]%Z →
    p ∈ zip [12; 11; 13] [0; 1; 1]%Z ∨ p ∈ zip [10] [0]%Z ∨
    p ∈ zip [10; 14] [0; 1]%Z.
Proof.
  split; [reflexivity|].
  exact (proj2 (@SplitOutcomes.train_val_test_split_covers mt19937 nat 0 0
                  (SizeFloat (3 # 4)) (SizeFloat (1 # 2)) true five_samples
                  (Split [12; 11; 13] [0; 1; 1]%Z [10] [0]%Z [10; 14] [0; 1]%Z)
                  eq_refl)).
Defined.

(** The same five samples without stratification: a partition. *)
Lemma train_val_test_split_global_partition_witness :
  (@train_val_test_split mt19937 nat 0 0 (SizeFloat (3 # 5))
     (SizeFloat (1 # 2)) false five_samples).1
  = Returns (Split [10; 11] [0; 1]%Z [12] [0]%Z [13; 14] [1; 1]%Z) ∧
  zip ([10; 11] ++ [12] ++ [13; 14]) ([0; 1] ++ [0] ++ [1; 1])%Z
    ≡ₚ zip [10; 11; 12; 13; 14] [0; 1; 0; 1; 1]%Z.
Proof.
  split; [reflexivity|].
  exact (proj1 (@SplitOutcomes.train_val_test_split_global_partition
                  mt19937 nat 0 0 (SizeFloat (3 # 5)) (SizeFloat (1 # 2))
                  five_samples
                  (Split [10; 11] [0; 1]%Z [12] [0]%Z [13; 14] [1; 1]%Z)
                  eq_refl)).
Defined.

(** Three of the five samples for training and validation. *)
Lemma train_val_test_split_count_outcome_witness :
  length (samples_at five_samples 0) = length (vector_at five_samples 0) ∧
  (0 < 1 # 2)%Q ∧ (1 # 2 < 1)%Q ∧ (1 ≤ 3 ≤ 5)%Z ∧
  ∃ split,
    (@train_val_test_split mt19937 nat 0 0 (SizeInt 3) (SizeFloat (1 # 2))
       false five_samples).1 = Returns split ∧
    length (train_x split) + length (val_x split) = 3 ∧
    length (test_x split) = 2.
Proof.
  assert (1 ≤ 3 ≤ 5)%Z as Hn by lia.
  split; [reflexivity|]. split; [reflexivity|]. split; [reflexivity|].
  split; [exact Hn|].
  exact (proj1 (proj2 (@SplitOutcomes.train_val_test_split_count_outcome
                         mt19937 nat 0 0 3 (1 # 2) five_samples
                         eq_refl eq_refl eq_refl)) Hn).
Defined.

(** One third of three samples, one position although the float [1/3] is
    below 1/3; and one tenth of three samples, none. *)
Lemma train_val_test_split_fraction_outcome_witness :
  length (samples_at three_and_three 0) = length (vector_at three_and_three 0) ∧
  (Z.of_nat (length (samples_at three_and_three 0)) < 2 ^ 53)%Z ∧
  (0 < float_1_3)%Q ∧ (float_1_3 <= 1 - 2 ^ (-53))%Q ∧
  (0 < float_0_1)%Q ∧ (float_0_1 <= 1 - 2 ^ (-53))%Q ∧
  (0 < 1 # 2)%Q ∧ (1 # 2 < 1)%Q ∧
  (∃ split,
     (@train_val_test_split mt19937 nat 0 0 (SizeFloat float_1_3)
        (SizeFloat (1 # 2)) false three_and_three).1 = Returns split ∧
     length (train_x split) + length (val_x split) = 1 ∧
     length (test_x split) = 2) ∧
  (@train_val_test_split mt19937 nat 0 0 (SizeFloat float_0_1)
     (SizeFloat (1 # 2)) false three_and_three).1 = Raises ValueError.
Proof.
  assert (1 ≤ 1) as Hk by lia.
  assert (float_1_3 <= 1 - 2 ^ (-53))%Q as Hthird by (by vm_compute).
  assert (float_0_1 <= 1 - 2 ^ (-53))%Q as Htenth by (by vm_compute).
  split; [reflexivity|]. split; [reflexivity|]. split; [reflexivity|].
  split; [exact Hthird|]. split; [reflexivity|]. split; [exact Htenth|].
  split; [reflexivity|]. split; [reflexivity|]. split.
  - exact (proj2 (proj2 (proj2
             (@SplitOutcomes.train_val_test_split_fraction_outcome
                mt19937 nat 0 0 float_1_3 (1 # 2) three_and_three
                eq_refl eq_refl eq_refl Hthird eq_refl eq_refl))) Hk).
  - exact (proj1 (proj2 (proj2
             (@SplitOutcomes.train_val_test_split_fraction_outcome
                mt19937 nat 0 0 float_0_1 (1 # 2) three_and_three
                eq_refl eq_refl eq_refl Htenth eq_refl eq_refl))) eq_refl).
Defined.

(** Three quarters of each class of the five samples: class 1 gives two
    positions, and both classes reach the test set. *)
Lemma train_val_test_split_stratified_outcome_witness :
  length (samples_at five_samples 0) = length (vector_at five_samples 0) ∧
  (Z.of_nat (length (samples_at five_samples 0)) < 2 ^ 53)%Z ∧
  (0 < 3 # 4)%Q ∧ (3 # 4 <= 1 - 2 ^ (-53))%Q ∧ (0 < 1 # 2)%Q ∧ (1 # 2 < 1)%Q ∧
  1 ≤ int_mul (length (where_eq (vector_at five_samples 0) 1%Z))
        (SizeFloat (3 # 4)) ∧
  ∃ split,
    (@train_val_test_split mt19937 nat 0 0 (SizeFloat (3 # 4))
       (SizeFloat (1 # 2)) true five_samples).1 = Returns split ∧
    ∀ c, c ∈ [0; 1; 0; 1; 1]%Z → c ∈ test_y split.
Proof.
  assert (1 ≤ int_mul (length (where_eq (vector_at five_samples 0) 1%Z))
                (SizeFloat (3 # 4))) as Hshare by (vm_compute; lia).
  assert (3 # 4 <= 1 - 2 ^ (-53))%Q as Hq by (by vm_compute).
  split; [reflexivity|]. split; [reflexivity|]. split; [reflexivity|].
  split; [exact Hq|]. split; [reflexivity|]. split; [reflexivity|].
  split; [exact Hshare|].
  exact (proj2 (@SplitOutcomes.train_val_test_split_stratified_outcome
                  mt19937 nat 0 0 (3 # 4) (1 # 2) five_samples
                  eq_refl eq_refl eq_refl Hq eq_refl eq_refl) 1%Z Hshare).
Defined.

(** [train_size=1.0] on the five samples. *)
Lemma train_val_test_split_float_size_witness :
  (1 <= 1)%Q ∧
  length (samples_at five_samples 0) = length (vector_at five_samples 0) ∧
  (@train_val_test_split mt19937 nat 0 0 (SizeFloat 1) (SizeFloat (1 # 2))
     true five_samples).1 = Raises TypeError ∧
  (@train_val_test_split mt19937 nat 0 0 (SizeFloat 1) (SizeFloat (1 # 2))
     false five_samples).1 = Raises IndexError.
Proof.
  assert (1 <= 1)%Q as Hq by apply Qle_refl.
  split; [exact Hq|]. split; [reflexivity|]. split.
  - exact (@SplitOutcomes.train_val_test_split_float_size mt19937 nat 0 0 1
             (SizeFloat (1 # 2)) true five_samples Hq eq_refl).
  - exact (@SplitOutcomes.train_val_test_split_float_size mt19937 nat 0 0 1
             (SizeFloat (1 # 2)) false five_samples Hq eq_refl).
Defined.

(** The four tiles of [four_by_four] in a 5 × 5 image over the
    placeholder 99: the last row and the last column stay 99. *)
Lemma get_img_pred_border_keeps_placeholder_witness :
  2 ≠ 0 ∧
  length (tile 2 (4, 4) four_by_four) = (5 `div` 2) * (5 `div` 2) ∧
  Forall (has_shape 2 2) (tile 2 (4, 4) four_by_four) ∧
  ∃ img,
    get_img_pred 99 (tile 2 (4, 4) four_by_four) (5, 5) 2 = Returns img ∧
    pixel img 4 0 = Some 99 ∧ pixel img 0 4 = Some 99.
Proof.
  assert (2 ≠ 0) as Hps by discriminate.
  assert (Forall (has_shape 2 2) (tile 2 (4, 4) four_by_four)) as Hshapes
    by (repeat constructor).
  split; [exact Hps|]. split; [reflexivity|]. split; [exact Hshapes|].
  destruct (EvaluateBorders.get_img_pred_border_keeps_placeholder 99
              (tile 2 (4, 4) four_by_four) 5 5 2 Hps eq_refl Hshapes)
    as (img & Hrun & _ & Hborder & _).
  exists img. split; [exact Hrun|]. split.
  - apply Hborder; [lia | lia | left; simpl; lia].
  - apply Hborder; [lia | lia | right; simpl; lia].
Defined.

(** Four 3 × 3 patches for the 2 × 2 tiles of a 4 × 4 image, and no patch
    at all. *)
Lemma get_img_pred_shape_errors_witness :
  2 ≠ 0 ∧
  Forall (has_shape 3 3) (replicate 4 three_by_three) ∧
  get_img_pred 99 (replicate 4 three_by_three) (4, 4) 2 = Raises ValueError ∧
  get_img_pred 99 [] (4, 4) 2 = Raises EinopsError.
Proof.
  assert (2 ≠ 0) as Hps by discriminate.
  assert (Forall (has_shape 3 3) (replicate 4 three_by_three)) as Hshapes
    by (repeat constructor).
  split; [exact Hps|]. split; [exact Hshapes|]. split.
  - apply (proj2 (EvaluateBorders.get_img_pred_shape_errors 99
                    (replicate 4 three_by_three) 4 4 2 3 3 Hps));
      [reflexivity | lia | lia | exact Hshapes | left; lia].
  - apply (proj1 (EvaluateBorders.get_img_pred_shape_errors 99 [] 4 4 2 3 3
                    Hps)).
    simpl. lia.
Defined.

(** Two metrics over the scenes of [two_biomes]: the entry of [LC81] is
    that of the later directory, [Forest]. *)
Lemma evaluate_model_records_witness :
  ∃ m per,
    evaluate_model scene_metrics ["jaccard_index_metric"; "recall"] two_biomes
      = Some m ∧
    m !! "L8CCA_jaccard_index_metric" = Some per ∧
    per !! "LC81" = Some 6.
Proof.
  destruct (evaluate_model scene_metrics ["jaccard_index_metric"; "recall"]
              two_biomes) as [m|] eqn:Hrun; [|vm_compute in Hrun; discriminate].
  destruct (proj2 (EvaluateModelFacts.evaluate_model_records scene_metrics
                     ["jaccard_index_metric"; "recall"] two_biomes m Hrun)
              "jaccard_index_metric" (list_elem_of_here _ _))
    as (per & Hper & _ & Hlast).
  destruct (Hlast [("Barren", "LC81"); ("Barren", "LC82")] "Forest" "LC81" []
              eq_refl (not_elem_of_nil _)) as (v & Hv & Hrec).
  vm_compute in Hv. injection Hv as <-.
  exists m, per. split; [reflexivity|]. split; [exact Hper | exact Hrec].
Defined.

(** [train_size=5] per class on the five samples: nothing is left for the
    test set. *)
Lemma train_val_test_split_stratified_count_witness :
  length (samples_at five_samples 0) = length (vector_at five_samples 0) ∧
  (1 ≤ 5)%Z ∧ (0 < 1 # 2)%Q ∧ (1 # 2 < 1)%Q ∧
  vector_at five_samples 0 ≠ [] ∧
  (@train_val_test_split mt19937 nat 0 0 (SizeInt 5) (SizeFloat (1 # 2))
     true five_samples).1
  = Returns (Split [10; 13; 14] [0; 1; 1]%Z [12; 11] [0; 1]%Z [] []) ∧
  ∃ split,
    (@train_val_test_split mt19937 nat 0 0 (SizeInt 5) (SizeFloat (1 # 2))
       true five_samples).1 = Returns split ∧
    test_x split = [] ∧ test_y split = [].
Proof.
  assert (1 ≤ 5)%Z as Hn by lia.
  assert (vector_at five_samples 0 ≠ []) as Hne by discriminate.
  assert (∀ c, length (where_eq (vector_at five_samples 0) c) ≤ Z.to_nat 5)
    as Hsmall.
  { intros c. unfold where_eq.
    etrans; [apply length_filter|]. rewrite length_seq. simpl. lia. }
  split; [reflexivity|]. split; [exact Hn|]. split; [reflexivity|].
  split; [reflexivity|]. split; [exact Hne|]. split; [reflexivity|].
  destruct (proj2 (@SplitOutcomes.train_val_test_split_stratified_count
                     mt19937 nat 0 0 5 (1 # 2) five_samples
                     eq_refl Hn eq_refl eq_refl) Hne)
    as (split & Hrun & Hwhole).
  destruct (Hwhole Hsmall) as (Htest_x & Htest_y & _).
  exists split. auto.
Defined.

(** Four 1 × 1 patches, each broadcast into its 2 × 2 block of a 5 × 4
    image. *)
Lemma get_img_pred_shape_witness :
  get_img_pred 99 (replicate 4 [[7]]) (5, 4) 2
  = Returns [[7; 7; 7; 7]; [7; 7; 7; 7]; [7; 7; 7; 7]; [7; 7; 7; 7];
             [99; 99; 99; 99]] ∧
  has_shape 5 4 [[7; 7; 7; 7]; [7; 7; 7; 7]; [7; 7; 7; 7]; [7; 7; 7; 7];
                 [99; 99; 99; 99]].
Proof.
  split; [reflexivity|].
  exact (EvaluateBorders.get_img_pred_shape 99 (replicate 4 [[7]]) 5 4 2
           [[7; 7; 7; 7]; [7; 7; 7; 7]; [7; 7; 7; 7]; [7; 7; 7; 7];
            [99; 99; 99; 99]] eq_refl).
Defined.

End FurtherInstances.
